(** * PDF translator: page cache, retrying translator and page pipeline

    A shallow embedding of [app.py] (cache key, cache get/put,
    [translate_pdf_pages]) and of [deep_translator/openai_compatible.py]
    (the retrying [translate]), with the theorems that settle the
    specification's claims about them.

    Python values are modelled as follows.
    - [str] is a list of Unicode code points ([N]); [bytes] is a list of
      octets ([N] below 256).
    - [int] is [Z].
    - Mutable PyMuPDF documents live in a heap (a list indexed by object
      identity); a Python variable holding a document holds its identity.
    - Exceptions and side effects go through the monad [M]: a computation
      takes the world and returns either a value or a raised exception,
      together with the world as the effects performed so far left it. *)

From Stdlib Require Import ZArith NArith List String Ascii Lia Bool DecimalString.
From Stdlib Require DecimalPos DecimalZ.
From stdpp Require Import gmap list fin_maps.

Local Open Scope Z_scope.

(** ** Python strings *)

Module Py.

(** A Python [str]: the sequence of its code points. *)
Definition str := list N.

(** A Python [bytes] value: the sequence of its octets. *)
Definition bytes := list N.

(** A string literal of the source (ASCII only). *)
Definition lit (s : string) : str :=
  map N_of_ascii (list_ascii_of_string s).

(** [str(z)] for an [int]. *)
Definition str_of_int (z : Z) : str :=
  lit (NilZero.string_of_int (Z.to_int z)).

(** The values that the code formats into strings: dictionary entries of
    [doc.metadata] and the content of a chat completion. *)
Inductive value :=
| VStr (s : str)
| VInt (z : Z)
| VNone.

(** [str(v)], which is also what an f-string placeholder [{v}] gives. *)
Definition to_str (v : value) : str :=
  match v with
  | VStr s => s
  | VInt z => str_of_int z
  | VNone => lit "None"
  end.

(** [str.isspace] on one character: the code points CPython classifies as
    whitespace. [str.strip()] removes exactly these. *)
Definition isspace (c : N) : bool :=
  ((0x09 <=? c) && (c <=? 0x0D) || (0x1C <=? c) && (c <=? 0x20)
   || (c =? 0x85) || (c =? 0xA0) || (c =? 0x1680)
   || (0x2000 <=? c) && (c <=? 0x200A)
   || (c =? 0x2028) || (c =? 0x2029) || (c =? 0x202F)
   || (c =? 0x205F) || (c =? 0x3000))%N.

(** [s.lstrip()]. *)
Fixpoint lstrip (s : str) : str :=
  match s with
  | c :: s' => if isspace c then lstrip s' else s
  | [] => []
  end.

(** [s.rstrip()]. *)
Definition rstrip (s : str) : str := rev (lstrip (rev s)).

(** [s.strip()]. *)
Definition strip (s : str) : str := rstrip (lstrip s).

(** Truth value of a string: [not s] holds for the empty string only. *)
Definition truthy (s : str) : bool :=
  match s with [] => false | _ :: _ => true end.

(** [str.lower] on one character, on the part of Unicode where the result
    can be ASCII: the letters A-Z, and the Kelvin sign U+212A (whose
    lowercase is [k]). Every other character lowercases to something that
    contains a non-ASCII character, so leaving it alone does not change
    which ASCII-only dictionary keys the result is equal to. *)
Definition lower_char (c : N) : N :=
  (if (0x41 <=? c) && (c <=? 0x5A) then c + 0x20
   else if c =? 0x212A then 0x6B
   else c)%N.

Definition lower (s : str) : str := map lower_char s.

End Py.

Import Py.

Arguments lit : simpl never.
Arguments str_of_int : simpl never.

(** ** Exceptions *)

(** The exception classes the code distinguishes or that the modelled
    library calls raise ([FzErrorSystem] is [pymupdf.mupdf.FzErrorSystem],
    which MuPDF raises when the operating system fails it).
    [except json.JSONDecodeError] matches the first only;
    [except Exception] matches all of them. *)
Inductive exn_class :=
| JSONDecodeError
| UnicodeEncodeError
| ValueError
| IndexError
| ZeroDivisionError
| OverflowError
| OSError
| FzErrorSystem
| OtherException.

Record exn := Exn { exn_cls : exn_class; exn_msg : str }.

(** Outcome of a statement: a value, or a raised exception. *)
Inductive res (A : Type) :=
| Ok (a : A)
| Raise (e : exn).
Arguments Ok {A} a.
Arguments Raise {A} e.

(** ** UTF-8 and MD5 ([text.encode('utf-8')], [hashlib.md5]) *)

Module Utf8.

Local Open Scope N_scope.

Definition is_surrogate (c : N) : bool := (0xD800 <=? c) && (c <=? 0xDFFF).

(** The UTF-8 encoding of one code point; surrogates (and numbers that are
    not code points) cannot be encoded. *)
Definition encode_char (c : N) : option bytes :=
  if c <? 0x80 then Some [c]
  else if c <? 0x800 then Some [0xC0 + c / 0x40; 0x80 + c mod 0x40]
  else if c <? 0x10000 then
    if is_surrogate c then None
    else Some [0xE0 + c / 0x1000; 0x80 + (c / 0x40) mod 0x40; 0x80 + c mod 0x40]
  else if c <? 0x110000 then
    Some [0xF0 + c / 0x40000; 0x80 + (c / 0x1000) mod 0x40;
          0x80 + (c / 0x40) mod 0x40; 0x80 + c mod 0x40]
  else None.

Fixpoint encode_opt (s : str) : option bytes :=
  match s with
  | [] => Some []
  | c :: s' =>
      match encode_char c, encode_opt s' with
      | Some b, Some bs => Some (b ++ bs)
      | _, _ => None
      end
  end.

(** [s.encode('utf-8')]: raises [UnicodeEncodeError] on a lone surrogate. *)
Definition encode (s : str) : res bytes :=
  match encode_opt s with
  | Some b => Ok b
  | None => Raise (Exn UnicodeEncodeError (lit "surrogates not allowed"))
  end.

End Utf8.

Module MD5.

Local Open Scope N_scope.

Definition w32 (x : N) : N := x mod 0x100000000.

Definition not32 (x : N) : N := N.lxor (w32 x) 0xFFFFFFFF.

Definition rotl32 (x c : N) : N :=
  w32 (N.lor (N.shiftl x c) (N.shiftr (w32 x) (32 - c))).

(** Per-round shift amounts. *)
Definition shifts : list N :=
  [7; 12; 17; 22; 7; 12; 17; 22; 7; 12; 17; 22; 7; 12; 17; 22;
   5; 9; 14; 20; 5; 9; 14; 20; 5; 9; 14; 20; 5; 9; 14; 20;
   4; 11; 16; 23; 4; 11; 16; 23; 4; 11; 16; 23; 4; 11; 16; 23;
   6; 10; 15; 21; 6; 10; 15; 21; 6; 10; 15; 21; 6; 10; 15; 21].

(** The sine-derived constants. *)
Definition K : list N :=
  [0xd76aa478; 0xe8c7b756; 0x242070db; 0xc1bdceee;
   0xf57c0faf; 0x4787c62a; 0xa8304613; 0xfd469501;
   0x698098d8; 0x8b44f7af; 0xffff5bb1; 0x895cd7be;
   0x6b901122; 0xfd987193; 0xa679438e; 0x49b40821;
   0xf61e2562; 0xc040b340; 0x265e5a51; 0xe9b6c7aa;
   0xd62f105d; 0x02441453; 0xd8a1e681; 0xe7d3fbc8;
   0x21e1cde6; 0xc33707d6; 0xf4d50d87; 0x455a14ed;
   0xa9e3e905; 0xfcefa3f8; 0x676f02d9; 0x8d2a4c8a;
   0xfffa3942; 0x8771f681; 0x6d9d6122; 0xfde5380c;
   0xa4beea44; 0x4bdecfa9; 0xf6bb4b60; 0xbebfbc70;
   0x289b7ec6; 0xeaa127fa; 0xd4ef3085; 0x04881d05;
   0xd9d4d039; 0xe6db99e5; 0x1fa27cf8; 0xc4ac5665;
   0xf4292244; 0x432aff97; 0xab9423a7; 0xfc93a039;
   0x655b59c3; 0x8f0ccc92; 0xffeff47d; 0x85845dd1;
   0x6fa87e4f; 0xfe2ce6e0; 0xa3014314; 0x4e0811a1;
   0xf7537e82; 0xbd3af235; 0x2ad7d2bb; 0xeb86d391].

Definition state := (N * N * N * N)%type.

Definition init : state := (0x67452301, 0xefcdab89, 0x98badcfe, 0x10325476).

(** A little-endian word from four octets. *)
Definition word_of_bytes (b : bytes) : N :=
  match b with
  | [b0; b1; b2; b3] => b0 + 0x100 * b1 + 0x10000 * b2 + 0x1000000 * b3
  | _ => 0
  end.

(** The sixteen message words of a 64-octet block. *)
Fixpoint words (n : nat) (b : bytes) : list N :=
  match n with
  | O => []
  | S n' => word_of_bytes (firstn 4 b) :: words n' (skipn 4 b)
  end.

(** One of the 64 operations on the state. *)
Definition step (m : list N) (st : state) (i : nat) : state :=
  let '(a, b, c, d) := st in
  let i' := N.of_nat i in
  let '(f, g) :=
    if i' <? 16 then (N.lor (N.land b c) (N.land (not32 b) d), i')
    else if i' <? 32 then
      (N.lor (N.land d b) (N.land (not32 d) c), (5 * i' + 1) mod 16)
    else if i' <? 48 then (N.lxor (N.lxor b c) d, (3 * i' + 5) mod 16)
    else (N.lxor c (N.lor b (not32 d)), (7 * i') mod 16) in
  let f' := w32 (f + a + nth i K 0 + nth (N.to_nat g) m 0) in
  (d, w32 (b + rotl32 f' (nth i shifts 0)), b, c).

(** Processing one 64-octet block. *)
Definition compress (st : state) (block : bytes) : state :=
  let m := words 16 block in
  let '(a, b, c, d) := st in
  let '(a', b', c', d') := fold_left (step m) (seq 0 64) st in
  (w32 (a + a'), w32 (b + b'), w32 (c + c'), w32 (d + d')).

(** [n] as [k] little-endian octets. *)
Fixpoint le_bytes (k : nat) (n : N) : bytes :=
  match k with
  | O => []
  | S k' => n mod 0x100 :: le_bytes k' (n / 0x100)
  end.

(** The padded message: a 1 bit, zeros up to 56 modulo 64, then the bit
    length on 64 bits. *)
Definition pad (msg : bytes) : bytes :=
  let len := N.of_nat (length msg) in
  msg ++ [0x80] ++ repeat 0 (N.to_nat ((119 - len mod 64) mod 64))
      ++ le_bytes 8 ((8 * len) mod 0x10000000000000000).

Fixpoint blocks (n : nat) (st : state) (b : bytes) : state :=
  match n with
  | O => st
  | S n' => blocks n' (compress st (firstn 64 b)) (skipn 64 b)
  end.

Definition digest_state (msg : bytes) : state :=
  let p := pad msg in
  blocks (length p / 64)%nat init p.

Definition hex_digit (n : N) : N :=
  if n <? 10 then 0x30 + n else 0x61 + (n - 10).

Definition hex_byte (b : N) : str := [hex_digit (b / 16); hex_digit (b mod 16)].

Definition hex_word (w : N) : str :=
  hex_byte (w mod 0x100) ++ hex_byte ((w / 0x100) mod 0x100)
  ++ hex_byte ((w / 0x10000) mod 0x100) ++ hex_byte ((w / 0x1000000) mod 0x100).

(** [hashlib.md5(msg).hexdigest()]. *)
Definition hexdigest (msg : bytes) : str :=
  let '(a, b, c, d) := digest_state msg in
  hex_word a ++ hex_word b ++ hex_word c ++ hex_word d.

End MD5.

(** ** Documents, pages and the cache directory *)

(** A rectangle [(x0, y0, x1, y1)]. PyMuPDF has floating-point coordinates;
    nothing here computes with them, so they are integers in some fixed
    unit. *)
Definition rect := (Z * Z * Z * Z)%type.

(** An RGB colour, each component in tenths ([0.8] is [8]). *)
Definition color := (Z * Z * Z)%type.

(** One item of [page.get_text("blocks")]: [block[:4]] and [block[4]] (the
    block number and block type that follow are never read). *)
Record block := Block { blk_bbox : rect; blk_text : str }.

(** What the pipeline draws on a page. *)
Inductive draw_op :=
| DrawRect (r : rect) (fill : color)
| InsertHtmlbox (r : rect) (html : str) (css : str).

(** A page: what text extraction returned for it when it was loaded from
    its source ([get_text("text")] and [get_text("blocks")]), and what has
    been drawn over it since, oldest first. The code extracts text only
    from pages it has not yet drawn on. *)
Record page := Page {
  pg_text : str;
  pg_blocks : list block;
  pg_drawn : list draw_op
}.

Record document := Document {
  doc_metadata : gmap str value;
  doc_pages : list page
}.

(** A file of the cache directory, by what [pymupdf.open] makes of it:
    the document that it returns, or the message of the exception that it
    raises. Nothing else is read from a file, so a file is a [PdfFile]
    whenever [pymupdf.open] returns a document for it: the files that
    [doc.save] completed, and also the truncated or corrupt ones that
    MuPDF repairs on opening, as whatever document the repair yields. A
    file is [Damaged] only when [pymupdf.open] raises. *)
Inductive file :=
| PdfFile (d : document)
| Damaged (why : str).

(** ** Observable events *)

Inductive level := INFO | WARNING | ERROR.

(** The request sent to the chat-completion endpoint. *)
Record api_request := ApiRequest {
  req_api_key : str;
  req_base_url : option str;
  req_model : str;
  req_prompt : str
}.

Inductive event :=
| Log (l : level) (msg : str)           (* logging.info / warning / error *)
| UiProgressBar                         (* st.progress(0) *)
| UiPlaceholder                         (* st.empty() *)
| UiStatus (msg : str)                  (* status_text.text(...) *)
| UiProgress (done total : Z)           (* progress_bar.progress(done / total) *)
| UiProgressClear                       (* progress_bar.empty() *)
| UiInfo (msg : str)                    (* st.info(...) *)
| Mkdir                                 (* Path('.cached').mkdir(exist_ok=True) *)
| Submit (text : str)                   (* translator.translate(text) is called *)
| ApiCall (req : api_request)           (* client.chat.completions.create(...) *)
| Sleep (secs : Z)                      (* time.sleep(secs) *)
| Draw (doc : nat) (op : draw_op)       (* page.draw_rect / page.insert_htmlbox *)
| FileOpen (name : str)                 (* pymupdf.open(path) *)
| FileSave (name : str) (doc : nat).    (* doc.save(path) *)

(** ** The world and the external collaborators *)

(** How a [doc.save(path)] ends: the file is written, or the call raises.
    The save writes to the final path directly, so a call that raises may
    leave the path as it was ([None]) or leave there what it had written
    so far: a partial file, which is whatever [pymupdf.open] makes of it
    afterwards, a document that it repairs and returns ([PdfFile]) or
    content that it rejects ([Damaged]). *)
Inductive save_outcome :=
| Saved
| SaveFailed (e : exn) (left_behind : option file).

(** The collaborators the code consumes as capabilities. Each answer may
    depend on everything observable that happened before (the trace). *)
Record Env := {
  (** how the body of [ChatGptTranslator.translate] ends:
      [client.chat.completions.create(...).choices[0].message.content], or
      the exception raised on the way *)
  chat_completion : list event -> api_request -> res value;
  (** [page.draw_rect], [page.insert_htmlbox]: [None] when it succeeds *)
  page_draw : list event -> draw_op -> option exn;
  (** [doc.save(path)] into the cache directory *)
  file_save : list event -> str -> save_outcome
}.

Record world := World {
  heap : list document;      (* the live document objects, by identity *)
  fs : gmap str file;        (* the files of the cache directory, by name *)
  trace : list event         (* what happened so far, oldest first *)
}.

(** ** The monad of effectful statements *)

Definition M (A : Type) : Type := world -> res A * world.

Definition ret {A} (a : A) : M A := fun w => (Ok a, w).

Definition raise {A} (e : exn) : M A := fun w => (Raise e, w).

Definition bind {A B} (c : M A) (k : A -> M B) : M B :=
  fun w =>
    match c w with
    | (Ok a, w') => k a w'
    | (Raise e, w') => (Raise e, w')
    end.

(** [try: c  except <matching h>: h e]; [h e = None] when no clause of the
    statement matches [e], which then propagates. *)
Definition try_except {A} (c : M A) (h : exn -> option (M A)) : M A :=
  fun w =>
    match c w with
    | (Ok a, w') => (Ok a, w')
    | (Raise e, w') =>
        match h e with
        | Some k => k w'
        | None => (Raise e, w')
        end
    end.

Definition lift {A} (r : res A) : M A := fun w => (r, w).

Declare Scope py_scope.
Delimit Scope py_scope with py.
Notation "x <- c ;; k" := (bind c (fun x => k))
  (at level 100, c at next level, right associativity) : py_scope.
Notation "c ;; k" := (bind c (fun _ => k))
  (at level 100, right associativity) : py_scope.
Local Open Scope py_scope.

Definition emit (e : event) : M unit :=
  fun w => (Ok tt, World (heap w) (fs w) (trace w ++ [e])).

Definition logging (l : level) (msg : str) : M unit := emit (Log l msg).

(** [range(a, b)]. *)
Definition py_range (a b : Z) : list Z :=
  map (fun i => a + Z.of_nat i) (seq 0 (Z.to_nat (b - a))).

(** ** The cache key ([get_cache_key]) *)

(** [d.get(k, default)]. *)
Definition dict_get (d : gmap str value) (k : str) (default : value) : value :=
  match d !! k with
  | Some v => v
  | None => default
  end.

(** [hashlib.md5(s.encode('utf-8')).hexdigest()[:8]]. *)
Definition md5_hex8 (s : str) : res str :=
  match Utf8.encode s with
  | Ok b => Ok (take 8 (MD5.hexdigest b))
  | Raise e => Raise e
  end.

Definition get_cache_key (doc_info : gmap str value) (page_num : Z)
    (translator_name target_lang text_content : str) : res str :=
  match md5_hex8 text_content with
  | Raise e => Raise e
  | Ok content_hash =>
      let doc_id :=
        to_str (dict_get doc_info (lit "title") (VStr []))
        ++ lit "_" ++ to_str (dict_get doc_info (lit "author") (VStr []))
        ++ lit "_" ++ to_str (dict_get doc_info (lit "pagecount") (VStr [])) in
      match md5_hex8 doc_id with
      | Raise e => Raise e
      | Ok doc_hash =>
          Ok (doc_hash ++ lit "_" ++ content_hash ++ lit "_page"
              ++ str_of_int page_num ++ lit "_" ++ translator_name
              ++ lit "_" ++ target_lang ++ lit ".pdf")
      end
  end.

(** ** The cache directory ([get_cache_dir], [get_cached_translation],
       [save_translation_cache]) *)

Definition get_cache_dir : M unit := emit Mkdir.

(** [cache_path.exists()]. *)
Definition path_exists (name : str) : M bool :=
  fun w => (Ok (bool_decide (is_Some (fs w !! name))), w).

(** [pymupdf.open(path)]: a new document object with the content of the
    file, or the library's exception. *)
Definition pymupdf_open_path (name : str) : M nat :=
  fun w =>
    let tr := trace w ++ [FileOpen name] in
    match fs w !! name with
    | Some (PdfFile d) => (Ok (length (heap w)), World (heap w ++ [d]) (fs w) tr)
    | Some (Damaged why) => (Raise (Exn OtherException why), World (heap w) (fs w) tr)
    | None => (Raise (Exn OSError (lit "no such file")), World (heap w) (fs w) tr)
    end.

(** [pymupdf.open()]: a new empty document object. *)
Definition pymupdf_open_new : M nat :=
  fun w => (Ok (length (heap w)),
            World (heap w ++ [Document ∅ []]) (fs w) (trace w)).

(** Reading a live document object. *)
Definition deref (doc : nat) : M document :=
  fun w =>
    match heap w !! doc with
    | Some d => (Ok d, w)
    | None => (Raise (Exn ValueError (lit "document closed")), w)
    end.

Definition get_cached_translation (cache_key : str) : M (option nat) :=
  get_cache_dir ;;
  present <- path_exists cache_key ;;
  if present then
    try_except (d <- pymupdf_open_path cache_key ;; ret (Some d))
      (fun e => Some (logging ERROR (lit "Error loading cache: " ++ exn_msg e) ;;
                      ret None))
  else ret None.

(** [doc.save(path)] into the cache directory. *)
Definition doc_save (E : Env) (doc : nat) (name : str) : M unit :=
  d <- deref doc ;;
  fun w =>
    let tr := trace w ++ [FileSave name doc] in
    match file_save E (trace w) name with
    | Saved => (Ok tt, World (heap w) (<[name := PdfFile d]> (fs w)) tr)
    | SaveFailed e None => (Raise e, World (heap w) (fs w) tr)
    | SaveFailed e (Some partial) =>
        (Raise e, World (heap w) (<[name := partial]> (fs w)) tr)
    end.

Definition save_translation_cache (E : Env) (doc : nat) (cache_key : str) : M unit :=
  get_cache_dir ;;
  doc_save E doc cache_key.

(** ** The translators *)

Definition truthy_opt (o : option str) : bool :=
  match o with
  | Some s => truthy s
  | None => false
  end.

(** [ChatGptTranslator]. The base class [BaseTranslator] is not part of the
    sources; what the code reads from it, [_source] and [_target] (which
    the property [target] returns), are fields here. *)
Record ChatGptTranslator := {
  _source : str;
  _target : str;
  api_key : option str;
  model : option str;
  base_url : option str
}.

(** [ChatGptTranslator.__init__]; [source] and [target] are stored as the
    base class leaves them. *)
Definition ChatGptTranslator_init (source target : str)
    (api_key model base_url : option str) : ChatGptTranslator :=
  {| _source := source; _target := target;
     api_key := if truthy_opt api_key then api_key else None;
     model := model;
     base_url := base_url |}.

Definition newline : str := [10%N].
Definition dquote : str := [34%N].

(** The request that [ChatGptTranslator.translate] builds: the client
    arguments, the model and the prompt. *)
Definition chat_request (self : ChatGptTranslator) (text : str) : api_request :=
  let key :=
    match api_key self with
    | Some k => if truthy k then k else lit "local-model"
    | None => lit "local-model"
    end in
  let url := if truthy_opt (base_url self) then base_url self else None in
  let prompt :=
    lit "Translate the text below into " ++ _target self
    ++ lit ". Do not give explanations. Just the translation. No introductory text before."
    ++ newline ++ lit "Text: " ++ dquote ++ text ++ dquote in
  let mdl :=
    match model self with
    | Some m => if truthy m then m else lit "default_model"
    | None => lit "default_model"
    end in
  ApiRequest key url mdl prompt.

(** [ChatGptTranslator.translate]: one call of the chat-completion
    endpoint, whose answer or exception is the result. *)
Definition ChatGptTranslator_translate (E : Env) (self : ChatGptTranslator)
    (text : str) : M value :=
  fun w => (chat_completion E (trace w) (chat_request self text),
            World (heap w) (fs w) (trace w ++ [ApiCall (chat_request self text)])).

(** [OpenAICompatibleTranslator]: the base object and the retry settings. *)
Record OpenAICompatibleTranslator := {
  super : ChatGptTranslator;
  retry_count : Z;
  retry_delay : Z
}.

Definition OpenAICompatibleTranslator_init (source target : str)
    (api_key model base_url : option str) : OpenAICompatibleTranslator :=
  {| super := ChatGptTranslator_init source target api_key model base_url;
     retry_count := 3;
     retry_delay := 1 |}.

Definition time_sleep (secs : Z) : M unit := emit (Sleep secs).

Definition is_JSONDecodeError (e : exn) : bool :=
  match exn_cls e with
  | JSONDecodeError => true
  | _ => false
  end.

(** The [for attempt in range(self.retry_count)] loop, over the attempt
    numbers still to come. Falling out of the loop returns [None]. *)
Fixpoint retry_loop (E : Env) (self : OpenAICompatibleTranslator) (text : str)
    (attempts : list Z) : M value :=
  match attempts with
  | [] => ret VNone
  | attempt :: rest =>
      try_except (ChatGptTranslator_translate E (super self) text)
        (fun e => Some (
          if is_JSONDecodeError e then
            logging WARNING
              (lit "Translation API response JSONDecodeError, attempt "
               ++ str_of_int (attempt + 1) ++ lit "/"
               ++ str_of_int (retry_count self)) ;;
            if attempt =? retry_count self - 1 then
              logging ERROR
                (lit "Translation API response error after "
                 ++ str_of_int (retry_count self)
                 ++ lit " attempts, using original text") ;;
              ret (VStr text)
            else
              time_sleep (retry_delay self) ;;
              retry_loop E self text rest
          else
            logging ERROR
              (lit "Translation error on attempt " ++ str_of_int (attempt + 1)
               ++ lit ": " ++ exn_msg e) ;;
            if attempt =? retry_count self - 1 then
              logging ERROR
                (lit "Translation failed after "
                 ++ str_of_int (retry_count self)
                 ++ lit " attempts, using original text") ;;
              ret (VStr text)
            else
              time_sleep (retry_delay self) ;;
              retry_loop E self text rest))
  end.

(** [OpenAICompatibleTranslator.translate]. *)
Definition OpenAICompatibleTranslator_translate (E : Env)
    (self : OpenAICompatibleTranslator) (text : str) : M value :=
  if negb (truthy (strip text)) then ret (VStr text)
  else
    let model_type :=
      if negb (truthy_opt (api_key (super self))) then lit "local"
      else lit "remote" in
    logging INFO
      (lit "Using " ++ model_type ++ lit " model with base_url: "
       ++ to_str (match base_url (super self) with
                  | Some u => VStr u
                  | None => VNone
                  end)) ;;
    retry_loop E self text (py_range 0 (retry_count self)).

(** What [translate_pdf_pages] uses of its [translator] argument. *)
Record translator := {
  tr_source : str;                  (* translator._source *)
  tr_target : str;                  (* translator._target *)
  tr_class_name : str;              (* translator.__class__.__name__ *)
  tr_translate : str -> M value     (* translator.translate *)
}.

Definition translator_of_ChatGpt (E : Env) (t : ChatGptTranslator) : translator :=
  {| tr_source := _source t; tr_target := _target t;
     tr_class_name := lit "ChatGptTranslator";
     tr_translate := ChatGptTranslator_translate E t |}.

Definition translator_of_OpenAICompatible (E : Env)
    (t : OpenAICompatibleTranslator) : translator :=
  {| tr_source := _source (super t); tr_target := _target (super t);
     tr_class_name := lit "OpenAICompatibleTranslator";
     tr_translate := OpenAICompatibleTranslator_translate E t |}.

(** ** The page pipeline ([translate_pdf_pages]) *)

Definition COLOR_MAP : gmap str color :=
  list_to_map [(lit "darkred", (8, 0, 0)); (lit "black", (0, 0, 0));
               (lit "blue", (0, 0, 8)); (lit "darkgreen", (0, 5, 0));
               (lit "purple", (5, 0, 5))].

(** [pymupdf.pdfcolor["white"]]. *)
Definition WHITE : color := (10, 10, 10).

(** [int(c * 255)] for a component in tenths. The floating-point products
    [0.8 * 255] and [0.5 * 255] truncate to the same integers. *)
Definition int_times_255 (c : Z) : Z := Z.quot (c * 255) 10.

(** The [css] argument of [insert_htmlbox]. *)
Definition css_of (rgb_color : color) : str :=
  let '(r, g, b) := rgb_color in
  lit "* {font-family: sans-serif; color: rgb(" ++ str_of_int (int_times_255 r)
  ++ lit ", " ++ str_of_int (int_times_255 g)
  ++ lit ", " ++ str_of_int (int_times_255 b) ++ lit ");}".

(** [doc.page_count]. *)
Definition page_count (doc : nat) : M Z :=
  d <- deref doc ;;
  ret (Z.of_nat (length (doc_pages d))).

(** A loaded page: the document object it belongs to and its position. *)
Definition page_handle := (nat * nat)%type.

(** [doc[page_num]]. A number at or beyond the page count raises; a
    negative one counts from the end, as PyMuPDF does. *)
Definition doc_getitem (doc : nat) (page_num : Z) : M page_handle :=
  d <- deref doc ;;
  let n := Z.of_nat (length (doc_pages d)) in
  if (page_num <? n) && (0 <? n) then ret (doc, Z.to_nat (page_num mod n))
  else raise (Exn IndexError
                (lit "page " ++ str_of_int page_num ++ lit " not in document")).

Definition load (pg : page_handle) : M page :=
  d <- deref (fst pg) ;;
  match doc_pages d !! snd pg with
  | Some p => ret p
  | None => raise (Exn ValueError (lit "page not in document"))
  end.

(** [page.get_text("text")]. *)
Definition get_text_text (pg : page_handle) : M str :=
  p <- load pg ;; ret (pg_text p).

(** [page.get_text("blocks", flags=pymupdf.TEXT_DEHYPHENATE)]. *)
Definition get_text_blocks (pg : page_handle) : M (list block) :=
  p <- load pg ;; ret (pg_blocks p).

(** The pages that [insert_pdf] copies: page numbers are clamped to the
    source, and a negative [to_page] means the last page. *)
Definition copied_pages (src : list page) (from_page to_page : Z) : list page :=
  let n := Z.of_nat (length src) in
  let fp := Z.min (Z.max from_page 0) (n - 1) in
  let tp := if to_page <? 0 then n - 1 else Z.min to_page (n - 1) in
  take (Z.to_nat (tp - fp + 1)) (drop (Z.to_nat fp) src).

(** [new_doc.insert_pdf(doc, from_page=..., to_page=...)]: the copies are
    appended to [new_doc]; [doc] is only read. *)
Definition insert_pdf (new_doc doc : nat) (from_page to_page : Z) : M unit :=
  src <- deref doc ;;
  dst <- deref new_doc ;;
  fun w =>
    (Ok tt,
     World (<[new_doc := Document (doc_metadata dst)
                           (doc_pages dst ++ copied_pages (doc_pages src) from_page to_page)]>
              (heap w))
           (fs w) (trace w)).

Definition draw_on (op : draw_op) (p : page) : page :=
  Page (pg_text p) (pg_blocks p) (pg_drawn p ++ [op]).

(** [page.draw_rect(...)] and [page.insert_htmlbox(...)]: the call is
    observed; when the library accepts it the page of that document object
    changes, otherwise the library's exception is raised. *)
Definition draw (E : Env) (pg : page_handle) (op : draw_op) : M unit :=
  p <- load pg ;;
  d <- deref (fst pg) ;;
  fun w =>
    let tr := trace w ++ [Draw (fst pg) op] in
    match page_draw E (trace w) op with
    | Some e => (Raise e, World (heap w) (fs w) tr)
    | None =>
        (Ok tt,
         World (<[fst pg := Document (doc_metadata d)
                              (<[snd pg := draw_on op p]> (doc_pages d))]>
                  (heap w))
               (fs w) tr)
    end.

(** [translator.translate(text)] as the pipeline calls it. *)
Definition submit (tr : translator) (text : str) : M value :=
  emit (Submit text) ;;
  tr_translate tr text.

(** The [for block in blocks] loop. *)
Fixpoint translate_blocks (E : Env) (tr : translator) (pg : page_handle)
    (rgb_color : color) (blocks : list block) : M unit :=
  match blocks with
  | [] => ret tt
  | block :: rest =>
      let bbox := blk_bbox block in
      let text := blk_text block in
      translated <- submit tr text ;;
      let translated := to_str translated in
      draw E pg (DrawRect bbox WHITE) ;;
      draw E pg (InsertHtmlbox bbox translated (css_of rgb_color)) ;;
      translate_blocks E tr pg rgb_color rest
  end.

(** [enumerate(l)]. *)
Definition enumerate {A} (l : list A) : list (Z * A) :=
  imap (fun i x => (Z.of_nat i, x)) l.

(** The [else] branch of the loop body (cache miss): returns [new_doc]. *)
Definition translate_page_miss (E : Env) (doc : nat) (page_num : Z)
    (tr : translator) (rgb_color : color) (cache_key : str) : M nat :=
  logging INFO (lit "Cache miss: Translating page " ++ str_of_int (page_num + 1)) ;;
  emit (UiStatus (lit "Translating page " ++ str_of_int (page_num + 1)
                  ++ lit " (not in cache)")) ;;
  new_doc <- pymupdf_open_new ;;
  insert_pdf new_doc doc page_num page_num ;;
  page <- doc_getitem new_doc 0 ;;
  blocks <- get_text_blocks page ;;
  translate_blocks E tr page rgb_color blocks ;;
  save_translation_cache E new_doc cache_key ;;
  ret new_doc.

(** One iteration of the page loop: returns the document appended to
    [translated_pages] and whether the cache was hit. *)
Definition translate_page (E : Env) (doc : nat) (total_pages : Z)
    (tr : translator) (rgb_color : color) (translator_name target_lang : str)
    (i page_num : Z) : M (nat * bool) :=
  emit (UiStatus (lit "Translating page " ++ str_of_int (page_num + 1) ++ lit "...")) ;;
  page <- doc_getitem doc page_num ;;
  text_content <- get_text_text page ;;
  d <- deref doc ;;
  cache_key <- lift (get_cache_key (doc_metadata d) page_num translator_name
                       target_lang text_content) ;;
  cached_doc <- get_cached_translation cache_key ;;
  r <- match cached_doc with
       | Some cached =>
           logging INFO (lit "Cache hit: Using cached translation for page "
                         ++ str_of_int (page_num + 1)) ;;
           emit (UiStatus (lit "Using cached translation for page "
                           ++ str_of_int (page_num + 1))) ;;
           ret (cached, true)
       | None =>
           new_doc <- translate_page_miss E doc page_num tr rgb_color cache_key ;;
           logging INFO (lit "Cached new translation for page "
                         ++ str_of_int (page_num + 1)) ;;
           ret (new_doc, false)
       end ;;
  (if total_pages =? 0
   then raise (Exn ZeroDivisionError (lit "division by zero"))
   else emit (UiProgress (i + 1) total_pages)) ;;
  ret r.

(** The [for i, page_num in enumerate(range(...))] loop, threading
    [translated_pages] and [cache_hits]. *)
Fixpoint page_loop (E : Env) (doc : nat) (total_pages : Z) (tr : translator)
    (rgb_color : color) (translator_name target_lang : str)
    (items : list (Z * Z)) (translated_pages : list nat) (cache_hits : Z)
    : M (list nat * Z) :=
  match items with
  | [] => ret (translated_pages, cache_hits)
  | (i, page_num) :: rest =>
      r <- translate_page E doc total_pages tr rgb_color translator_name
             target_lang i page_num ;;
      page_loop E doc total_pages tr rgb_color translator_name target_lang rest
        (translated_pages ++ [fst r])
        (if snd r then cache_hits + 1 else cache_hits)
  end.

Definition translate_pdf_pages (E : Env) (doc : nat) (doc_bytes : option bytes)
    (start_page num_pages : Z) (tr : translator) (text_color : str)
    (translator_name target_lang : str) : M (list nat) :=
  logging INFO (lit "Using translator: " ++ translator_name ++ lit ", source: "
                ++ tr_source tr ++ lit ", target: " ++ tr_target tr) ;;
  logging INFO (lit "Selected translator: " ++ translator_name ++ lit ", Class: "
                ++ tr_class_name tr) ;;
  let rgb_color :=
    match COLOR_MAP !! lower text_color with
    | Some c => c
    | None => (8, 0, 0)
    end in
  n <- page_count doc ;;
  let total_pages := Z.min (start_page + num_pages) n - start_page in
  emit UiProgressBar ;;
  emit UiPlaceholder ;;
  n' <- page_count doc ;;
  r <- page_loop E doc total_pages tr rgb_color translator_name target_lang
         (enumerate (py_range start_page (Z.min (start_page + num_pages) n')))
         [] 0 ;;
  emit UiProgressClear ;;
  (if 0 <? snd r
   then emit (UiInfo (lit "Used cache for " ++ str_of_int (snd r) ++ lit " out of "
                      ++ str_of_int total_pages ++ lit " pages"))
   else ret tt) ;;
  ret (fst r).

(** ** Notions used to state the properties *)

(** The identity string of a document, in the spec's words: title, author
    and page count, joined (the code joins them with underscores). *)
Definition doc_identity (doc_info : gmap str value) : str :=
  to_str (dict_get doc_info (lit "title") (VStr []))
  ++ lit "_" ++ to_str (dict_get doc_info (lit "author") (VStr []))
  ++ lit "_" ++ to_str (dict_get doc_info (lit "pagecount") (VStr [])).

(** The artifact name, in the spec's words:
    [{doc_hash}_{text_hash}_page{N}_{translator_name}_{target_lang}.pdf]. *)
Definition key_format (doc_hash text_hash : str) (page_num : Z)
    (translator_name target_lang : str) : str :=
  doc_hash ++ lit "_" ++ text_hash ++ lit "_page" ++ str_of_int page_num
  ++ lit "_" ++ translator_name ++ lit "_" ++ target_lang ++ lit ".pdf".

(** A lowercase hexadecimal digit, [0-9a-f]. *)
Definition is_hex (c : N) : bool :=
  ((0x30 <=? c) && (c <=? 0x39) || (0x61 <=? c) && (c <=? 0x66))%N.


(** The events by which the retrying translator is observed from outside:
    calls of the endpoint and pauses. *)
Definition is_attempt_or_delay (e : event) : bool :=
  match e with
  | ApiCall _ | Sleep _ => true
  | _ => false
  end.

(** [n] attempts with a pause between consecutive ones. *)
Fixpoint attempts_with_delays (req : api_request) (delay : Z) (n : nat) : list event :=
  match n with
  | O => []
  | S O => [ApiCall req]
  | S n' => ApiCall req :: Sleep delay :: attempts_with_delays req delay n'
  end.

(** What a translator may do to the world: it has no access to the
    documents or to the cache directory, and is observed only through log
    lines, calls of the endpoint and pauses. *)
Definition is_translator_event (e : event) : bool :=
  match e with
  | Log _ _ | ApiCall _ | Sleep _ => true
  | _ => false
  end.

Definition translator_ok (tr : translator) : Prop :=
  forall text w r w',
    tr_translate tr text w = (r, w') ->
    heap w' = heap w /\ fs w' = fs w
    /\ exists evs, trace w' = trace w ++ evs
                   /\ Forall (fun e => is_translator_event e = true) evs.

(** A translator that answers every text (it may still fall back to the
    text itself, as the retrying translator does). *)
Definition translator_total (tr : translator) : Prop :=
  forall text w, exists v w', tr_translate tr text w = (Ok v, w').

(** The events of the page pipeline proper: submissions to the translator
    and drawing on a page. *)
Definition is_pipeline_event (e : event) : bool :=
  match e with
  | Submit _ | Draw _ _ => true
  | _ => false
  end.

(** The pipeline events of one block whose translation came back as [t]. *)
Definition block_events (doc : nat) (css : str) (bt : block * str) : list event :=
  [Submit (blk_text (fst bt));
   Draw doc (DrawRect (blk_bbox (fst bt)) WHITE);
   Draw doc (InsertHtmlbox (blk_bbox (fst bt)) (snd bt) css)].

(** The drawing operations of one block whose translation came back as [t]. *)
Definition block_ops (css : str) (bt : block * str) : list draw_op :=
  [DrawRect (blk_bbox (fst bt)) WHITE;
   InsertHtmlbox (blk_bbox (fst bt)) (snd bt) css].

(** The rectangle a drawing operation works on. *)
Definition op_rect (op : draw_op) : rect :=
  match op with
  | DrawRect r _ => r
  | InsertHtmlbox r _ _ => r
  end.

Definition is_submit (e : event) : bool :=
  match e with
  | Submit _ => true
  | _ => false
  end.

Definition is_draw (e : event) : bool :=
  match e with
  | Draw _ _ => true
  | _ => false
  end.

(** A world in which document object [id] is the single page [p] with
    [ops] drawn over it, everything else being as in [w], after the events
    [evs]. *)
Definition drawn_world (w : world) (id : nat) (md : gmap str value) (p : page)
    (ops : list draw_op) (evs : list event) : world :=
  World (<[id := Document md [Page (pg_text p) (pg_blocks p) (pg_drawn p ++ ops)]]>
           (heap w))
        (fs w) (trace w ++ evs).

(** The events of a page served from the cache. *)
Definition hit_events (key : str) (i page_num total_pages : Z) : list event :=
  [UiStatus (lit "Translating page " ++ str_of_int (page_num + 1) ++ lit "...");
   Mkdir; FileOpen key;
   Log INFO (lit "Cache hit: Using cached translation for page "
             ++ str_of_int (page_num + 1));
   UiStatus (lit "Using cached translation for page " ++ str_of_int (page_num + 1));
   UiProgress (i + 1) total_pages].

(** Every PDF of the cache directory stays what it is. *)
Definition pdf_stable (fs fs' : gmap str file) : Prop :=
  forall k x, fs !! k = Some (PdfFile x) -> fs' !! k = Some (PdfFile x).

(** Every PDF of the cache directory has one page, as those that
    [save_translation_cache] writes do. *)
Definition cache_single_page (fs : gmap str file) : Prop :=
  forall k x, fs !! k = Some (PdfFile x) -> length (doc_pages x) = 1%nat.

(** The key of the page at [page_num] of a document. *)
Definition page_key (d : document) (translator_name target_lang : str)
    (page_num : Z) : option str :=
  match doc_pages d !! Z.to_nat page_num with
  | Some p =>
      match get_cache_key (doc_metadata d) page_num translator_name target_lang
              (pg_text p) with
      | Ok k => Some k
      | Raise _ => None
      end
  | None => None
  end.

(** The events that translating a page produces and serving it from the
    cache does not. *)
Definition is_translation_work (e : event) : bool :=
  match e with
  | Submit _ | ApiCall _ | Sleep _ | Draw _ _ | FileSave _ _ => true
  | _ => false
  end.

(** The page numbers of the loop are pages of the document. *)
Definition in_range (d : document) (item : Z * Z) : Prop :=
  0 <= snd item < Z.of_nat (length (doc_pages d)).

(** The page of the loop has a key (its text encodes). *)
Definition has_key (d : document) (translator_name target_lang : str)
    (item : Z * Z) : Prop :=
  is_Some (page_key d translator_name target_lang (snd item)).

(** The colour [translate_pdf_pages] draws the translation in. *)
Definition color_of (text_color : str) : color :=
  match COLOR_MAP !! lower text_color with
  | Some c => c
  | None => (8, 0, 0)
  end.

(** What [translate_pdf_pages] reports before the first page. *)
Definition start_events (tr : translator) (translator_name : str) : list event :=
  [Log INFO (lit "Using translator: " ++ translator_name ++ lit ", source: "
             ++ tr_source tr ++ lit ", target: " ++ tr_target tr);
   Log INFO (lit "Selected translator: " ++ translator_name ++ lit ", Class: "
             ++ tr_class_name tr);
   UiProgressBar; UiPlaceholder].

(** What [translate_pdf_pages] reports after the last page. *)
Definition end_events (cache_hits total_pages : Z) : list event :=
  UiProgressClear ::
  (if 0 <? cache_hits
   then [UiInfo (lit "Used cache for " ++ str_of_int cache_hits ++ lit " out of "
                 ++ str_of_int total_pages ++ lit " pages")]
   else []).

(** The number of pages of the range that exist, as the spec gives it. *)
Definition expected_count (page_count start_page count : Z) : nat :=
  Z.to_nat (Z.max 0 (Z.min count (page_count - start_page))).

Definition is_api_call (e : event) : bool :=
  match e with
  | ApiCall _ => true
  | _ => false
  end.

(** In a trace, every submission to the translator comes before every
    drawing operation. *)
Fixpoint submits_precede_draws (evs : list event) : bool :=
  match evs with
  | [] => true
  | e :: rest =>
      if is_draw e then forallb (fun e' => negb (is_submit e')) rest
      else submits_precede_draws rest
  end.

(** *** The block loop, block by block *)

(** A page with further drawing operations over it. *)
Definition drawn_page (p : page) (ops : list draw_op) : page :=
  Page (pg_text p) (pg_blocks p) (pg_drawn p ++ ops).

(** [page.draw_rect(bbox, color=None, fill=WHITE)] for a block. *)
Definition erase_op (b : block) : draw_op := DrawRect (blk_bbox b) WHITE.

(** [page.insert_htmlbox(bbox, translated, css=...)] for a block, where
    [translated] is [str(v)] for the value [v] that the translator
    returned. *)
Definition render_op (css : str) (b : block) (v : value) : draw_op :=
  InsertHtmlbox (blk_bbox b) (to_str v) css.

(** The pipeline calls [translator.translate(text)] in world [w]: the call
    is observed, the translator does [tevs] and ends with [r] (the value
    it returns or the exception it raises), leaving the documents and the
    cache directory as they are. *)
Definition answers (tr : translator) (text : str) (w : world)
    (r : res value) (tevs : list event) : Prop :=
  tr_translate tr text (World (heap w) (fs w) (trace w ++ [Submit text]))
  = (r, World (heap w) (fs w) (trace w ++ Submit text :: tevs)).

(** One block that the block loop got through: the block, the value that
    the translator returned for its text, and what the translator did
    before it returned. *)
Record block_run := BlockRun {
  br_block : block;
  br_answer : value;
  br_events : list event
}.

(** What is drawn for a block that the loop got through: its rectangle is
    erased, then the translator's answer is rendered into it. *)
Definition br_ops (css : str) (r : block_run) : list draw_op :=
  [erase_op (br_block r); render_op css (br_block r) (br_answer r)].

(** The events of a block that the loop got through, in the order in which
    they happen: the submission, the translator at work, the erasing, the
    rendering. *)
Definition br_trace (id : nat) (css : str) (r : block_run) : list event :=
  Submit (blk_text (br_block r))
  :: br_events r
  ++ [Draw id (erase_op (br_block r));
      Draw id (render_op css (br_block r) (br_answer r))].

(** The block loop gets through the blocks of [runs] one after the other,
    starting in world [w], where document object [id] has metadata [md]
    and the single page [p]. For each block: the translator is called
    with the text of the block and returns [br_answer]; after it has
    returned, the library accepts the erasing of the rectangle; after
    that, it accepts the rendering of [str(br_answer)] into the rectangle;
    and only in the world so reached is the next block taken up. *)
Fixpoint handled_in_turn (E : Env) (tr : translator) (id : nat)
    (md : gmap str value) (css : str) (p : page) (w : world)
    (runs : list block_run) : Prop :=
  match runs with
  | [] => True
  | r :: rest =>
      let b := br_block r in
      let h := trace w ++ Submit (blk_text b) :: br_events r in
      answers tr (blk_text b) w (Ok (br_answer r)) (br_events r)
      /\ page_draw E h (erase_op b) = None
      /\ page_draw E (h ++ [Draw id (erase_op b)]) (render_op css b (br_answer r))
         = None
      /\ handled_in_turn E tr id md css (drawn_page p (br_ops css r))
           (drawn_world w id md p (br_ops css r) (br_trace id css r)) rest
  end.

(** The world after the loop got through [runs]: their drawing operations
    are on the page, their events in the trace, and nothing else has
    changed. *)
Definition after_runs (w : world) (id : nat) (md : gmap str value) (css : str)
    (p : page) (runs : list block_run) : world :=
  drawn_world w id md p (flat_map (br_ops css) runs) (flat_map (br_trace id css) runs).

(** The two ways in which drawing a translated block can fail. *)
Inductive draw_failure :=
| EraseRefused     (* [draw_rect] raises *)
| RenderRefused.   (* [draw_rect] returns, [insert_htmlbox] raises *)

(** After history [h], which ends with the translator returning [v] for
    block [b], the library refuses to draw the block, raising [e]. *)
Definition refuses (E : Env) (id : nat) (css : str) (h : list event) (b : block)
    (v : value) (failure : draw_failure) (e : exn) : Prop :=
  match failure with
  | EraseRefused => page_draw E h (erase_op b) = Some e
  | RenderRefused =>
      page_draw E h (erase_op b) = None
      /\ page_draw E (h ++ [Draw id (erase_op b)]) (render_op css b v) = Some e
  end.

(** What has been drawn for the block when drawing it fails. *)
Definition accepted_ops (failure : draw_failure) (b : block) : list draw_op :=
  match failure with
  | EraseRefused => []
  | RenderRefused => [erase_op b]
  end.

(** The calls of the library for the block when drawing it fails, the one
    that raises being the last. *)
Definition attempted_ops (css : str) (b : block) (v : value)
    (failure : draw_failure) : list draw_op :=
  match failure with
  | EraseRefused => [erase_op b]
  | RenderRefused => [erase_op b; render_op css b v]
  end.

(** The block loop stops at block [b] with exception [e], in world [w]
    (document object [id] having the single page [p]), and leaves world
    [w']: the translator raises [e]; or it returns and the library refuses
    to erase or to render the block. Nothing happens after the call that
    raises. *)
Definition stops_at (E : Env) (tr : translator) (id : nat) (md : gmap str value)
    (css : str) (p : page) (w : world) (b : block) (e : exn) (w' : world) : Prop :=
  (exists tevs,
     answers tr (blk_text b) w (Raise e) tevs
     /\ w' = World (heap w) (fs w) (trace w ++ Submit (blk_text b) :: tevs))
  \/ (exists v tevs failure,
        answers tr (blk_text b) w (Ok v) tevs
        /\ refuses E id css (trace w ++ Submit (blk_text b) :: tevs) b v failure e
        /\ w' = drawn_world w id md p (accepted_ops failure b)
                  (Submit (blk_text b) :: tevs
                   ++ map (Draw id) (attempted_ops css b v failure))).

(** *** A page that is not served from the cache *)

(** What [pymupdf.open] says about the file under a key that names no
    PDF: the message of its exception when there is a file, which it
    rejects; nothing when there is no file. *)
Definition rejected (fs : gmap str file) (key : str) : option str :=
  match fs !! key with
  | Some (Damaged why) => Some why
  | _ => None
  end.

(** What [get_cached_translation] does for a key that names no PDF. *)
Definition absent_events (key : str) (why : option str) : list event :=
  Mkdir ::
  match why with
  | Some msg => [FileOpen key; Log ERROR (lit "Error loading cache: " ++ msg)]
  | None => []
  end.

(** What happens for a page that is not served from the cache, before its
    blocks are taken up. *)
Definition miss_events (key : str) (page_num : Z) (why : option str) : list event :=
  UiStatus (lit "Translating page " ++ str_of_int (page_num + 1) ++ lit "...")
  :: absent_events key why
  ++ [Log INFO (lit "Cache miss: Translating page " ++ str_of_int (page_num + 1));
      UiStatus (lit "Translating page " ++ str_of_int (page_num + 1)
                ++ lit " (not in cache)")].

(** The world in which the block loop of such a page starts: a new
    document object holds a copy of the page. *)
Definition miss_start (w : world) (p : page) (key : str) (page_num : Z) : world :=
  World (heap w ++ [Document ∅ [p]]) (fs w)
        (trace w ++ miss_events key page_num (rejected (fs w) key)).

(** What happens for such a page once its document has been saved. *)
Definition stored_events (i page_num total_pages : Z) : list event :=
  [Log INFO (lit "Cached new translation for page " ++ str_of_int (page_num + 1));
   UiProgress (i + 1) total_pages].

(** The cache directory after a [doc.save] to [key] that raised. *)
Definition after_failed_save (fs : gmap str file) (key : str)
    (left_behind : option file) : gmap str file :=
  match left_behind with
  | Some partial => <[key := partial]> fs
  | None => fs
  end.

(** *** The page loop, page by page *)

(** [total_pages] in a call on document [d]. *)
Definition total_of (d : document) (start_page num_pages : Z) : Z :=
  Z.min (start_page + num_pages) (Z.of_nat (length (doc_pages d))) - start_page.

(** The items of the page loop of a call on document [d]:
    [enumerate(range(start_page, min(start_page + num_pages, page_count)))]. *)
Definition items_of (d : document) (start_page num_pages : Z) : list (Z * Z) :=
  enumerate (py_range start_page
               (Z.min (start_page + num_pages) (Z.of_nat (length (doc_pages d))))).

(** The page loop of a call on document [d] gets to position [j] of the
    range: its first [j] iterations have returned, leaving
    [translated_pages], [cache_hits] and the world [wj], in which the
    page at [start_page + j] is taken up. *)
Definition loop_reaches (E : Env) (doc : nat) (d : document)
    (start_page num_pages : Z) (tr : translator)
    (text_color translator_name target_lang : str) (w : world)
    (j : nat) (translated_pages : list nat) (cache_hits : Z) (wj : world) : Prop :=
  page_loop E doc (total_of d start_page num_pages) tr (color_of text_color)
    translator_name target_lang (take j (items_of d start_page num_pages)) [] 0
    (World (heap w) (fs w) (trace w ++ start_events tr translator_name))
  = (Ok (translated_pages, cache_hits), wj).

(** ** Sample collaborators and documents *)

Module Samples.

(** An endpoint that answers every prompt (with the prompt itself), a
    library that draws everything and a disk that takes every file. *)
Definition echo : Env :=
  {| chat_completion := fun _ req => Ok (VStr (req_prompt req));
     page_draw := fun _ _ => None;
     file_save := fun _ _ => Saved |}.

(** A rectangle without area. *)
Definition rect_is_empty (r : rect) : bool :=
  let '(x0, y0, x1, y1) := r in (x1 <=? x0) || (y1 <=? y0).

(** As [echo], with a library that cannot fit text into a rectangle
    without area: [draw_rect] accepts such a rectangle, [insert_htmlbox]
    raises [OverflowError] on it. The text of the message is of no
    consequence here; it is the one CPython gives when an infinite float
    is converted. *)
Definition strict_draw : Env :=
  {| chat_completion := fun _ req => Ok (VStr (req_prompt req));
     page_draw := fun _ op =>
       match op with
       | DrawRect _ _ => None
       | InsertHtmlbox r _ _ =>
           if rect_is_empty r
           then Some (Exn OverflowError
                        (lit "cannot convert float infinity to integer"))
           else None
       end;
     file_save := fun _ _ => Saved |}.

(** What [pymupdf.open] makes of the file that a save leaves when the
    disk fills up while it writes: MuPDF repairs the truncated file and
    returns a document, here one blank page, without the text and the
    drawings of the page that was being saved. *)
Definition torn : document := Document ∅ [Page [] [] []].

(** As [echo], with a full disk: every save raises [FzErrorSystem] (the
    text of its message is of no consequence here) and leaves a truncated
    file at the path, which [pymupdf.open] repairs and opens as [torn]. *)
Definition full_disk : Env :=
  {| chat_completion := fun _ req => Ok (VStr (req_prompt req));
     page_draw := fun _ _ => None;
     file_save := fun _ _ =>
       SaveFailed (Exn FzErrorSystem (lit "No space left on device"))
                  (Some (PdfFile torn)) |}.

(** An endpoint that is down. *)
Definition api_down : Env :=
  {| chat_completion := fun _ _ => Raise (Exn OtherException (lit "Connection error."));
     page_draw := fun _ _ => None;
     file_save := fun _ _ => Saved |}.

(** The translator object of the samples: a local model, no API key. *)
Definition local_model : OpenAICompatibleTranslator :=
  OpenAICompatibleTranslator_init (lit "de") (lit "en") None (Some (lit "gemma3:12b"))
    (Some (lit "http://localhost:11434/v1")).

Definition translator_for (E : Env) : translator :=
  translator_of_OpenAICompatible E local_model.

(** With an endpoint that answers every prompt with the prompt itself:
    what this translator returns for a text that is not blank, and what
    it does before it returns, one log line and one call of the
    endpoint. *)
Definition answer (text : str) : value :=
  VStr (req_prompt (chat_request (super local_model) text)).

Definition asking (text : str) : list event :=
  [Log INFO (lit "Using local model with base_url: http://localhost:11434/v1");
   ApiCall (chat_request (super local_model) text)].

(** A block that the loop got through with this translator. *)
Definition handled (b : block) : block_run :=
  BlockRun b (answer (blk_text b)) (asking (blk_text b)).

Definition hello : block := Block (72, 72, 300, 90) (lit "Hallo Welt").
Definition bye : block := Block (72, 100, 300, 118) (lit "Auf Wiedersehen").
Definition flat : block := Block (72, 130, 72, 130) (lit "x").

Definition metadata : gmap str value :=
  {[ lit "title" := VStr (lit "Bericht"); lit "author" := VStr (lit "Ann") ]}.

(** Two pages with the same text. *)
Definition twins : document :=
  Document metadata [Page (lit "Hallo Welt") [hello] [];
                     Page (lit "Hallo Welt") [hello] []].

(** One page with two blocks. *)
Definition letter : document :=
  Document metadata [Page (lit "Hallo Welt Auf Wiedersehen") [hello; bye] []].

(** Two pages; the second block of the second page has a rectangle
    without area. *)
Definition creased : document :=
  Document metadata [Page (lit "eins") [hello] [];
                     Page (lit "Hallo x Auf Wiedersehen") [hello; flat; bye] []].

(** Three pages. *)
Definition booklet : document :=
  Document metadata [Page (lit "eins") [hello] [];
                     Page (lit "zwei") [bye] [];
                     Page (lit "drei") [hello; bye] []].

(** A world with one live document, an empty cache directory and no
    history. *)
Definition fresh (d : document) : world := World [d] ∅ [].

Definition name : str := lit "OpenAI Compatible".
Definition lang : str := lit "en".
Definition red : str := lit "darkred".

(** The cache keys of the first pages of [letter] and [twins] and of the
    second page of [creased], as Python computes them. *)
Definition letter_key : str := lit "2d774b30_7e3eb25b_page0_OpenAI Compatible_en.pdf".
Definition twins_key : str := lit "2d774b30_5c372a32_page0_OpenAI Compatible_en.pdf".
Definition creased_key : str := lit "2d774b30_bac55a3b_page1_OpenAI Compatible_en.pdf".

(** A world whose cache holds, under the key of the page of [letter], a
    file that [pymupdf.open] rejects. *)
Definition damaged : world :=
  World [letter] {[ letter_key := Damaged (lit "cannot open broken document") ]} [].

End Samples.

(** A statement that leaves the first [n0] document objects as they are,
    however it ends, and whose value, when it returns one, satisfies
    [Q]. *)
Definition keeps (n0 : nat) {A} (c : M A) (Q : A -> Prop) : Prop :=
  forall w r w',
    (n0 <= length (heap w))%nat -> c w = (r, w') ->
    (n0 <= length (heap w'))%nat
    /\ take n0 (heap w') = take n0 (heap w)
    /\ forall a, r = Ok a -> Q a.

(** * Properties *)

(** ** The Python runtime functions, checked on test vectors *)

Example md5_empty :
  MD5.hexdigest [] = lit "d41d8cd98f00b204e9800998ecf8427e".
Proof. vm_compute. reflexivity. Qed.

Example md5_abc :
  option_map MD5.hexdigest (Utf8.encode_opt (lit "abc"))
  = Some (lit "900150983cd24fb0d6963f7d28e17f72").
Proof. vm_compute. reflexivity. Qed.

Example key1 :
  get_cache_key (list_to_map [(lit "title", VStr (lit "Report"));
                              (lit "author", VStr (lit "Ann"))])
                0 (lit "ChatGPT") (lit "en") (lit "Hello world")
  = Ok (lit "38b11cbf_3e25960a_page0_ChatGPT_en.pdf").
Proof. vm_compute. reflexivity. Qed.

Example key2 :
  get_cache_key (list_to_map [(lit "title", VStr (lit "Report"));
                              (lit "author", VStr (lit "Ann"));
                              (lit "pagecount", VInt 10)])
                12 (lit "OpenAI Compatible") (lit "zh-CN") (lit "Hello world")
  = Ok (lit "13b4eaf1_3e25960a_page12_OpenAI Compatible_zh-CN.pdf").
Proof. vm_compute. reflexivity. Qed.

Example key3 :
  get_cache_key ∅ (-3) (lit "x") (lit "y") []
  = Ok (lit "18f05aed_d41d8cd9_page-3_x_y.pdf").
Proof. vm_compute. reflexivity. Qed.

Example key4 :
  get_cache_key {[ lit "title" := VNone ]} 1 (lit "x") (lit "y") (lit "A")
  = Ok (lit "b3cd9193_7fc56270_page1_x_y.pdf").
Proof. vm_compute. reflexivity. Qed.

Example md5_multiblock :
  MD5.hexdigest (repeat 0x61%N 120) = lit "5f61c0ccad4cac44c75ff505e1f1e537"
  /\ MD5.hexdigest (repeat 0x61%N 56) = lit "3b0c8ac703f828b04c6c197006d17218"
  /\ MD5.hexdigest (repeat 0x61%N 55) = lit "ef1772b6dff9a122358552954ad0df65"
  /\ MD5.hexdigest (repeat 0x61%N 64) = lit "014842d480b571495a4a0363793f7367".
Proof. vm_compute. repeat split. Qed.

Example md5_unicode :
  option_map MD5.hexdigest
    (Utf8.encode_opt (lit "h" ++ [0xE9%N] ++ lit "llo " ++ [0x4E16%N; 0x754C%N] ++ lit " " ++ [0x1F600%N]))
  = Some (lit "31e6321f1488d7ffab86ffd75e0b354b").
Proof. vm_compute. reflexivity. Qed.

(** ** The cache key *)

Lemma hex_digit_is_hex (n : N) : (n < 16)%N -> is_hex (MD5.hex_digit n) = true.
Proof.
  intros Hn. unfold MD5.hex_digit, is_hex.
  destruct (N.ltb_spec n 10).
  - replace (0x30 <=? 0x30 + n)%N with true by (symmetry; apply N.leb_le; lia).
    replace (0x30 + n <=? 0x39)%N with true by (symmetry; apply N.leb_le; lia).
    reflexivity.
  - replace (0x61 <=? 0x61 + (n - 10))%N with true by (symmetry; apply N.leb_le; lia).
    replace (0x61 + (n - 10) <=? 0x66)%N with true by (symmetry; apply N.leb_le; lia).
    apply orb_true_r.
Qed.

Lemma hex_byte_is_hex (b : N) :
  (b < 256)%N -> Forall (fun c => is_hex c = true) (MD5.hex_byte b).
Proof.
  intros Hb. unfold MD5.hex_byte.
  repeat constructor; apply hex_digit_is_hex.
  - apply N.Div0.div_lt_upper_bound. lia.
  - apply N.mod_lt. lia.
Qed.

Lemma hex_word_is_hex (w : N) : Forall (fun c => is_hex c = true) (MD5.hex_word w).
Proof.
  unfold MD5.hex_word. rewrite !Forall_app.
  repeat split; apply hex_byte_is_hex; apply N.mod_lt; lia.
Qed.

Lemma hex_word_length (w : N) : length (MD5.hex_word w) = 8%nat.
Proof. reflexivity. Qed.

(** The digest is always 32 hexadecimal digits, whatever the message. *)
Lemma hexdigest_length (msg : bytes) : length (MD5.hexdigest msg) = 32%nat.
Proof.
  unfold MD5.hexdigest. destruct (MD5.digest_state msg) as [[[a b] c] d].
  rewrite !length_app, !hex_word_length. reflexivity.
Qed.

Lemma hexdigest_is_hex (msg : bytes) :
  Forall (fun c => is_hex c = true) (MD5.hexdigest msg).
Proof.
  unfold MD5.hexdigest. destruct (MD5.digest_state msg) as [[[a b] c] d].
  rewrite !Forall_app. repeat split; apply hex_word_is_hex.
Qed.

Lemma md5_hex8_Ok (s : str) (b : bytes) :
  Utf8.encode s = Ok b -> md5_hex8 s = Ok (take 8 (MD5.hexdigest b)).
Proof. intros H. unfold md5_hex8. rewrite H. reflexivity. Qed.

Lemma md5_hex8_length (s h : str) : md5_hex8 s = Ok h -> length h = 8%nat.
Proof.
  unfold md5_hex8. destruct (Utf8.encode s) as [b|e]; [|discriminate].
  intros [= <-]. rewrite length_take, hexdigest_length. reflexivity.
Qed.

Lemma md5_hex8_is_hex (s h : str) :
  md5_hex8 s = Ok h -> Forall (fun c => is_hex c = true) h.
Proof.
  unfold md5_hex8. destruct (Utf8.encode s) as [b|e]; [|discriminate].
  intros [= <-]. apply Forall_take, hexdigest_is_hex.
Qed.

(** Whenever a key is produced, it has the spec's shape. *)
Lemma get_cache_key_inv doc_info page_num tn tl text k :
  get_cache_key doc_info page_num tn tl text = Ok k ->
  exists dh th,
    md5_hex8 (doc_identity doc_info) = Ok dh /\ md5_hex8 text = Ok th
    /\ k = key_format dh th page_num tn tl.
Proof.
  unfold get_cache_key. fold (doc_identity doc_info).
  destruct (md5_hex8 text) as [th|e]; [|discriminate].
  destruct (md5_hex8 (doc_identity doc_info)) as [dh|e]; [|discriminate].
  intros [= <-]. exists dh, th. auto.
Qed.

(** Two names of the spec's shape with different text hashes differ: the
    text hash sits at the same place in both, after the eight digits of
    the document hash and one underscore. *)
Lemma key_format_text_hash_inj dh th pn tn tl dh' th' pn' tn' tl' :
  length dh = 8%nat -> length dh' = 8%nat ->
  length th = 8%nat -> length th' = 8%nat ->
  key_format dh th pn tn tl = key_format dh' th' pn' tn' tl' ->
  th = th'.
Proof.
  intros Hd Hd' Ht Ht' Heq. unfold key_format in Heq.
  apply app_inj_1 in Heq as [_ Heq]; [|congruence].
  simpl in Heq. injection Heq as Heq.
  apply app_inj_1 in Heq as [Heq _]; [assumption|congruence].
Qed.

(** C6. [get_cache_key] is a function of its five arguments that, for
    well-formed text (text that UTF-8 encodes), returns
    [{doc_hash}_{text_hash}_page{page_num}_{translator_name}_{target_lang}.pdf],
    where [doc_hash] is the first 8 hexadecimal digits of the MD5 of the
    joined title, author and page count and [text_hash] the first 8 of the
    MD5 of the page text. Equal inputs give equal keys, and any key computed
    for a text with a different [text_hash] is a different key. *)
Theorem get_cache_key_spec
    (doc_info : gmap str value) (page_num : Z)
    (translator_name target_lang text_content : str) (tb db : bytes) :
  Utf8.encode text_content = Ok tb ->
  Utf8.encode (doc_identity doc_info) = Ok db ->
  let doc_hash := take 8 (MD5.hexdigest db) in
  let text_hash := take 8 (MD5.hexdigest tb) in
  get_cache_key doc_info page_num translator_name target_lang text_content
  = Ok (key_format doc_hash text_hash page_num translator_name target_lang)
  /\ (length doc_hash = 8%nat /\ Forall (fun c => is_hex c = true) doc_hash)
  /\ (length text_hash = 8%nat /\ Forall (fun c => is_hex c = true) text_hash)
  /\ (forall doc_info' page_num' translator_name' target_lang' text_content',
        doc_info' = doc_info -> page_num' = page_num ->
        translator_name' = translator_name -> target_lang' = target_lang ->
        text_content' = text_content ->
        get_cache_key doc_info' page_num' translator_name' target_lang' text_content'
        = get_cache_key doc_info page_num translator_name target_lang text_content)
  /\ (forall doc_info' page_num' translator_name' target_lang' text_content' k',
        get_cache_key doc_info' page_num' translator_name' target_lang' text_content'
        = Ok k' ->
        md5_hex8 text_content' <> Ok text_hash ->
        k' <> key_format doc_hash text_hash page_num translator_name target_lang).
Proof.
  intros Ht Hd doc_hash text_hash.
  pose proof (md5_hex8_Ok _ _ Ht) as Hth. pose proof (md5_hex8_Ok _ _ Hd) as Hdh.
  fold text_hash in Hth. fold doc_hash in Hdh.
  split; [|split; [|split; [|split]]].
  - unfold get_cache_key. fold (doc_identity doc_info). rewrite Hth, Hdh. reflexivity.
  - split; [eapply md5_hex8_length | eapply md5_hex8_is_hex]; exact Hdh.
  - split; [eapply md5_hex8_length | eapply md5_hex8_is_hex]; exact Hth.
  - intros; subst; reflexivity.
  - intros doc_info' pn' tn' tl' text' k' Hk' Hne Heq.
    apply get_cache_key_inv in Hk' as (dh' & th' & Hdh' & Hth' & ->).
    apply Hne. rewrite Hth'. f_equal.
    eapply key_format_text_hash_inj; [| | | |exact Heq];
      eauto using md5_hex8_length.
Qed.

Lemma get_cache_key_spec_witness :
  Utf8.encode (lit "Hello world")
  = Ok (lit "Hello world")
  /\ Utf8.encode (doc_identity {[ lit "title" := VStr (lit "Report") ]})
     = Ok (lit "Report__")
  /\ get_cache_key {[ lit "title" := VStr (lit "Report") ]} 0
       (lit "ChatGPT") (lit "en") (lit "Hello world")
     = Ok (key_format (take 8 (MD5.hexdigest (lit "Report__")))
             (take 8 (MD5.hexdigest (lit "Hello world")))
             0 (lit "ChatGPT") (lit "en")).
Proof.
  split; [vm_compute; reflexivity|].
  split; [vm_compute; reflexivity|].
  apply (get_cache_key_spec {[ lit "title" := VStr (lit "Report") ]} 0
           (lit "ChatGPT") (lit "en") (lit "Hello world")
           (lit "Hello world") (lit "Report__"));
    vm_compute; reflexivity.
Defined.

(** ** Whitespace *)

Lemma lstrip_all_space (s : str) :
  Forall (fun c => isspace c = true) s -> lstrip s = [].
Proof. induction 1 as [|c s Hc _ IH]; simpl; [|rewrite Hc]; auto. Qed.

Lemma lstrip_head (s : str) c t : lstrip s = c :: t -> isspace c = false.
Proof.
  induction s as [|a s IH]; simpl; [discriminate|].
  destruct (isspace a) eqn:Ha; [exact IH|].
  intros [= <- _]. exact Ha.
Qed.

Lemma lstrip_nil_inv (s : str) :
  lstrip s = [] -> Forall (fun c => isspace c = true) s.
Proof.
  induction s as [|a s IH]; simpl; [constructor|].
  destruct (isspace a) eqn:Ha; [|discriminate].
  intros H. constructor; auto.
Qed.

(** [text.strip()] is empty exactly when every character is whitespace. *)
Lemma strip_nil_iff (s : str) :
  strip s = [] <-> Forall (fun c => isspace c = true) s.
Proof.
  unfold strip, rstrip. split.
  - intros H. apply (f_equal (@rev N)) in H. rewrite rev_involutive in H.
    simpl in H. apply lstrip_nil_inv in H.
    destruct (lstrip s) as [|c t] eqn:Hl; [apply lstrip_nil_inv, Hl|].
    apply lstrip_head in Hl.
    apply Forall_rev in H. rewrite rev_involutive in H.
    inversion H; subst. congruence.
  - intros H. rewrite (lstrip_all_space s H). reflexivity.
Qed.

Lemma strip_truthy (s : str) :
  Exists (fun c => isspace c = false) s -> truthy (strip s) = true.
Proof.
  intros Hex. destruct (strip s) as [|c t] eqn:Hs; [|reflexivity].
  apply strip_nil_iff in Hs. apply Exists_exists in Hex as (c & Hin & Hc).
  rewrite Forall_forall in Hs. specialize (Hs c Hin). congruence.
Qed.

(** ** The retrying translator *)

(** C7. On input that is empty or all whitespace,
    [OpenAICompatibleTranslator.translate] returns the input itself and
    leaves the world as it was: no call of the endpoint, no pause, no log
    line. *)
Theorem translate_whitespace_unchanged
    (E : Env) (self : OpenAICompatibleTranslator) (text : str) (w : world) :
  Forall (fun c => isspace c = true) text ->
  OpenAICompatibleTranslator_translate E self text w = (Ok (VStr text), w).
Proof.
  intros H. apply strip_nil_iff in H.
  unfold OpenAICompatibleTranslator_translate. rewrite H. reflexivity.
Qed.

Lemma translate_whitespace_unchanged_witness :
  Forall (fun c => isspace c = true) (lit "  " ++ [0xA0%N; 0x3000%N; 10%N])
  /\ OpenAICompatibleTranslator_translate
       {| chat_completion := fun _ _ => Ok VNone;
          page_draw := fun _ _ => None;
          file_save := fun _ _ => Saved |}
       (OpenAICompatibleTranslator_init (lit "de") (lit "en") None None None)
       (lit "  " ++ [0xA0%N; 0x3000%N; 10%N]) (World [] ∅ [])
     = (Ok (VStr (lit "  " ++ [0xA0%N; 0x3000%N; 10%N])), World [] ∅ []).
Proof.
  assert (H : Forall (fun c => isspace c = true) (lit "  " ++ [0xA0%N; 0x3000%N; 10%N]))
    by (repeat constructor).
  split; [exact H|].
  apply (translate_whitespace_unchanged _ _ _ _ H).
Defined.

Lemma py_range_nil (a b : Z) : b <= a -> py_range a b = [].
Proof.
  intros H. unfold py_range. replace (Z.to_nat (b - a)) with O by lia. reflexivity.
Qed.

Lemma py_range_cons (a b : Z) : a < b -> py_range a b = a :: py_range (a + 1) b.
Proof.
  intros H. unfold py_range.
  replace (Z.to_nat (b - a)) with (S (Z.to_nat (b - (a + 1)))) by lia.
  simpl. f_equal; [lia|].
  rewrite <- seq_shift, map_map. apply map_ext. intros i. lia.
Qed.

Lemma py_range_length (a b : Z) : length (py_range a b) = Z.to_nat (b - a).
Proof. unfold py_range. rewrite length_map, length_seq. reflexivity. Qed.

(** When every call of the endpoint raises, the retry loop started at
    attempt number [k] makes the remaining [retry_count - k] attempts, pauses
    [retry_delay] between consecutive ones, and returns the text. *)
Lemma retry_loop_all_fail (E : Env) (self : OpenAICompatibleTranslator) (text : str) :
  (forall h req, exists e, chat_completion E h req = Raise e) ->
  forall (n : nat) (k : Z) (w : world),
    k + Z.of_nat (S n) = retry_count self ->
    exists evs,
      retry_loop E self text (py_range k (retry_count self)) w
      = (Ok (VStr text), World (heap w) (fs w) (trace w ++ evs))
      /\ List.filter is_attempt_or_delay evs
         = attempts_with_delays (chat_request (super self) text) (retry_delay self) (S n).
Proof.
  intros Hfail. induction n as [|n IH]; intros k w Hk.
  - rewrite py_range_cons by lia. rewrite py_range_nil by lia.
    cbn [retry_loop]. unfold try_except, ChatGptTranslator_translate.
    destruct (Hfail (trace w) (chat_request (super self) text)) as [e ->].
    replace (k =? retry_count self - 1) with true by (symmetry; apply Z.eqb_eq; lia).
    destruct (is_JSONDecodeError e); unfold bind, logging, ret, emit; cbn [heap fs trace];
      (eexists; split; [rewrite <- !app_assoc; reflexivity | reflexivity]).
  - rewrite py_range_cons by lia.
    cbn [retry_loop]. unfold try_except at 1, ChatGptTranslator_translate at 1.
    destruct (Hfail (trace w) (chat_request (super self) text)) as [e ->].
    replace (k =? retry_count self - 1) with false by (symmetry; apply Z.eqb_neq; lia).
    destruct (is_JSONDecodeError e); unfold bind, logging, time_sleep, emit;
      cbn [heap fs trace];
      match goal with
      | |- context [retry_loop E self text _ ?w1] =>
          destruct (IH (k + 1) w1 ltac:(lia)) as (evs & -> & Hevs)
      end; cbn [heap fs trace];
      (eexists; split; [rewrite <- !app_assoc; reflexivity |]);
      cbn [app List.filter is_attempt_or_delay]; rewrite Hevs; reflexivity.
Qed.

(** C2. For text that is not all whitespace, when every call of the wrapped
    capability raises, [translate] of a translator as its constructor
    leaves it calls the capability exactly 3 times, pauses 1 second between
    consecutive calls (twice in all), and then returns the input text as an
    ordinary result, not an exception. *)
Theorem translate_falls_back_after_three_attempts
    (E : Env) (source target : str) (key mdl url : option str)
    (text : str) (w : world) :
  Exists (fun c => isspace c = false) text ->
  (forall h req, exists e, chat_completion E h req = Raise e) ->
  let self := OpenAICompatibleTranslator_init source target key mdl url in
  let req := chat_request (super self) text in
  exists evs,
    OpenAICompatibleTranslator_translate E self text w
    = (Ok (VStr text), World (heap w) (fs w) (trace w ++ evs))
    /\ List.filter is_attempt_or_delay evs
       = [ApiCall req; Sleep 1; ApiCall req; Sleep 1; ApiCall req].
Proof.
  intros Hns Hfail self req.
  unfold OpenAICompatibleTranslator_translate.
  rewrite (strip_truthy text Hns). cbn [negb].
  unfold bind at 1, logging, emit.
  match goal with
  | |- context [retry_loop E self text _ ?w1] =>
      destruct (retry_loop_all_fail E self text Hfail 2%nat 0 w1 eq_refl)
        as (evs & Hrun & Hevs)
  end.
  rewrite Hrun. cbn [heap fs trace].
  eexists. split; [rewrite <- app_assoc; reflexivity|].
  cbn [app List.filter is_attempt_or_delay]. rewrite Hevs. reflexivity.
Qed.

Lemma translate_falls_back_after_three_attempts_witness :
  let E := {| chat_completion := fun _ _ => Raise (Exn JSONDecodeError (lit "Expecting value"));
              page_draw := fun _ _ => None;
              file_save := fun _ _ => Saved |} in
  Exists (fun c => isspace c = false) (lit " Guten Tag ")
  /\ (forall h req, exists e, chat_completion E h req = Raise e)
  /\ exists evs,
       OpenAICompatibleTranslator_translate E
         (OpenAICompatibleTranslator_init (lit "de") (lit "en") None None None)
         (lit " Guten Tag ") (World [] ∅ [])
       = (Ok (VStr (lit " Guten Tag ")), World [] ∅ ([] ++ evs))
       /\ length (List.filter is_attempt_or_delay evs) = 5%nat.
Proof.
  intros E.
  assert (Hns : Exists (fun c => isspace c = false) (lit " Guten Tag "))
    by (apply Exists_cons_tl, Exists_cons_hd; reflexivity).
  assert (Hfail : forall h req, exists e, chat_completion E h req = Raise e)
    by (intros h req; eexists; reflexivity).
  split; [exact Hns|]. split; [exact Hfail|].
  destruct (translate_falls_back_after_three_attempts E (lit "de") (lit "en")
              None None None (lit " Guten Tag ") (World [] ∅ []) Hns Hfail)
    as (evs & Hrun & Hevs).
  exists evs. split; [exact Hrun|]. rewrite Hevs. reflexivity.
Defined.

(** ** Stepping through statements *)

Lemma bind_Ok {A B} (c : M A) (k : A -> M B) w a w1 :
  c w = (Ok a, w1) -> bind c k w = k a w1.
Proof. intros H. unfold bind. rewrite H. reflexivity. Qed.

Lemma bind_Raise {A B} (c : M A) (k : A -> M B) w e w1 :
  c w = (Raise e, w1) -> bind c k w = (Raise e, w1).
Proof. intros H. unfold bind. rewrite H. reflexivity. Qed.

Lemma bind_inv {A B} (c : M A) (k : A -> M B) w r w' :
  bind c k w = (r, w') ->
  (exists a w1, c w = (Ok a, w1) /\ k a w1 = (r, w'))
  \/ (exists e, c w = (Raise e, w') /\ r = Raise e).
Proof.
  unfold bind. destruct (c w) as [[a|e] w1]; intros H.
  - left. eauto.
  - right. inversion H; subst. eauto.
Qed.

Ltac mred :=
  repeat (progress (unfold bind, ret, raise, lift, emit, logging, time_sleep,
                      try_except;
                    cbn [heap fs trace exn_msg fst snd])).

Lemma bind_assoc {A B C} (c : M A) (k1 : A -> M B) (k2 : B -> M C) w :
  bind (bind c k1) k2 w = bind c (fun a => bind (k1 a) k2) w.
Proof. unfold bind. destruct (c w) as [[a|e] w1]; reflexivity. Qed.

Lemma deref_Some doc d w : heap w !! doc = Some d -> deref doc w = (Ok d, w).
Proof. intros H. unfold deref. rewrite H. reflexivity. Qed.

Lemma world_eta w : World (heap w) (fs w) (trace w) = w.
Proof. destruct w; reflexivity. Qed.

Lemma page_eta p : Page (pg_text p) (pg_blocks p) (pg_drawn p) = p.
Proof. destruct p; reflexivity. Qed.

(** ** The cache directory *)

(** What [get_cached_translation] does, by the state of the file: a PDF is
    loaded into a new document object; rejected content is logged and
    reported as absent; a missing file is absent. *)
Lemma get_cached_translation_eq (key : str) (w : world) :
  get_cached_translation key w =
  match fs w !! key with
  | Some (PdfFile d) =>
      (Ok (Some (length (heap w))),
       World (heap w ++ [d]) (fs w) (trace w ++ [Mkdir; FileOpen key]))
  | Some (Damaged why) =>
      (Ok None,
       World (heap w) (fs w)
         (trace w ++ [Mkdir; FileOpen key;
                      Log ERROR (lit "Error loading cache: " ++ why)]))
  | None => (Ok None, World (heap w) (fs w) (trace w ++ [Mkdir]))
  end.
Proof.
  unfold get_cached_translation, get_cache_dir, path_exists, try_except,
    pymupdf_open_path, bind, emit, logging, ret.
  cbn [heap fs trace].
  destruct (fs w !! key) as [[d|why]|] eqn:Hk;
    rewrite ?bool_decide_true by eauto;
    rewrite ?bool_decide_false by (intros [? ?]; discriminate);
    cbn [heap fs trace exn_msg]; rewrite ?Hk; mred;
    rewrite <- ?app_assoc; reflexivity.
Qed.

Lemma copied_pages_single (src : list page) (pn : Z) (p : page) :
  0 <= pn -> src !! Z.to_nat pn = Some p -> copied_pages src pn pn = [p].
Proof.
  intros Hpn Hp. pose proof (lookup_lt_Some _ _ _ Hp) as Hlt.
  unfold copied_pages.
  replace (pn <? 0) with false by (symmetry; apply Z.ltb_ge; lia).
  replace (Z.min (Z.max pn 0) (Z.of_nat (length src) - 1)) with pn by lia.
  replace (Z.min pn (Z.of_nat (length src) - 1)) with pn by lia.
  replace (Z.to_nat (pn - pn + 1)) with 1%nat by lia.
  rewrite (drop_S _ _ _ Hp). reflexivity.
Qed.

Lemma insert_at_end {A} (l : list A) (x y : A) :
  <[length l := y]> (l ++ [x]) = l ++ [y].
Proof.
  replace (length l) with (length l + 0)%nat at 1 by lia.
  rewrite insert_app_r. reflexivity.
Qed.

Lemma lookup_at_end {A} (l : list A) (x : A) : (l ++ [x]) !! length l = Some x.
Proof. apply list_lookup_middle. reflexivity. Qed.

Ltac solve_lookup :=
  cbn [heap fs trace];
  first [ eassumption
        | apply lookup_at_end
        | rewrite lookup_app_l by (eauto using lookup_lt_Some); eassumption ].

(** One statement of a sequence: run it when it is known to succeed. *)
Ltac mstep :=
  rewrite ?bind_assoc;
  erewrite bind_Ok by first [ reflexivity | apply deref_Some; solve_lookup ];
  cbv beta; cbn [heap fs trace].

(** The cache-miss branch up to the block loop: a new document object
    holding a copy of the source page, then the blocks of that copy; what
    remains is the save. *)
Lemma translate_page_miss_eq E doc d pn p tr rgb key w :
  heap w !! doc = Some d -> 0 <= pn -> doc_pages d !! Z.to_nat pn = Some p ->
  translate_page_miss E doc pn tr rgb key w =
  let new_doc := length (heap w) in
  let w1 := World (heap w ++ [Document ∅ [p]]) (fs w)
              (trace w ++ [Log INFO (lit "Cache miss: Translating page "
                                     ++ str_of_int (pn + 1));
                           UiStatus (lit "Translating page " ++ str_of_int (pn + 1)
                                     ++ lit " (not in cache)")]) in
  match translate_blocks E tr (new_doc, 0%nat) rgb (pg_blocks p) w1 with
  | (Ok _, w2) =>
      match save_translation_cache E new_doc key w2 with
      | (Ok _, w3) => (Ok new_doc, w3)
      | (Raise e, w3) => (Raise e, w3)
      end
  | (Raise e, w2) => (Raise e, w2)
  end.
Proof.
  intros Hd Hpn Hp.
  unfold translate_page_miss, insert_pdf, doc_getitem, get_text_blocks, load,
    logging.
  do 6 mstep.
  cbn [doc_metadata doc_pages app].
  rewrite insert_at_end, (copied_pages_single _ _ _ Hpn Hp), <- app_assoc.
  cbn [app].
  mstep. cbn [doc_pages length]. mstep.
  change (Z.to_nat (0 `mod` Z.of_nat 1)) with 0%nat. cbn [fst snd].
  mstep. cbn [doc_pages]. change ([p] !! 0%nat) with (Some p).
  do 2 mstep.
  unfold bind.
  destruct (translate_blocks _ _ _ _ _ _) as [[[]|e] w2]; [|reflexivity].
  destruct (save_translation_cache _ _ _ _) as [[[]|e] w3]; reflexivity.
Qed.

(** ** The block loop *)

Lemma submit_inv tr text w r w' :
  translator_ok tr -> submit tr text w = (r, w') ->
  exists evs,
    w' = World (heap w) (fs w) (trace w ++ Submit text :: evs)
    /\ Forall (fun e => is_translator_event e = true) evs.
Proof.
  intros Hok. unfold submit, bind, emit. intros H.
  apply Hok in H as (Hh & Hf & evs & Ht & Hevs). cbn [heap fs trace] in *.
  exists evs. split; [|exact Hevs].
  rewrite <- (world_eta w'), Hh, Hf, Ht, <- app_assoc. reflexivity.
Qed.

Lemma draw_eq E id md p op w :
  heap w !! id = Some (Document md [p]) ->
  draw E (id, 0%nat) op w =
  match page_draw E (trace w) op with
  | Some e => (Raise e, World (heap w) (fs w) (trace w ++ [Draw id op]))
  | None => (Ok tt, World (<[id := Document md [draw_on op p]]> (heap w)) (fs w)
                      (trace w ++ [Draw id op]))
  end.
Proof.
  intros Hd. unfold draw, load. cbn [fst snd].
  mstep. cbn [doc_pages]. change ([p] !! 0%nat) with (Some p).
  do 2 mstep. cbn [doc_metadata doc_pages].
  destruct (page_draw E (trace w) op); reflexivity.
Qed.

Lemma drawn_world_refl w id md p :
  heap w !! id = Some (Document md [p]) -> drawn_world w id md p [] [] = w.
Proof.
  intros H. unfold drawn_world. rewrite !app_nil_r, page_eta, list_insert_id by exact H.
  apply world_eta.
Qed.

Lemma drawn_world_lookup w id md p ops evs :
  heap w !! id = Some (Document md [p]) ->
  heap (drawn_world w id md p ops evs) !! id
  = Some (Document md [Page (pg_text p) (pg_blocks p) (pg_drawn p ++ ops)]).
Proof.
  intros H. cbn [drawn_world heap]. apply list_lookup_insert_eq.
  eauto using lookup_lt_Some.
Qed.

(** Drawing in a world that already carries drawings. *)
Lemma drawn_world_trans w id md p ops evs ops' evs' :
  drawn_world (drawn_world w id md p ops evs) id md
    (Page (pg_text p) (pg_blocks p) (pg_drawn p ++ ops)) ops' evs'
  = drawn_world w id md p (ops ++ ops') (evs ++ evs').
Proof.
  unfold drawn_world. cbn [heap fs trace pg_text pg_blocks pg_drawn].
  rewrite list_insert_insert_eq, <- !app_assoc. reflexivity.
Qed.

Lemma filter_translator_events evs :
  Forall (fun e => is_translator_event e = true) evs ->
  List.filter is_pipeline_event evs = [].
Proof.
  induction 1 as [|e evs He _ IH]; [reflexivity|].
  cbn [List.filter]. destruct e; try discriminate He; exact IH.
Qed.

Lemma Forall_translator_block evs :
  Forall (fun e => is_translator_event e = true) evs ->
  Forall (fun e => is_translator_event e || is_pipeline_event e = true) evs.
Proof.
  intros H. eapply Forall_impl; [exact H|]. intros e He. cbn beta in *.
  rewrite He. reflexivity.
Qed.

(** Every run of the block loop, however it ends: only the page of the
    copy is drawn on; the blocks are taken in order, each one submitted,
    then erased, then rendered, before the next is submitted; an exception
    stops the loop at the block where it is raised. *)
Lemma translate_blocks_run E tr id md rgb :
  translator_ok tr ->
  forall blocks p w r w',
    heap w !! id = Some (Document md [p]) ->
    translate_blocks E tr (id, 0%nat) rgb blocks w = (r, w') ->
    exists done ops evs,
      w' = drawn_world w id md p ops evs
      /\ Forall (fun e => is_translator_event e || is_pipeline_event e = true) evs
      /\ match r with
         | Ok _ =>
             map fst done = blocks
             /\ ops = flat_map (block_ops (css_of rgb)) done
             /\ List.filter is_pipeline_event evs
                = flat_map (block_events id (css_of rgb)) done
         | Raise _ =>
             exists b post tail,
               blocks = map fst done ++ b :: post
               /\ List.filter is_pipeline_event evs
                  = flat_map (block_events id (css_of rgb)) done
                    ++ Submit (blk_text b) :: tail
               /\ Forall (fun e => is_draw e = true) tail
         end.
Proof.
  intros Hok. induction blocks as [|b rest IH]; intros p w r w' Hd H.
  - cbn in H. injection H as <- <-. exists [], [], [].
    rewrite (drawn_world_refl _ _ _ _ Hd). repeat split; constructor.
  - cbn [translate_blocks] in H.
    apply bind_inv in H as [(v & w1 & Hs & H) | (e & Hs & ->)];
      apply (submit_inv _ _ _ _ _ Hok) in Hs as (evs1 & -> & Hevs1).
    2:{ exists [], [], (Submit (blk_text b) :: evs1). split; [|split].
        - unfold drawn_world. rewrite app_nil_r, page_eta, list_insert_id by exact Hd.
          reflexivity.
        - constructor; [reflexivity|]. apply Forall_translator_block, Hevs1.
        - exists b, rest, []. cbn [List.filter is_pipeline_event map flat_map app].
          rewrite (filter_translator_events _ Hevs1). repeat split. constructor. }
    pose proof (filter_translator_events _ Hevs1) as Hf1.
    pose proof (Forall_translator_block _ Hevs1) as Hb1.
    set (t := to_str v) in *.
    set (op1 := DrawRect (blk_bbox b) WHITE) in *.
    set (op2 := InsertHtmlbox (blk_bbox b) t (css_of rgb)) in *.
    apply bind_inv in H as [([] & w2 & Hd1 & H) | (e & Hd1 & ->)];
      rewrite (draw_eq E id md p) in Hd1 by exact Hd; cbn [heap fs trace] in Hd1;
      destruct (page_draw E _ op1) as [e1|]; try discriminate Hd1.
    2:{ injection Hd1 as <- <-.
        exists [], [], (Submit (blk_text b) :: evs1 ++ [Draw id op1]).
        split; [|split].
        - unfold drawn_world. rewrite app_nil_r, page_eta, list_insert_id by exact Hd.
          rewrite <- app_assoc. reflexivity.
        - constructor; [reflexivity|]. apply Forall_app. split; [exact Hb1|].
          repeat constructor.
        - exists b, rest, [Draw id op1].
          cbn [List.filter is_pipeline_event map flat_map app].
          rewrite List.filter_app, Hf1. repeat split. repeat constructor. }
    injection Hd1 as Hw2. symmetry in Hw2.
    set (p1 := draw_on op1 p) in *.
    assert (Hd2 : heap w2 !! id = Some (Document md [p1])).
    { rewrite Hw2. cbn [heap]. apply list_lookup_insert_eq. eauto using lookup_lt_Some. }
    apply bind_inv in H as [([] & w3 & Hd3 & H) | (e & Hd3 & ->)];
      rewrite (draw_eq E id md p1) in Hd3 by exact Hd2;
      destruct (page_draw E _ op2) as [e2|]; try discriminate Hd3.
    2:{ injection Hd3 as <- <-. rewrite Hw2. cbn [heap fs trace].
        exists [], [op1], (Submit (blk_text b) :: evs1 ++ [Draw id op1; Draw id op2]).
        split; [|split].
        - unfold drawn_world. rewrite <- !app_assoc. reflexivity.
        - constructor; [reflexivity|]. apply Forall_app. split; [exact Hb1|].
          repeat constructor.
        - exists b, rest, [Draw id op1; Draw id op2].
          cbn [List.filter is_pipeline_event map flat_map app].
          rewrite List.filter_app, Hf1. repeat split. repeat constructor. }
    injection Hd3 as Hw3'. symmetry in Hw3'.
    set (p2 := draw_on op2 p1) in *.
    assert (Hp2 : p2 = Page (pg_text p) (pg_blocks p) (pg_drawn p ++ [op1; op2])).
    { subst p2 p1. unfold draw_on. cbn [pg_text pg_blocks pg_drawn].
      rewrite <- app_assoc. reflexivity. }
    assert (Hw3 : w3 = drawn_world w id md p [op1; op2]
                         (Submit (blk_text b) :: evs1 ++ [Draw id op1; Draw id op2])).
    { rewrite Hw3', Hw2, Hp2. unfold drawn_world. cbn [heap fs trace].
      rewrite list_insert_insert_eq, <- !app_assoc. reflexivity. }
    assert (Hd4 : heap w3 !! id = Some (Document md [p2])).
    { rewrite Hw3, Hp2. apply drawn_world_lookup, Hd. }
    destruct (IH p2 w3 r w' Hd4 H) as (done & ops & evs & -> & Hevs & Hr).
    rewrite Hw3, Hp2, drawn_world_trans.
    exists ((b, t) :: done), ([op1; op2] ++ ops),
      ((Submit (blk_text b) :: evs1 ++ [Draw id op1; Draw id op2]) ++ evs).
    split; [reflexivity|]. split.
    { apply Forall_app. split; [|exact Hevs].
      constructor; [reflexivity|]. apply Forall_app. split; [exact Hb1|].
      repeat constructor. }
    assert (Hf : List.filter is_pipeline_event
                   ((Submit (blk_text b) :: evs1 ++ [Draw id op1; Draw id op2]) ++ evs)
                 = block_events id (css_of rgb) (b, t)
                   ++ List.filter is_pipeline_event evs).
    { rewrite List.filter_app. cbn [List.filter is_pipeline_event].
      rewrite List.filter_app, Hf1. reflexivity. }
    rewrite Hf. destruct r as [[]|e].
    + destruct Hr as (Hm & -> & ->). cbn [map flat_map fst]. rewrite Hm. auto.
    + destruct Hr as (b' & post & tail & -> & -> & Htail).
      exists b', post, tail. cbn [map flat_map fst]. rewrite <- app_assoc. auto.
Qed.

Lemma submit_total tr text w :
  translator_ok tr -> translator_total tr ->
  exists v evs,
    submit tr text w = (Ok v, World (heap w) (fs w) (trace w ++ Submit text :: evs))
    /\ Forall (fun e => is_translator_event e = true) evs.
Proof.
  intros Hok Htot.
  destruct (Htot text (World (heap w) (fs w) (trace w ++ [Submit text])))
    as (v & w1 & Hrun).
  assert (Hs : submit tr text w = (Ok v, w1)).
  { unfold submit. mstep. exact Hrun. }
  destruct (submit_inv _ _ _ _ _ Hok Hs) as (evs & -> & Hevs).
  exists v, evs. auto.
Qed.

(** The block loop over blocks that the library draws without complaint:
    it gets through them, one after the other, and goes on with the
    rest. *)
Lemma translate_blocks_prefix E tr id md rgb :
  translator_ok tr -> translator_total tr ->
  forall pre rest p w,
    (forall h op, In (op_rect op) (map blk_bbox pre) -> page_draw E h op = None) ->
    heap w !! id = Some (Document md [p]) ->
    exists done evs,
      map fst done = pre
      /\ translate_blocks E tr (id, 0%nat) rgb (pre ++ rest) w
         = translate_blocks E tr (id, 0%nat) rgb rest
             (drawn_world w id md p (flat_map (block_ops (css_of rgb)) done) evs)
      /\ List.filter is_pipeline_event evs
         = flat_map (block_events id (css_of rgb)) done
      /\ Forall (fun e => is_translator_event e || is_pipeline_event e = true) evs.
Proof.
  intros Hok Htot. induction pre as [|b pre IH]; intros rest p w Hdraw Hd.
  - exists [], []. cbn [flat_map app]. rewrite (drawn_world_refl _ _ _ _ Hd).
    repeat split. constructor.
  - destruct (submit_total tr (blk_text b) w Hok Htot) as (v & evs1 & Hs & Hevs1).
    pose proof (filter_translator_events _ Hevs1) as Hf1.
    pose proof (Forall_translator_block _ Hevs1) as Hb1.
    set (t := to_str v).
    set (op1 := DrawRect (blk_bbox b) WHITE).
    set (op2 := InsertHtmlbox (blk_bbox b) t (css_of rgb)).
    set (p2 := Page (pg_text p) (pg_blocks p) (pg_drawn p ++ [op1; op2])).
    set (evs3 := Submit (blk_text b) :: evs1 ++ [Draw id op1; Draw id op2]).
    assert (Hstep : forall k : M unit,
      bind (submit tr (blk_text b))
        (fun translated =>
           bind (draw E (id, 0%nat) (DrawRect (blk_bbox b) WHITE))
             (fun _ => bind (draw E (id, 0%nat)
                               (InsertHtmlbox (blk_bbox b) (to_str translated)
                                  (css_of rgb)))
                         (fun _ => k))) w
      = k (drawn_world w id md p [op1; op2] evs3)).
    { intros k. rewrite (bind_Ok _ _ _ _ _ Hs). cbv beta.
      erewrite bind_Ok
        by (rewrite (draw_eq E id md p) by exact Hd;
            rewrite Hdraw by (left; reflexivity); reflexivity).
      cbv beta.
      erewrite bind_Ok
        by (rewrite (draw_eq E id md (draw_on (DrawRect (blk_bbox b) WHITE) p))
              by (cbn [heap]; apply list_lookup_insert_eq; eauto using lookup_lt_Some);
            rewrite Hdraw by (left; reflexivity); reflexivity).
      cbv beta. f_equal. unfold drawn_world, draw_on.
      cbn [heap fs trace pg_text pg_blocks pg_drawn].
      rewrite list_insert_insert_eq, <- !app_assoc. reflexivity. }
    assert (Hd2 : heap (drawn_world w id md p [op1; op2] evs3) !! id
                  = Some (Document md [p2]))
      by (apply drawn_world_lookup, Hd).
    destruct (IH rest p2 _ (fun h op Hin => Hdraw h op (or_intror Hin)) Hd2)
      as (done & evs & Hm & Hrun & Hf & Hall).
    exists ((b, t) :: done), (evs3 ++ evs).
    split; [cbn [map fst]; rewrite Hm; reflexivity|]. split; [|split].
    + cbn [app translate_blocks]. rewrite Hstep, Hrun.
      unfold p2. rewrite drawn_world_trans. reflexivity.
    + rewrite List.filter_app, Hf. unfold evs3.
      cbn [List.filter is_pipeline_event flat_map]. rewrite List.filter_app, Hf1.
      reflexivity.
    + apply Forall_app. split; [|exact Hall]. unfold evs3.
      constructor; [reflexivity|]. apply Forall_app. split; [exact Hb1|].
      repeat constructor.
Qed.

(** With a translator that answers and a library that draws, the block
    loop completes. *)
Lemma translate_blocks_total E tr id md rgb blocks p w :
  translator_ok tr -> translator_total tr ->
  (forall h op, page_draw E h op = None) ->
  heap w !! id = Some (Document md [p]) ->
  exists done evs,
    map fst done = blocks
    /\ translate_blocks E tr (id, 0%nat) rgb blocks w
       = (Ok tt, drawn_world w id md p (flat_map (block_ops (css_of rgb)) done) evs)
    /\ List.filter is_pipeline_event evs = flat_map (block_events id (css_of rgb)) done
    /\ Forall (fun e => is_translator_event e || is_pipeline_event e = true) evs.
Proof.
  intros Hok Htot Hdraw Hd.
  destruct (translate_blocks_prefix E tr id md rgb Hok Htot blocks [] p w
              (fun h op _ => Hdraw h op) Hd) as (done & evs & Hm & Hrun & Hf & Hall).
  rewrite app_nil_r in Hrun. exists done, evs. auto.
Qed.

(** ** One page *)

Lemma save_translation_cache_eq E id d key w :
  heap w !! id = Some d ->
  save_translation_cache E id key w =
  match file_save E (trace w ++ [Mkdir]) key with
  | Saved =>
      (Ok tt, World (heap w) (<[key := PdfFile d]> (fs w))
                (trace w ++ [Mkdir; FileSave key id]))
  | SaveFailed e None =>
      (Raise e, World (heap w) (fs w) (trace w ++ [Mkdir; FileSave key id]))
  | SaveFailed e (Some partial) =>
      (Raise e, World (heap w) (<[key := partial]> (fs w))
                  (trace w ++ [Mkdir; FileSave key id]))
  end.
Proof.
  intros Hd. unfold save_translation_cache, get_cache_dir, doc_save.
  do 2 mstep.
  destruct (file_save E (trace w ++ [Mkdir]) key) as [|e [partial|]];
    rewrite <- app_assoc; reflexivity.
Qed.

(** The loop body, once the page and its key are known. *)
Lemma translate_page_eq E doc d total tr rgb tn tl i pn p key w :
  heap w !! doc = Some d -> 0 <= pn -> doc_pages d !! Z.to_nat pn = Some p ->
  get_cache_key (doc_metadata d) pn tn tl (pg_text p) = Ok key ->
  total <> 0 ->
  translate_page E doc total tr rgb tn tl i pn w =
  let w0 := World (heap w) (fs w)
              (trace w ++ [UiStatus (lit "Translating page " ++ str_of_int (pn + 1)
                                     ++ lit "...")]) in
  match get_cached_translation key w0 with
  | (Ok (Some cached), w1) =>
      (Ok (cached, true),
       World (heap w1) (fs w1)
         (trace w1 ++ [Log INFO (lit "Cache hit: Using cached translation for page "
                                 ++ str_of_int (pn + 1));
                       UiStatus (lit "Using cached translation for page "
                                 ++ str_of_int (pn + 1));
                       UiProgress (i + 1) total]))
  | (Ok None, w1) =>
      match translate_page_miss E doc pn tr rgb key w1 with
      | (Ok new_doc, w2) =>
          (Ok (new_doc, false),
           World (heap w2) (fs w2)
             (trace w2 ++ [Log INFO (lit "Cached new translation for page "
                                     ++ str_of_int (pn + 1));
                           UiProgress (i + 1) total]))
      | (Raise e, w2) => (Raise e, w2)
      end
  | (Raise e, w1) => (Raise e, w1)
  end.
Proof.
  intros Hd Hpn Hp Hkey Htot. pose proof (lookup_lt_Some _ _ _ Hp) as Hlt.
  unfold translate_page, doc_getitem, get_text_text, load.
  do 2 mstep.
  replace (pn <? Z.of_nat (length (doc_pages d))) with true
    by (symmetry; apply Z.ltb_lt; lia).
  replace (0 <? Z.of_nat (length (doc_pages d))) with true
    by (symmetry; apply Z.ltb_lt; lia).
  cbn [andb]. rewrite Z.mod_small by lia.
  mstep. cbn [fst snd]. mstep. rewrite Hp. do 3 mstep. rewrite Hkey.
  mstep.
  cbv zeta.
  replace (total =? 0) with false by (symmetry; apply Z.eqb_neq; exact Htot).
  unfold bind at 1.
  destruct (get_cached_translation key _) as [[[cached|]|e] w1]; [| |reflexivity].
  - unfold logging. do 4 mstep. unfold ret. rewrite <- !app_assoc. reflexivity.
  - rewrite bind_assoc. unfold bind at 1.
    destruct (translate_page_miss E doc pn tr rgb key w1) as [[new_doc|e] w2];
      [|reflexivity].
    unfold logging. do 3 mstep. unfold ret. rewrite <- !app_assoc. reflexivity.
Qed.

(** A page whose key names a PDF of the cache: the file is loaded into a
    new document object and nothing else happens. *)
Lemma translate_page_hit E doc d total tr rgb tn tl i pn p key dc w :
  heap w !! doc = Some d -> 0 <= pn -> doc_pages d !! Z.to_nat pn = Some p ->
  get_cache_key (doc_metadata d) pn tn tl (pg_text p) = Ok key ->
  total <> 0 ->
  fs w !! key = Some (PdfFile dc) ->
  translate_page E doc total tr rgb tn tl i pn w
  = (Ok (length (heap w), true),
     World (heap w ++ [dc]) (fs w) (trace w ++ hit_events key i pn total)).
Proof.
  intros Hd Hpn Hp Hkey Htot Hfs.
  rewrite (translate_page_eq E doc d total tr rgb tn tl i pn p key w) by assumption.
  cbv zeta. rewrite get_cached_translation_eq. cbn [heap fs trace]. rewrite Hfs.
  cbn [heap fs trace]. unfold hit_events. rewrite <- !app_assoc. reflexivity.
Qed.

Lemma pdf_stable_refl m : pdf_stable m m.
Proof. intros k x H. exact H. Qed.

Lemma pdf_stable_trans m1 m2 m3 :
  pdf_stable m1 m2 -> pdf_stable m2 m3 -> pdf_stable m1 m3.
Proof. intros H1 H2 k x H. apply H2, H1, H. Qed.

Lemma pdf_stable_insert m k f :
  (forall x, m !! k <> Some (PdfFile x)) -> pdf_stable m (<[k := f]> m).
Proof.
  intros Hk k' x H. destruct (decide (k = k')) as [<-|Hne].
  - exfalso. exact (Hk x H).
  - rewrite lookup_insert_ne by exact Hne. exact H.
Qed.

(** A page whose key names no PDF of the cache, however its processing
    ends: one new document object, the copy of the page with what was
    drawn on it; the cache directory changes at most at the key; when the
    page completes, the copy is what the cache holds under the key, and
    the blocks were handled one after the other. *)
Lemma translate_page_miss_run E doc d total tr rgb tn tl i pn p key w r w' :
  translator_ok tr ->
  heap w !! doc = Some d -> 0 <= pn -> doc_pages d !! Z.to_nat pn = Some p ->
  get_cache_key (doc_metadata d) pn tn tl (pg_text p) = Ok key ->
  total <> 0 ->
  (forall x, fs w !! key <> Some (PdfFile x)) ->
  translate_page E doc total tr rgb tn tl i pn w = (r, w') ->
  exists ops evs,
    let di := Document ∅ [Page (pg_text p) (pg_blocks p) (pg_drawn p ++ ops)] in
    heap w' = heap w ++ [di]
    /\ trace w' = trace w ++ evs
    /\ pdf_stable (fs w) (fs w')
    /\ (forall k, k <> key -> fs w' !! k = fs w !! k)
    /\ match r with
       | Ok (id, hit) =>
           id = length (heap w) /\ hit = false
           /\ fs w' = <[key := PdfFile di]> (fs w)
           /\ exists done,
                map fst done = pg_blocks p
                /\ ops = flat_map (block_ops (css_of rgb)) done
                /\ List.filter is_pipeline_event evs
                   = flat_map (block_events (length (heap w)) (css_of rgb)) done
       | Raise _ =>
           fs w' = fs w \/ exists partial, fs w' = <[key := partial]> (fs w)
       end.
Proof.
  intros Hok Hd Hpn Hp Hkey Htot Hmiss H.
  rewrite (translate_page_eq E doc d total tr rgb tn tl i pn p key w) in H by assumption.
  cbv zeta in H. rewrite get_cached_translation_eq in H. cbn [heap fs trace] in H.
  set (st := UiStatus (lit "Translating page " ++ str_of_int (pn + 1) ++ lit "...")) in *.
  assert (exists evs0, 
    match translate_page_miss E doc pn tr rgb key
            (World (heap w) (fs w) (trace w ++ evs0)) with
    | (Ok new_doc, w2) =>
        (Ok (new_doc, false),
         World (heap w2) (fs w2)
           (trace w2 ++ [Log INFO (lit "Cached new translation for page "
                                   ++ str_of_int (pn + 1));
                         UiProgress (i + 1) total]))
    | (Raise e, w2) => (Raise e, w2)
    end = (r, w')
    /\ List.filter is_pipeline_event evs0 = [])
    as (evs0 & H' & Hpipe0).
  { destruct (fs w !! key) as [[x|why]|] eqn:Hfs.
    - exfalso. exact (Hmiss x eq_refl).
    - rewrite <- app_assoc in H. eexists. split; [exact H|]. reflexivity.
    - rewrite <- app_assoc in H. eexists. split; [exact H|]. reflexivity. }
  clear H. rename H' into H.
  rewrite (translate_page_miss_eq E doc d pn p tr rgb key) in H by assumption.
  cbv zeta in H. cbn [heap fs trace] in H.
  set (id := length (heap w)) in *.
  set (w1 := World (heap w ++ [Document ∅ [p]]) (fs w) _) in H.
  assert (Hd1 : heap w1 !! id = Some (Document ∅ [p])) by apply lookup_at_end.
  destruct (translate_blocks E tr (id, 0%nat) rgb (pg_blocks p) w1) as [rb w2] eqn:Hb.
  destruct (translate_blocks_run E tr id ∅ rgb Hok _ _ _ _ _ Hd1 Hb)
    as (done & ops & evs & Hw2 & Hall & Hr).
  assert (Hheap2 : heap w2 = heap w ++ [Document ∅ [Page (pg_text p) (pg_blocks p)
                                                     (pg_drawn p ++ ops)]]).
  { rewrite Hw2. unfold drawn_world, w1, id. cbn [heap]. apply insert_at_end. }
  assert (Hfs2 : fs w2 = fs w) by (rewrite Hw2; reflexivity).
  set (pre := [Log INFO (lit "Cache miss: Translating page " ++ str_of_int (pn + 1));
               UiStatus (lit "Translating page " ++ str_of_int (pn + 1)
                         ++ lit " (not in cache)")]) in *.
  assert (Hpre : List.filter is_pipeline_event pre = []) by reflexivity.
  assert (Htr2 : trace w2 = trace w ++ evs0 ++ pre ++ evs).
  { rewrite Hw2. unfold drawn_world, w1. cbn [trace]. rewrite <- !app_assoc. reflexivity. }
  exists ops. destruct rb as [[]|e].
  2:{ injection H as <- <-. exists (evs0 ++ pre ++ evs). cbv zeta.
      split; [exact Hheap2|]. split; [exact Htr2|]. rewrite Hfs2.
      split; [apply pdf_stable_refl|]. split; [reflexivity|].
      left. reflexivity. }
  destruct Hr as (Hm & Hops & Hpipe).
  rewrite (save_translation_cache_eq E id
             (Document ∅ [Page (pg_text p) (pg_blocks p) (pg_drawn p ++ ops)]) key w2)
    in H by (rewrite Hheap2; apply lookup_at_end).
  set (post := [Log INFO (lit "Cached new translation for page " ++ str_of_int (pn + 1));
                UiProgress (i + 1) total]) in *.
  destruct (file_save E (trace w2 ++ [Mkdir]) key) as [|e [partial|]].
  - injection H as <- <-. cbn [heap fs trace].
    exists (evs0 ++ pre ++ evs ++ [Mkdir; FileSave key id] ++ post). cbv zeta.
    split; [exact Hheap2|].
    split; [rewrite Htr2, <- !app_assoc; reflexivity|]. rewrite Hfs2.
    split; [apply pdf_stable_insert, Hmiss|].
    split; [intros k Hk; apply lookup_insert_ne; congruence|].
    split; [reflexivity|]. split; [reflexivity|]. split; [reflexivity|].
    exists done. split; [exact Hm|]. split; [exact Hops|].
    rewrite !List.filter_app, Hpipe0, Hpre, Hpipe.
    change (List.filter is_pipeline_event post) with (@nil event).
    cbn [List.filter is_pipeline_event app]. rewrite app_nil_r. reflexivity.
  - injection H as <- <-. cbn [heap fs trace].
    exists (evs0 ++ pre ++ evs ++ [Mkdir; FileSave key id]). cbv zeta.
    split; [exact Hheap2|].
    split; [rewrite Htr2, <- !app_assoc; reflexivity|]. rewrite Hfs2.
    split; [apply pdf_stable_insert, Hmiss|].
    split; [intros k Hk; apply lookup_insert_ne; congruence|].
    right. exists partial. reflexivity.
  - injection H as <- <-. cbn [heap fs trace].
    exists (evs0 ++ pre ++ evs ++ [Mkdir; FileSave key id]). cbv zeta.
    split; [exact Hheap2|].
    split; [rewrite Htr2, <- !app_assoc; reflexivity|]. rewrite Hfs2.
    split; [apply pdf_stable_refl|]. split; [reflexivity|].
    left. reflexivity.
Qed.

Lemma page_key_Some d tn tl pn key :
  page_key d tn tl pn = Some key <->
  exists p, doc_pages d !! Z.to_nat pn = Some p
            /\ get_cache_key (doc_metadata d) pn tn tl (pg_text p) = Ok key.
Proof.
  unfold page_key. split.
  - destruct (doc_pages d !! Z.to_nat pn) as [p|]; [|discriminate].
    destruct (get_cache_key _ _ _ _ _) as [k|e] eqn:Hk; [|discriminate].
    intros [= <-]. eauto.
  - intros (p & -> & ->). reflexivity.
Qed.

Lemma in_range_lookup d item :
  in_range d item -> exists p, doc_pages d !! Z.to_nat (snd item) = Some p.
Proof.
  intros [H0 H1]. apply lookup_lt_is_Some. lia.
Qed.

(** A page whose text does not encode: the key computation raises and
    nothing but the status line has happened. *)
Lemma translate_page_key_raise E doc d total tr rgb tn tl i pn p e w :
  heap w !! doc = Some d -> 0 <= pn -> doc_pages d !! Z.to_nat pn = Some p ->
  get_cache_key (doc_metadata d) pn tn tl (pg_text p) = Raise e ->
  translate_page E doc total tr rgb tn tl i pn w
  = (Raise e,
     World (heap w) (fs w)
       (trace w ++ [UiStatus (lit "Translating page " ++ str_of_int (pn + 1)
                              ++ lit "...")])).
Proof.
  intros Hd Hpn Hp Hkey. pose proof (lookup_lt_Some _ _ _ Hp) as Hlt.
  unfold translate_page, doc_getitem, get_text_text, load.
  do 2 mstep.
  replace (pn <? Z.of_nat (length (doc_pages d))) with true
    by (symmetry; apply Z.ltb_lt; lia).
  replace (0 <? Z.of_nat (length (doc_pages d))) with true
    by (symmetry; apply Z.ltb_lt; lia).
  cbn [andb]. rewrite Z.mod_small by lia.
  mstep. cbn [fst snd]. mstep. rewrite Hp. do 3 mstep. rewrite Hkey.
  reflexivity.
Qed.

Lemma cache_single_page_insert m k d :
  cache_single_page m -> length (doc_pages d) = 1%nat ->
  cache_single_page (<[k := PdfFile d]> m).
Proof.
  intros Hm Hd k' x. destruct (decide (k = k')) as [<-|Hne].
  - rewrite lookup_insert_eq. intros [= <-]. exact Hd.
  - rewrite lookup_insert_ne by exact Hne. apply Hm.
Qed.

(** One iteration of the page loop, however it ends. *)
Lemma translate_page_run E doc d total tr rgb tn tl item w r w' :
  translator_ok tr ->
  heap w !! doc = Some d -> in_range d item -> total <> 0 ->
  translate_page E doc total tr rgb tn tl (fst item) (snd item) w = (r, w') ->
  exists hs evs,
    heap w' = heap w ++ hs
    /\ trace w' = trace w ++ evs
    /\ pdf_stable (fs w) (fs w')
    /\ (cache_single_page (fs w) ->
        Forall (fun x => length (doc_pages x) = 1%nat) hs
        /\ forall a, r = Ok a -> cache_single_page (fs w'))
    /\ match r with
       | Ok (id, hit) =>
           id = length (heap w)
           /\ exists key di,
                page_key d tn tl (snd item) = Some key
                /\ hs = [di]
                /\ fs w' !! key = Some (PdfFile di)
                /\ (hit = true -> fs w' = fs w
                                  /\ Forall (fun e => is_translation_work e = false) evs)
                /\ (hit = false -> forall x, fs w !! key <> Some (PdfFile x))
       | Raise _ => True
       end.
Proof.
  intros Hok Hd Hin Htot H. destruct item as [i pn]. cbn [fst snd] in *.
  destruct (in_range_lookup d (i, pn) Hin) as [p Hp]. cbn [snd] in Hp.
  destruct Hin as [Hpn _]. cbn [snd] in Hpn.
  destruct (get_cache_key (doc_metadata d) pn tn tl (pg_text p)) as [key|e] eqn:Hkey.
  2:{ rewrite (translate_page_key_raise E doc d total tr rgb tn tl i pn p e w) in H
        by assumption.
      injection H as <- <-. eexists [], [_]. cbn [heap fs trace].
      rewrite app_nil_r. split; [reflexivity|]. split; [reflexivity|].
      split; [apply pdf_stable_refl|]. split; [|exact I].
      intros Hc. split; [constructor|discriminate]. }
  assert (Hpk : page_key d tn tl pn = Some key) by (apply page_key_Some; eauto).
  assert (Hcases : (exists dc, fs w !! key = Some (PdfFile dc))
                   \/ (forall x, fs w !! key <> Some (PdfFile x))).
  { destruct (fs w !! key) as [[dc|why]|]; [left; eauto|right; discriminate..]. }
  destruct Hcases as [[dc Hfs]|Hmiss].
  - rewrite (translate_page_hit E doc d total tr rgb tn tl i pn p key dc w) in H
      by assumption.
    injection H as <- <-. exists [dc], (hit_events key i pn total). cbn [heap fs trace].
    split; [reflexivity|]. split; [reflexivity|]. split; [apply pdf_stable_refl|].
    split.
    { intros Hc. split; [|intros _ _; exact Hc].
      constructor; [|constructor]. exact (Hc _ _ Hfs). }
    split; [reflexivity|]. exists key, dc. split; [exact Hpk|].
    split; [reflexivity|]. split; [exact Hfs|]. split; [|discriminate].
    intros _. split; [reflexivity|]. repeat constructor.
  - destruct (translate_page_miss_run E doc d total tr rgb tn tl i pn p key w r w'
                Hok Hd Hpn Hp Hkey Htot Hmiss H)
      as (ops & evs & Hh & Ht & Hst & Hoth & Hr).
    cbv zeta in *. eexists [_], evs.
    split; [exact Hh|]. split; [exact Ht|]. split; [exact Hst|]. split.
    { intros Hc. split; [repeat constructor|].
      intros [id hit] ->. destruct Hr as (_ & _ & -> & _).
      apply cache_single_page_insert; auto. }
    destruct r as [[id hit]|e0]; [|exact I].
    destruct Hr as (-> & -> & Hfs' & _). split; [reflexivity|].
    eexists key, _. split; [exact Hpk|]. split; [reflexivity|].
    split; [rewrite Hfs'; apply lookup_insert_eq|]. split; [discriminate|].
    intros _. exact Hmiss.
Qed.

(** ** The page loop *)

(** Every run of the page loop, however it ends: document objects are only
    added, the PDFs of the cache stay, and when the loop completes, the
    pages returned are the new document objects, one per page number and in
    the order of the page numbers, each being what the cache holds under
    the key of its page. *)
Lemma page_loop_run E doc d total tr rgb tn tl :
  translator_ok tr -> total <> 0 ->
  forall items acc hits w r w',
    heap w !! doc = Some d -> Forall (in_range d) items ->
    page_loop E doc total tr rgb tn tl items acc hits w = (r, w') ->
    exists hs evs,
      heap w' = heap w ++ hs
      /\ trace w' = trace w ++ evs
      /\ pdf_stable (fs w) (fs w')
      /\ (cache_single_page (fs w) ->
          Forall (fun x => length (doc_pages x) = 1%nat) hs
          /\ forall a, r = Ok a -> cache_single_page (fs w'))
      /\ match r with
         | Ok (pages, _) =>
             pages = acc ++ seq (length (heap w)) (length items)
             /\ length hs = length items
             /\ forall j item,
                  items !! j = Some item ->
                  exists key di,
                    page_key d tn tl (snd item) = Some key
                    /\ hs !! j = Some di
                    /\ fs w' !! key = Some (PdfFile di)
         | Raise _ => True
         end.
Proof.
  intros Hok Htot. induction items as [|[i pn] rest IH]; intros acc hits w r w' Hd Hin H.
  - cbn in H. injection H as <- <-. exists [], []. rewrite !app_nil_r.
    split; [reflexivity|]. split; [reflexivity|]. split; [apply pdf_stable_refl|].
    split; [intros Hc; split; [constructor|intros _ _; exact Hc]|].
    split; [reflexivity|]. split; [reflexivity|]. intros j item Hj. discriminate Hj.
  - cbn [page_loop] in H. inversion Hin as [|? ? Hin1 Hin2]; subst.
    apply bind_inv in H as [([id hit] & w1 & Hp & H) | (e & Hp & ->)];
      destruct (translate_page_run E doc d total tr rgb tn tl (i, pn) _ _ _
                  Hok Hd Hin1 Htot Hp) as (hs1 & evs1 & Hh1 & Ht1 & Hs1 & Hc1 & Hr1).
    2:{ exists hs1, evs1. split; [exact Hh1|]. split; [exact Ht1|].
        split; [exact Hs1|]. split; [|exact I].
        intros Hc. split; [apply (Hc1 Hc)|discriminate]. }
    destruct Hr1 as (-> & key & di & Hpk & -> & Hfs1 & _).
    assert (Hd1 : heap w1 !! doc = Some d).
    { rewrite Hh1. rewrite lookup_app_l by eauto using lookup_lt_Some. exact Hd. }
    cbn [fst snd] in H.
    destruct (IH _ _ _ _ _ Hd1 Hin2 H) as (hs2 & evs2 & Hh2 & Ht2 & Hs2 & Hc2 & Hr2).
    exists ([di] ++ hs2), (evs1 ++ evs2).
    split; [rewrite Hh2, Hh1, app_assoc; reflexivity|].
    split; [rewrite Ht2, Ht1, app_assoc; reflexivity|].
    split; [eapply pdf_stable_trans; eassumption|].
    split.
    { intros Hc. destruct (Hc1 Hc) as [Hf1 Hc'].
      destruct (Hc2 (Hc' _ eq_refl)) as [Hf2 Hc''].
      split; [apply Forall_app; auto|exact Hc'']. }
    destruct r as [[pages hits']|e]; [|exact I].
    destruct Hr2 as (-> & Hlen & Hitems).
    split.
    { rewrite Hh1, length_app. cbn [length seq].
      rewrite <- app_assoc, Nat.add_1_r. reflexivity. }
    split; [cbn [length app]; rewrite Hlen; reflexivity|].
    intros [|j] item Hj.
    + injection Hj as <-. exists key, di. split; [exact Hpk|]. split; [reflexivity|].
      apply Hs2, Hfs1.
    + apply Hitems in Hj as (key' & di' & Hk' & Hl' & Hf'). eauto.
Qed.

(** The page loop over pages whose keys all name PDFs of the cache: every
    page is served from the cache; nothing is submitted, drawn or saved. *)
Lemma page_loop_hits E doc d total tr rgb tn tl :
  total <> 0 ->
  forall items acc hits w,
    heap w !! doc = Some d ->
    Forall (fun item =>
              in_range d item
              /\ exists key dc, page_key d tn tl (snd item) = Some key
                                /\ fs w !! key = Some (PdfFile dc)) items ->
    exists hs evs,
      page_loop E doc total tr rgb tn tl items acc hits w
      = (Ok (acc ++ seq (length (heap w)) (length items),
             hits + Z.of_nat (length items)),
         World (heap w ++ hs) (fs w) (trace w ++ evs))
      /\ Forall (fun e => is_translation_work e = false) evs
      /\ length hs = length items
      /\ forall j item,
           items !! j = Some item ->
           exists key di, page_key d tn tl (snd item) = Some key
                          /\ hs !! j = Some di
                          /\ fs w !! key = Some (PdfFile di).
Proof.
  intros Htot. induction items as [|[i pn] rest IH]; intros acc hits w Hd Hall.
  - exists [], []. cbn [page_loop length seq]. unfold ret.
    rewrite !app_nil_r, Z.add_0_r, world_eta.
    split; [reflexivity|]. split; [constructor|]. split; [reflexivity|].
    intros j item Hj. discriminate Hj.
  - inversion Hall as [|? ? [Hin (key & dc & Hpk & Hfs)] Hall']; subst.
    cbn [snd] in *. apply page_key_Some in Hpk as Hpk'. destruct Hpk' as (p & Hp & Hkey).
    destruct Hin as [Hpn Hlt]. cbn [snd] in Hpn.
    cbn [page_loop].
    erewrite bind_Ok
      by (apply (translate_page_hit E doc d total tr rgb tn tl i pn p key dc w);
          assumption).
    cbn [fst snd].
    set (w1 := World (heap w ++ [dc]) (fs w) (trace w ++ hit_events key i pn total)).
    assert (Hd1 : heap w1 !! doc = Some d).
    { cbn [w1 heap]. rewrite lookup_app_l by eauto using lookup_lt_Some. exact Hd. }
    destruct (IH (acc ++ [length (heap w)]) (hits + 1) w1 Hd1 Hall')
      as (hs & evs & Hrun & Hevs & Hlen & Hitems).
    exists (dc :: hs), (hit_events key i pn total ++ evs).
    split.
    { rewrite Hrun. cbn [w1 heap fs trace length seq].
      rewrite length_app, Nat.add_1_r, <- !app_assoc. cbn [length app].
      replace (hits + Z.of_nat (S (length rest)))
        with (hits + 1 + Z.of_nat (length rest)) by lia.
      reflexivity. }
    split; [apply Forall_app; split; [repeat constructor|exact Hevs]|].
    split; [cbn [length]; rewrite Hlen; reflexivity|].
    intros [|j] item Hj.
    + injection Hj as <-. exists key, dc. cbn [snd]. auto.
    + apply Hitems in Hj as (key' & di' & Hk' & Hl' & Hf'). eauto.
Qed.

(** With a translator that answers, a library that draws and a disk that
    takes the file, a page whose text encodes completes. *)
Lemma translate_page_total E doc d total tr rgb tn tl item w :
  translator_ok tr -> translator_total tr ->
  (forall h op, page_draw E h op = None) ->
  (forall h k, file_save E h k = Saved) ->
  heap w !! doc = Some d -> in_range d item -> has_key d tn tl item -> total <> 0 ->
  exists id hit w',
    translate_page E doc total tr rgb tn tl (fst item) (snd item) w = (Ok (id, hit), w').
Proof.
  intros Hok Htt Hdraw Hsave Hd [Hpn Hlt] [key Hpk] Htot.
  destruct item as [i pn]. cbn [fst snd] in *.
  apply page_key_Some in Hpk as (p & Hp & Hkey).
  assert (Hcases : (exists dc, fs w !! key = Some (PdfFile dc))
                   \/ (forall x, fs w !! key <> Some (PdfFile x))).
  { destruct (fs w !! key) as [[dc|why]|]; [left; eauto|right; discriminate..]. }
  destruct Hcases as [[dc Hfs]|Hmiss].
  { do 3 eexists.
    apply (translate_page_hit E doc d total tr rgb tn tl i pn p key dc w); assumption. }
  rewrite (translate_page_eq E doc d total tr rgb tn tl i pn p key w) by assumption.
  cbv zeta. rewrite get_cached_translation_eq. cbn [heap fs trace].
  assert (Hgo : forall evs0, exists id w',
    match translate_page_miss E doc pn tr rgb key
            (World (heap w) (fs w) (trace w ++ evs0)) with
    | (Ok new_doc, w2) =>
        (Ok (new_doc, false),
         World (heap w2) (fs w2)
           (trace w2 ++ [Log INFO (lit "Cached new translation for page "
                                   ++ str_of_int (pn + 1));
                         UiProgress (i + 1) total]))
    | (Raise e, w2) => (Raise e, w2)
    end = (Ok (id, false), w')).
  { intros evs0.
    rewrite (translate_page_miss_eq E doc d pn p tr rgb key) by assumption.
    cbv zeta. cbn [heap fs trace].
    match goal with
    | |- context [translate_blocks E tr _ rgb _ ?w1] =>
        destruct (translate_blocks_total E tr (length (heap w)) ∅ rgb (pg_blocks p) p w1
                    Hok Htt Hdraw (lookup_at_end _ _))
          as (done & evs & _ & -> & _)
    end.
    erewrite save_translation_cache_eq by (apply drawn_world_lookup, lookup_at_end).
    rewrite Hsave. eauto. }
  destruct (fs w !! key) as [[dc|why]|] eqn:Hfs.
  - exfalso. exact (Hmiss dc eq_refl).
  - rewrite <- app_assoc.
    match goal with
    | |- context [translate_page_miss _ _ _ _ _ _ (World _ _ (trace w ++ ?evs0))] =>
        destruct (Hgo evs0) as (id & w' & ->)
    end. eauto.
  - rewrite <- app_assoc.
    match goal with
    | |- context [translate_page_miss _ _ _ _ _ _ (World _ _ (trace w ++ ?evs0))] =>
        destruct (Hgo evs0) as (id & w' & ->)
    end. eauto.
Qed.

Lemma page_loop_total E doc d total tr rgb tn tl :
  translator_ok tr -> translator_total tr ->
  (forall h op, page_draw E h op = None) ->
  (forall h k, file_save E h k = Saved) ->
  total <> 0 ->
  forall items acc hits w,
    heap w !! doc = Some d ->
    Forall (in_range d) items -> Forall (has_key d tn tl) items ->
    exists pages hits' w',
      page_loop E doc total tr rgb tn tl items acc hits w = (Ok (pages, hits'), w').
Proof.
  intros Hok Htt Hdraw Hsave Htot.
  induction items as [|[i pn] rest IH]; intros acc hits w Hd Hin Hkey.
  - cbn. unfold ret. eauto.
  - inversion Hin; subst. inversion Hkey; subst.
    destruct (translate_page_total E doc d total tr rgb tn tl (i, pn) w)
      as (id & hit & w1 & Hrun); try assumption.
    destruct (translate_page_run E doc d total tr rgb tn tl (i, pn) _ _ _
                Hok Hd ltac:(assumption) Htot Hrun) as (hs & _ & Hh & _).
    cbn [page_loop]. cbn [fst snd] in Hrun. rewrite (bind_Ok _ _ _ _ _ Hrun).
    apply IH; try assumption.
    rewrite Hh, lookup_app_l by eauto using lookup_lt_Some. exact Hd.
Qed.

(** The page loop appends one entry per page number, whatever the pages
    are. *)
Lemma page_loop_length E doc total tr rgb tn tl :
  forall items acc hits w pages hits' w',
    page_loop E doc total tr rgb tn tl items acc hits w = (Ok (pages, hits'), w') ->
    length pages = (length acc + length items)%nat.
Proof.
  induction items as [|[i pn] rest IH]; intros acc hits w pages hits' w' H.
  - cbn in H. injection H as <- _ _. cbn. lia.
  - cbn [page_loop] in H.
    apply bind_inv in H as [(r & w1 & _ & H) | (e & _ & Hr)]; [|discriminate].
    apply IH in H. rewrite H, length_app. cbn [length]. lia.
Qed.

(** ** The whole call *)

(** [translate_pdf_pages] is the page loop over the range, between the
    opening and the closing reports. *)
Lemma translate_pdf_pages_eq E doc d db start num tr text_color tn tl w :
  heap w !! doc = Some d ->
  translate_pdf_pages E doc db start num tr text_color tn tl w =
  let stop := Z.min (start + num) (Z.of_nat (length (doc_pages d))) in
  match page_loop E doc (stop - start) tr (color_of text_color) tn tl
          (enumerate (py_range start stop)) [] 0
          (World (heap w) (fs w) (trace w ++ start_events tr tn)) with
  | (Ok (pages, hits), w1) =>
      (Ok pages, World (heap w1) (fs w1) (trace w1 ++ end_events hits (stop - start)))
  | (Raise e, w1) => (Raise e, w1)
  end.
Proof.
  intros Hd. unfold translate_pdf_pages, page_count, logging.
  repeat mstep. rewrite <- !app_assoc. cbn [app].
  fold (color_of text_color). fold (start_events tr tn).
  cbv zeta. unfold bind at 1.
  destruct (page_loop _ _ _ _ _ _ _ _ _ _ _) as [[[pages hits]|e] w1]; [|reflexivity].
  cbn [fst snd]. unfold end_events.
  destruct (0 <? hits); mred; rewrite <- ?app_assoc; reflexivity.
Qed.

Lemma enumerate_lookup {A} (l : list A) j :
  enumerate l !! j = (fun x => (Z.of_nat j, x)) <$> l !! j.
Proof. unfold enumerate. rewrite list_lookup_imap. reflexivity. Qed.

Lemma enumerate_length {A} (l : list A) : length (enumerate l) = length l.
Proof. unfold enumerate. apply length_imap. Qed.

Lemma py_range_lookup a b j x :
  py_range a b !! j = Some x <-> x = a + Z.of_nat j /\ (j < Z.to_nat (b - a))%nat.
Proof.
  unfold py_range. change (map ?f ?l) with (f <$> l).
  rewrite list_lookup_fmap. split.
  - destruct (seq 0 (Z.to_nat (b - a)) !! j) as [k|] eqn:Hk; [|discriminate].
    apply lookup_seq in Hk as [-> Hlt]. cbn. intros [= <-]. auto.
  - intros [-> Hlt]. rewrite (lookup_seq_lt _ _ _ Hlt). reflexivity.
Qed.

(** From a non-negative start, the page numbers of the loop are pages of
    the document. *)
Lemma range_in_range d start num :
  0 <= start ->
  Forall (in_range d)
    (enumerate (py_range start (Z.min (start + num) (Z.of_nat (length (doc_pages d)))))).
Proof.
  intros Hs. apply Forall_lookup. intros j [i pn] Hj.
  rewrite enumerate_lookup in Hj.
  destruct (py_range _ _ !! j) as [x|] eqn:Hx; [|discriminate].
  injection Hj as <- <-. apply py_range_lookup in Hx as [-> Hlt].
  unfold in_range. cbn [snd]. lia.
Qed.

Lemma range_length start num n :
  length (enumerate (py_range start (Z.min (start + num) n)))
  = expected_count n start num.
Proof.
  rewrite enumerate_length, py_range_length. unfold expected_count. lia.
Qed.

(** Every call from a non-negative start page, however it ends: document
    objects are only added and the PDFs of the cache stay; when it returns,
    the result is the new document objects in the order of creation, one
    for each page of the range that exists, each holding what the cache
    holds under the key of its page. *)
Lemma translate_pdf_pages_run E doc d db start num tr text_color tn tl w r w' :
  translator_ok tr -> heap w !! doc = Some d -> 0 <= start ->
  translate_pdf_pages E doc db start num tr text_color tn tl w = (r, w') ->
  let count := expected_count (Z.of_nat (length (doc_pages d))) start num in
  exists hs evs,
    heap w' = heap w ++ hs
    /\ trace w' = trace w ++ evs
    /\ pdf_stable (fs w) (fs w')
    /\ (cache_single_page (fs w) ->
        Forall (fun x => length (doc_pages x) = 1%nat) hs
        /\ forall a, r = Ok a -> cache_single_page (fs w'))
    /\ match r with
       | Ok pages =>
           pages = seq (length (heap w)) count
           /\ length hs = count
           /\ forall j, (j < count)%nat ->
                exists key di,
                  page_key d tn tl (start + Z.of_nat j) = Some key
                  /\ hs !! j = Some di
                  /\ fs w' !! key = Some (PdfFile di)
       | Raise _ => True
       end.
Proof.
  intros Hok Hd Hs H count.
  rewrite (translate_pdf_pages_eq E doc d) in H by exact Hd. cbv zeta in H.
  set (n := Z.of_nat (length (doc_pages d))) in *.
  set (stop := Z.min (start + num) n) in *.
  set (w0 := World (heap w) (fs w) (trace w ++ start_events tr tn)) in *.
  pose proof (range_in_range d start num Hs) as Hin. fold n stop in Hin.
  pose proof (range_length start num n) as Hlen. fold stop count in Hlen.
  destruct (page_loop E doc (stop - start) tr (color_of text_color) tn tl
              (enumerate (py_range start stop)) [] 0 w0) as [rl w1] eqn:Hloop.
  destruct (decide (stop <= start)) as [Hempty|Hne].
  - rewrite py_range_nil in Hloop, Hlen by exact Hempty.
    cbn in Hloop. injection Hloop as <- <-. injection H as <- <-.
    change (length (@enumerate Z [])) with 0%nat in Hlen. rewrite <- Hlen.
    exists [], (start_events tr tn ++ end_events 0 (stop - start)).
    cbn [heap fs trace w0 seq length]. rewrite app_nil_r, <- app_assoc.
    split; [reflexivity|]. split; [reflexivity|]. split; [apply pdf_stable_refl|].
    split; [intros Hc; split; [constructor|intros _ _; exact Hc]|].
    split; [reflexivity|]. split; [reflexivity|]. intros j Hj. lia.
  - assert (Htot : stop - start <> 0) by lia.
    destruct (page_loop_run E doc d (stop - start) tr (color_of text_color) tn tl
                Hok Htot _ _ _ w0 _ _ Hd Hin Hloop)
      as (hs & evs & Hh & Ht & Hst & Hc & Hr).
    destruct rl as [[pages hits]|e]; injection H as <- <-; cbn [heap fs trace].
    + exists hs, (start_events tr tn ++ evs ++ end_events hits (stop - start)).
      split; [exact Hh|].
      split; [rewrite Ht; cbn [w0 trace]; rewrite <- !app_assoc; reflexivity|].
      split; [exact Hst|].
      split; [intros Hc0; destruct (Hc Hc0) as [Hf Hc1]; split;
              [exact Hf|intros _ _; exact (Hc1 _ eq_refl)]|].
      destruct Hr as (-> & Hl & Hitems). rewrite Hlen in *. cbn [app w0 heap].
      split; [reflexivity|]. split; [exact Hl|].
      intros j Hj.
      apply (Hitems j (Z.of_nat j, start + Z.of_nat j)).
      rewrite enumerate_lookup.
      replace (py_range start stop !! j) with (Some (start + Z.of_nat j)); [reflexivity|].
      symmetry. apply py_range_lookup. split; [reflexivity|].
      rewrite <- py_range_length, <- enumerate_length. lia.
    + exists hs, (start_events tr tn ++ evs).
      split; [exact Hh|].
      split; [rewrite Ht; cbn [w0 trace]; rewrite <- !app_assoc; reflexivity|].
      split; [exact Hst|]. split; [|exact I].
      intros Hc0. split; [apply (Hc Hc0)|discriminate].
Qed.

(** ** The translators of the sources are translators *)

Lemma ChatGptTranslator_ok E t : translator_ok (translator_of_ChatGpt E t).
Proof.
  intros text w r w'. cbn [tr_translate translator_of_ChatGpt].
  unfold ChatGptTranslator_translate. intros [= <- <-]. cbn [heap fs trace].
  split; [reflexivity|]. split; [reflexivity|].
  eexists. split; [reflexivity|]. repeat constructor.
Qed.

(** The retry loop never raises: it returns the answer of the capability,
    or the text, or [None] when there is no attempt to make. *)
Lemma retry_loop_returns E self text :
  forall attempts w,
    exists v evs,
      retry_loop E self text attempts w
      = (Ok v, World (heap w) (fs w) (trace w ++ evs))
      /\ Forall (fun e => is_translator_event e = true) evs.
Proof.
  induction attempts as [|attempt rest IH]; intros w.
  - exists VNone, []. cbn. unfold ret. rewrite app_nil_r, world_eta. auto.
  - cbn [retry_loop]. unfold try_except at 1, ChatGptTranslator_translate at 1.
    destruct (chat_completion E (trace w) _) as [v|e].
    + exists v, [ApiCall (chat_request (super self) text)]. split; [reflexivity|].
      repeat constructor.
    + destruct (is_JSONDecodeError e), (attempt =? retry_count self - 1); mred;
        try (eexists _, _; split; [rewrite <- !app_assoc; reflexivity|];
             repeat constructor);
        match goal with
        | |- context [retry_loop E self text rest ?w1] =>
            destruct (IH w1) as (v & evs & -> & Hevs)
        end; cbn [heap fs trace];
        (eexists _, _; split; [rewrite <- !app_assoc; reflexivity|]);
        repeat (constructor; [reflexivity|]); exact Hevs.
Qed.

Lemma OpenAICompatibleTranslator_returns E self text w :
  exists v evs,
    OpenAICompatibleTranslator_translate E self text w
    = (Ok v, World (heap w) (fs w) (trace w ++ evs))
    /\ Forall (fun e => is_translator_event e = true) evs.
Proof.
  unfold OpenAICompatibleTranslator_translate.
  destruct (negb (truthy (strip text))).
  - exists (VStr text), []. unfold ret. rewrite app_nil_r, world_eta. auto.
  - unfold bind at 1, logging, emit.
    match goal with
    | |- context [retry_loop E self text ?l ?w1] =>
        destruct (retry_loop_returns E self text l w1) as (v & evs & -> & Hevs)
    end. cbn [heap fs trace].
    eexists _, _. split; [rewrite <- !app_assoc; reflexivity|].
    constructor; [reflexivity|exact Hevs].
Qed.

Lemma OpenAICompatibleTranslator_ok E t :
  translator_ok (translator_of_OpenAICompatible E t).
Proof.
  intros text w r w' H. cbn [tr_translate translator_of_OpenAICompatible] in H.
  destruct (OpenAICompatibleTranslator_returns E t text w) as (v & evs & Hrun & Hevs).
  rewrite Hrun in H. injection H as <- <-. cbn [heap fs trace]. eauto.
Qed.

Lemma OpenAICompatibleTranslator_total E t :
  translator_total (translator_of_OpenAICompatible E t).
Proof.
  intros text w. cbn [tr_translate translator_of_OpenAICompatible].
  destruct (OpenAICompatibleTranslator_returns E t text w) as (v & evs & Hrun & _).
  eauto.
Qed.

(** ** Document objects that a statement leaves alone *)

Lemma keeps_ret n0 {A} (a : A) (Q : A -> Prop) : Q a -> keeps n0 (ret a) Q.
Proof. intros HQ w r w' Hn [= <- <-]. split; [exact Hn|]. split; [reflexivity|].
  intros a' [= <-]. exact HQ. Qed.

Lemma keeps_raise n0 {A} (e : exn) (Q : A -> Prop) : keeps n0 (raise e) Q.
Proof. intros w r w' Hn [= <- <-]. split; [exact Hn|]. split; [reflexivity|].
  intros a' [=]. Qed.

Lemma keeps_lift n0 {A} (x : res A) : keeps n0 (lift x) (fun _ => True).
Proof. intros w r w' Hn [= <- <-]. auto. Qed.

Lemma keeps_bind n0 {A B} (c : M A) (k : A -> M B) (P : A -> Prop) (Q : B -> Prop) :
  keeps n0 c P -> (forall a, P a -> keeps n0 (k a) Q) -> keeps n0 (bind c k) Q.
Proof.
  intros Hc Hk w r w' Hn H.
  apply bind_inv in H as [(a & w1 & Hrun & H) | (e & Hrun & ->)].
  - destruct (Hc _ _ _ Hn Hrun) as (Hn1 & Ht1 & HP).
    destruct (Hk a (HP a eq_refl) _ _ _ Hn1 H) as (Hn2 & Ht2 & HQ).
    split; [exact Hn2|]. split; [congruence|exact HQ].
  - destruct (Hc _ _ _ Hn Hrun) as (Hn1 & Ht1 & _).
    split; [exact Hn1|]. split; [exact Ht1|]. intros a [=].
Qed.

Lemma keeps_weaken n0 {A} (c : M A) (P Q : A -> Prop) :
  keeps n0 c P -> (forall a, P a -> Q a) -> keeps n0 c Q.
Proof.
  intros Hc HPQ w r w' Hn H. destruct (Hc _ _ _ Hn H) as (Hn1 & Ht1 & HP). auto.
Qed.

Lemma keeps_try_except n0 {A} (c : M A) (h : exn -> option (M A)) (Q : A -> Prop) :
  keeps n0 c Q -> (forall e k, h e = Some k -> keeps n0 k Q) ->
  keeps n0 (try_except c h) Q.
Proof.
  intros Hc Hh w r w' Hn H. unfold try_except in H.
  destruct (c w) as [[a|e] w1] eqn:Hrun.
  - injection H as <- <-. exact (Hc _ _ _ Hn Hrun).
  - destruct (Hc _ _ _ Hn Hrun) as (Hn1 & Ht1 & _).
    destruct (h e) as [k|] eqn:He.
    + destruct (Hh e k He _ _ _ Hn1 H) as (Hn2 & Ht2 & HQ).
      split; [exact Hn2|]. split; [congruence|exact HQ].
    + injection H as <- <-. split; [exact Hn1|]. split; [exact Ht1|]. intros a [=].
Qed.

Lemma keeps_emit n0 (e : event) : keeps n0 (emit e) (fun _ => True).
Proof. intros w r w' Hn [= <- <-]. auto. Qed.

Lemma keeps_deref n0 doc : keeps n0 (deref doc) (fun _ => True).
Proof.
  intros w r w' Hn H. unfold deref in H.
  destruct (heap w !! doc); injection H as <- <-; auto.
Qed.

Lemma keeps_path_exists n0 name : keeps n0 (path_exists name) (fun _ => True).
Proof. intros w r w' Hn [= <- <-]. auto. Qed.

Lemma keeps_open_new n0 : keeps n0 pymupdf_open_new (fun id => (n0 <= id)%nat).
Proof.
  intros w r w' Hn [= <- <-]. cbn [heap]. rewrite length_app.
  split; [lia|]. split; [apply take_app_le; exact Hn|]. intros a [= <-]. exact Hn.
Qed.

Lemma keeps_open_path n0 name :
  keeps n0 (pymupdf_open_path name) (fun id => (n0 <= id)%nat).
Proof.
  intros w r w' Hn H. unfold pymupdf_open_path in H.
  destruct (fs w !! name) as [[d|why]|]; injection H as <- <-; cbn [heap].
  - rewrite length_app. split; [lia|]. split; [apply take_app_le; exact Hn|].
    intros a [= <-]. exact Hn.
  - split; [exact Hn|]. split; [reflexivity|]. intros a [=].
  - split; [exact Hn|]. split; [reflexivity|]. intros a [=].
Qed.

Lemma keeps_same_heap n0 {A} (c : M A) :
  (forall w r w', c w = (r, w') -> heap w' = heap w) -> keeps n0 c (fun _ => True).
Proof.
  intros Hc w r w' Hn H. rewrite (Hc _ _ _ H). auto.
Qed.

Lemma keeps_get_cached_translation n0 key :
  keeps n0 (get_cached_translation key)
    (fun o => forall id, o = Some id -> (n0 <= id)%nat).
Proof.
  unfold get_cached_translation, get_cache_dir, logging.
  eapply keeps_bind; [apply keeps_emit|intros _ _].
  eapply keeps_bind; [apply keeps_path_exists|intros present _].
  destruct present.
  - apply keeps_try_except.
    + eapply keeps_bind; [apply keeps_open_path|intros id Hid].
      apply keeps_ret. intros id' [= <-]. exact Hid.
    + intros e k [= <-].
      eapply keeps_bind; [apply keeps_emit|intros _ _].
      apply keeps_ret. intros id [=].
  - apply keeps_ret. intros id [=].
Qed.

Lemma keeps_save_translation_cache n0 E doc key :
  keeps n0 (save_translation_cache E doc key) (fun _ => True).
Proof.
  unfold save_translation_cache, get_cache_dir, doc_save.
  eapply keeps_bind; [apply keeps_emit|intros _ _].
  eapply keeps_bind; [apply keeps_deref|intros d _].
  apply keeps_same_heap. intros w r w' H.
  destruct (file_save E (trace w) key) as [|e [partial|]]; injection H as <- <-;
    reflexivity.
Qed.

Lemma keeps_doc_getitem n0 doc pn :
  keeps n0 (doc_getitem doc pn) (fun pg => fst pg = doc).
Proof.
  unfold doc_getitem.
  eapply keeps_bind; [apply keeps_deref|intros d _].
  destruct (_ && _); [apply keeps_ret; reflexivity|apply keeps_raise].
Qed.

Lemma keeps_load n0 pg : keeps n0 (load pg) (fun _ => True).
Proof.
  unfold load. eapply keeps_bind; [apply keeps_deref|intros d _].
  destruct (doc_pages d !! snd pg); [apply keeps_ret; exact I|apply keeps_raise].
Qed.

Lemma keeps_insert_pdf n0 new_doc doc from_page to_page :
  (n0 <= new_doc)%nat -> keeps n0 (insert_pdf new_doc doc from_page to_page) (fun _ => True).
Proof.
  intros Hid. unfold insert_pdf.
  eapply keeps_bind; [apply keeps_deref|intros src _].
  eapply keeps_bind; [apply keeps_deref|intros dst _].
  intros w r w' Hn [= <- <-]. cbn [heap]. rewrite length_insert.
  split; [exact Hn|]. split; [apply take_insert_ge; exact Hid|]. auto.
Qed.

Lemma keeps_draw n0 E pg op :
  (n0 <= fst pg)%nat -> keeps n0 (draw E pg op) (fun _ => True).
Proof.
  intros Hid. unfold draw.
  eapply keeps_bind; [apply keeps_load|intros p _].
  eapply keeps_bind; [apply keeps_deref|intros d _].
  intros w r w' Hn H.
  destruct (page_draw E (trace w) op); injection H as <- <-; cbn [heap].
  - auto.
  - rewrite length_insert. split; [exact Hn|].
    split; [apply take_insert_ge; exact Hid|]. auto.
Qed.

Lemma keeps_submit n0 tr text :
  translator_ok tr -> keeps n0 (submit tr text) (fun _ => True).
Proof.
  intros Hok. unfold submit.
  eapply keeps_bind; [apply keeps_emit|intros _ _].
  apply keeps_same_heap. intros w r w' H. apply Hok in H as (Hh & _). exact Hh.
Qed.

Lemma keeps_translate_blocks n0 E tr pg rgb blocks :
  translator_ok tr -> (n0 <= fst pg)%nat ->
  keeps n0 (translate_blocks E tr pg rgb blocks) (fun _ => True).
Proof.
  intros Hok Hid. induction blocks as [|b rest IH]; cbn [translate_blocks].
  - apply keeps_ret. exact I.
  - eapply keeps_bind; [apply keeps_submit, Hok|intros v _].
    eapply keeps_bind; [apply keeps_draw, Hid|intros _ _].
    eapply keeps_bind; [apply keeps_draw, Hid|intros _ _].
    exact IH.
Qed.

Lemma keeps_translate_page_miss n0 E doc pn tr rgb key :
  translator_ok tr ->
  keeps n0 (translate_page_miss E doc pn tr rgb key) (fun id => (n0 <= id)%nat).
Proof.
  intros Hok. unfold translate_page_miss, logging, get_text_blocks.
  eapply keeps_bind; [apply keeps_emit|intros _ _].
  eapply keeps_bind; [apply keeps_emit|intros _ _].
  eapply keeps_bind; [apply keeps_open_new|intros new_doc Hid].
  eapply keeps_bind; [apply keeps_insert_pdf, Hid|intros _ _].
  eapply keeps_bind; [apply keeps_doc_getitem|intros pg Hpg].
  eapply (keeps_bind _ _ _ (fun _ => True)).
  { eapply keeps_bind; [apply keeps_load|intros p _]. apply keeps_ret. exact I. }
  intros blocks _.
  eapply keeps_bind; [apply keeps_translate_blocks; [exact Hok|rewrite Hpg; exact Hid]|].
  intros _ _.
  eapply keeps_bind; [apply keeps_save_translation_cache|intros _ _].
  apply keeps_ret. exact Hid.
Qed.

Lemma keeps_translate_page n0 E doc total tr rgb tn tl i pn :
  translator_ok tr ->
  keeps n0 (translate_page E doc total tr rgb tn tl i pn) (fun _ => True).
Proof.
  intros Hok. unfold translate_page, logging, get_text_text.
  eapply keeps_bind; [apply keeps_emit|intros _ _].
  eapply keeps_bind; [apply keeps_doc_getitem|intros pg _].
  eapply (keeps_bind _ _ _ (fun _ => True)).
  { eapply keeps_bind; [apply keeps_load|intros p _]. apply keeps_ret. exact I. }
  intros text _.
  eapply keeps_bind; [apply keeps_deref|intros d _].
  eapply keeps_bind; [apply keeps_lift|intros key _].
  eapply keeps_bind; [apply keeps_get_cached_translation|intros cached _].
  eapply (keeps_bind _ _ _ (fun _ => True)).
  { destruct cached as [id|].
    - eapply keeps_bind; [apply keeps_emit|intros _ _].
      eapply keeps_bind; [apply keeps_emit|intros _ _].
      apply keeps_ret. exact I.
    - eapply keeps_bind; [apply keeps_translate_page_miss, Hok|intros new_doc _].
      eapply keeps_bind; [apply keeps_emit|intros _ _].
      apply keeps_ret. exact I. }
  intros r _.
  eapply (keeps_bind _ _ _ (fun _ => True)).
  { destruct (total =? 0); [apply keeps_raise|apply keeps_emit]. }
  intros _ _. apply keeps_ret. exact I.
Qed.

Lemma keeps_page_loop n0 E doc total tr rgb tn tl items :
  translator_ok tr ->
  forall acc hits,
    keeps n0 (page_loop E doc total tr rgb tn tl items acc hits) (fun _ => True).
Proof.
  intros Hok. induction items as [|[i pn] rest IH]; intros acc hits; cbn [page_loop].
  - apply keeps_ret. exact I.
  - eapply keeps_bind; [apply keeps_translate_page, Hok|intros r _]. apply IH.
Qed.

(** Whatever its arguments and however it ends, [translate_pdf_pages]
    leaves every document object that existed before the call as it
    was. *)
Lemma keeps_translate_pdf_pages n0 E doc db start num tr text_color tn tl :
  translator_ok tr ->
  keeps n0 (translate_pdf_pages E doc db start num tr text_color tn tl) (fun _ => True).
Proof.
  intros Hok. unfold translate_pdf_pages, logging, page_count.
  eapply keeps_bind; [apply keeps_emit|intros _ _].
  eapply keeps_bind; [apply keeps_emit|intros _ _].
  eapply (keeps_bind _ _ _ (fun _ => True)).
  { eapply keeps_bind; [apply keeps_deref|intros d _]. apply keeps_ret. exact I. }
  intros n _.
  eapply keeps_bind; [apply keeps_emit|intros _ _].
  eapply keeps_bind; [apply keeps_emit|intros _ _].
  eapply (keeps_bind _ _ _ (fun _ => True)).
  { eapply keeps_bind; [apply keeps_deref|intros d _]. apply keeps_ret. exact I. }
  intros n' _.
  eapply keeps_bind; [apply keeps_page_loop, Hok|intros r _].
  eapply keeps_bind; [apply keeps_emit|intros _ _].
  eapply (keeps_bind _ _ _ (fun _ => True)).
  { destruct (0 <? snd r); [apply keeps_emit|apply keeps_ret; exact I]. }
  intros _ _. apply keeps_ret. exact I.
Qed.

(** ** The block loop, block by block *)

Ltac norm_app := repeat (progress (cbn [app]; rewrite <- ?app_assoc)).

Lemma drawn_page_nil p : drawn_page p [] = p.
Proof. unfold drawn_page. rewrite app_nil_r. apply page_eta. Qed.

Lemma drawn_page_app p ops ops' :
  drawn_page (drawn_page p ops) ops' = drawn_page p (ops ++ ops').
Proof. unfold drawn_page. cbn [pg_text pg_blocks pg_drawn]. rewrite app_assoc. reflexivity. Qed.

Lemma after_runs_nil w id md css p :
  heap w !! id = Some (Document md [p]) -> after_runs w id md css p [] = w.
Proof. intros H. apply drawn_world_refl, H. Qed.

Lemma after_runs_cons w id md css p r runs :
  after_runs (drawn_world w id md p (br_ops css r) (br_trace id css r)) id md css
    (drawn_page p (br_ops css r)) runs
  = after_runs w id md css p (r :: runs).
Proof. unfold after_runs. cbn [flat_map]. apply drawn_world_trans. Qed.

Lemma after_runs_lookup w id md css p runs :
  heap w !! id = Some (Document md [p]) ->
  heap (after_runs w id md css p runs) !! id
  = Some (Document md [drawn_page p (flat_map (br_ops css) runs)]).
Proof. intros H. apply drawn_world_lookup, H. Qed.

Lemma answers_submit tr text w r tevs :
  answers tr text w r tevs ->
  submit tr text w = (r, World (heap w) (fs w) (trace w ++ Submit text :: tevs)).
Proof. unfold answers, submit, bind, emit. intros H. exact H. Qed.

(** What a translator does when the pipeline calls it. *)
Lemma translator_ok_answers tr text w :
  translator_ok tr ->
  exists r tevs,
    answers tr text w r tevs
    /\ Forall (fun e => is_translator_event e = true) tevs.
Proof.
  intros Hok.
  destruct (tr_translate tr text (World (heap w) (fs w) (trace w ++ [Submit text])))
    as [r w1] eqn:Hrun.
  destruct (Hok _ _ _ _ Hrun) as (Hh & Hf & tevs & Ht & Hall). cbn [heap fs trace] in *.
  exists r, tevs. split; [|exact Hall]. unfold answers. rewrite Hrun. f_equal.
  rewrite <- (world_eta w1), Hh, Hf, Ht, <- app_assoc. reflexivity.
Qed.

(** One turn of the block loop for a block that is translated and
    drawn. *)
Lemma block_turn E tr id md rgb r p w (k : M unit) :
  heap w !! id = Some (Document md [p]) ->
  handled_in_turn E tr id md (css_of rgb) p w [r] ->
  bind (submit tr (blk_text (br_block r)))
    (fun translated =>
       bind (draw E (id, 0%nat) (DrawRect (blk_bbox (br_block r)) WHITE))
         (fun _ => bind (draw E (id, 0%nat)
                           (InsertHtmlbox (blk_bbox (br_block r)) (to_str translated)
                              (css_of rgb)))
                     (fun _ => k))) w
  = k (drawn_world w id md p (br_ops (css_of rgb) r) (br_trace id (css_of rgb) r)).
Proof.
  intros Hd (Hans & Herase & Hrender & _).
  rewrite (bind_Ok _ _ _ _ _ (answers_submit _ _ _ _ _ Hans)). cbv beta.
  erewrite bind_Ok
    by (rewrite (draw_eq E id md p) by exact Hd; cbn [trace];
        unfold erase_op in Herase; rewrite Herase; reflexivity).
  cbv beta.
  erewrite bind_Ok
    by (rewrite (draw_eq E id md (draw_on (DrawRect (blk_bbox (br_block r)) WHITE) p))
          by (cbn [heap]; apply list_lookup_insert_eq; eauto using lookup_lt_Some);
        cbn [trace]; unfold erase_op, render_op in Hrender;
        rewrite <- app_assoc in Hrender; cbn [app] in Hrender;
        rewrite <- app_assoc; cbn [app]; rewrite Hrender; reflexivity).
  cbv beta. f_equal. unfold drawn_world, draw_on, br_ops, br_trace, erase_op, render_op.
  cbn [heap fs trace pg_text pg_blocks pg_drawn].
  rewrite list_insert_insert_eq. norm_app. reflexivity.
Qed.

(** The block loop over blocks that are handled in turn goes on with the
    blocks that follow, in the world after these. *)
Lemma translate_blocks_handled E tr id md rgb runs :
  forall rest p w,
    heap w !! id = Some (Document md [p]) ->
    handled_in_turn E tr id md (css_of rgb) p w runs ->
    translate_blocks E tr (id, 0%nat) rgb (map br_block runs ++ rest) w
    = translate_blocks E tr (id, 0%nat) rgb rest
        (after_runs w id md (css_of rgb) p runs).
Proof.
  induction runs as [|r runs IH]; intros rest p w Hd Hruns.
  - rewrite (after_runs_nil _ _ _ _ _ Hd). reflexivity.
  - cbn [map app translate_blocks].
    assert (H1 : handled_in_turn E tr id md (css_of rgb) p w [r]).
    { destruct Hruns as (Ha & He & Hr & _). cbn. auto. }
    rewrite (block_turn E tr id md rgb r p w _ Hd H1).
    destruct Hruns as (_ & _ & _ & Hrest).
    rewrite (IH rest _ _ (drawn_world_lookup _ _ _ _ _ _ Hd) Hrest).
    rewrite after_runs_cons. reflexivity.
Qed.

(** The block loop at a block that the library refuses to draw. *)
Lemma translate_blocks_refused E tr id md rgb b post v tevs failure e p w :
  heap w !! id = Some (Document md [p]) ->
  answers tr (blk_text b) w (Ok v) tevs ->
  refuses E id (css_of rgb) (trace w ++ Submit (blk_text b) :: tevs) b v failure e ->
  translate_blocks E tr (id, 0%nat) rgb (b :: post) w
  = (Raise e,
     drawn_world w id md p (accepted_ops failure b)
       (Submit (blk_text b) :: tevs
        ++ map (Draw id) (attempted_ops (css_of rgb) b v failure))).
Proof.
  intros Hd Hans Href. cbn [translate_blocks].
  rewrite (bind_Ok _ _ _ _ _ (answers_submit _ _ _ _ _ Hans)). cbv beta.
  destruct failure; cbn [refuses accepted_ops attempted_ops map] in *.
  - erewrite bind_Raise
      by (rewrite (draw_eq E id md p) by exact Hd; cbn [trace];
          unfold erase_op in Href; rewrite Href; reflexivity).
    f_equal. unfold drawn_world. cbn [heap fs trace].
    rewrite app_nil_r, page_eta, list_insert_id by exact Hd.
    rewrite <- app_assoc. reflexivity.
  - destruct Href as [Herase Hrender].
    erewrite bind_Ok
      by (rewrite (draw_eq E id md p) by exact Hd; cbn [trace];
          unfold erase_op in Herase; rewrite Herase; reflexivity).
    cbv beta.
    erewrite bind_Raise
      by (rewrite (draw_eq E id md (draw_on (DrawRect (blk_bbox b) WHITE) p))
            by (cbn [heap]; apply list_lookup_insert_eq; eauto using lookup_lt_Some);
          cbn [trace]; unfold erase_op, render_op in Hrender;
          rewrite <- app_assoc in Hrender; cbn [app] in Hrender;
          rewrite <- app_assoc; cbn [app]; rewrite Hrender; reflexivity).
    f_equal. unfold drawn_world, draw_on, erase_op, render_op.
    cbn [heap fs trace pg_text pg_blocks pg_drawn map].
    norm_app. reflexivity.
Qed.

(** Every run of the block loop, however it ends: it gets through some
    of the blocks in turn, and either these are all the blocks, or it
    stops at the next one. *)
Lemma translate_blocks_cases E tr id md rgb :
  translator_ok tr ->
  forall blocks p w r w',
    heap w !! id = Some (Document md [p]) ->
    translate_blocks E tr (id, 0%nat) rgb blocks w = (r, w') ->
    exists runs,
      handled_in_turn E tr id md (css_of rgb) p w runs
      /\ match r with
         | Ok _ =>
             map br_block runs = blocks
             /\ w' = after_runs w id md (css_of rgb) p runs
         | Raise e =>
             exists b post,
               blocks = map br_block runs ++ b :: post
               /\ stops_at E tr id md (css_of rgb)
                    (drawn_page p (flat_map (br_ops (css_of rgb)) runs))
                    (after_runs w id md (css_of rgb) p runs) b e w'
         end.
Proof.
  intros Hok. induction blocks as [|b rest IH]; intros p w r w' Hd H.
  - cbn in H. injection H as <- <-. exists []. split; [exact I|].
    split; [reflexivity|]. symmetry. apply after_runs_nil, Hd.
  - destruct (translator_ok_answers tr (blk_text b) w Hok) as (rv & tevs & Hans & _).
    destruct rv as [v|e].
    2:{ cbn [translate_blocks] in H.
        rewrite (bind_Raise _ _ _ _ _ (answers_submit _ _ _ _ _ Hans)) in H.
        injection H as <- <-. exists []. split; [exact I|].
        exists b, rest. split; [reflexivity|].
        rewrite (after_runs_nil _ _ _ _ _ Hd). left. exists tevs. auto. }
    set (h := trace w ++ Submit (blk_text b) :: tevs).
    destruct (page_draw E h (erase_op b)) as [e|] eqn:Herase.
    { rewrite (translate_blocks_refused E tr id md rgb b rest v tevs EraseRefused e p w
                 Hd Hans Herase) in H.
      injection H as <- <-. exists []. split; [exact I|].
      exists b, rest. split; [reflexivity|].
      rewrite (after_runs_nil _ _ _ _ _ Hd). right. exists v, tevs, EraseRefused.
      cbn [flat_map]. rewrite drawn_page_nil. auto. }
    destruct (page_draw E (h ++ [Draw id (erase_op b)]) (render_op (css_of rgb) b v))
      as [e|] eqn:Hrender.
    { rewrite (translate_blocks_refused E tr id md rgb b rest v tevs RenderRefused e p w
                 Hd Hans (conj Herase Hrender)) in H.
      injection H as <- <-. exists []. split; [exact I|].
      exists b, rest. split; [reflexivity|].
      rewrite (after_runs_nil _ _ _ _ _ Hd). right. exists v, tevs, RenderRefused.
      cbn [flat_map]. rewrite drawn_page_nil. split; [exact Hans|].
      split; [exact (conj Herase Hrender)|reflexivity]. }
    set (run := BlockRun b v tevs).
    assert (H1 : handled_in_turn E tr id md (css_of rgb) p w [run])
      by (cbn; auto).
    cbn [translate_blocks] in H.
    rewrite (block_turn E tr id md rgb run p w _ Hd H1) in H.
    destruct (IH (drawn_page p (br_ops (css_of rgb) run)) _ _ _
                (drawn_world_lookup _ _ _ _ _ _ Hd) H) as (runs & Hruns & Hr).
    exists (run :: runs). split.
    { cbn [handled_in_turn]. destruct H1 as (Ha & He & Hr' & _). auto. }
    destruct r as [[]|e].
    + destruct Hr as [Hm ->]. split; [cbn [map br_block run]; rewrite Hm; reflexivity|].
      apply after_runs_cons.
    + destruct Hr as (b' & post & Hb & Hstop). exists b', post.
      split; [cbn [map br_block run app]; rewrite Hb; reflexivity|].
      rewrite after_runs_cons, drawn_page_app in Hstop. exact Hstop.
Qed.

(** With a translator that answers and a library that draws, every block
    is handled in turn. *)
Lemma handled_in_turn_total E tr id md css :
  translator_ok tr -> translator_total tr ->
  (forall h op, page_draw E h op = None) ->
  forall blocks p w,
    exists runs,
      map br_block runs = blocks /\ handled_in_turn E tr id md css p w runs.
Proof.
  intros Hok Htt Hdraw. induction blocks as [|b rest IH]; intros p w.
  - exists []. split; [reflexivity|exact I].
  - destruct (translator_ok_answers tr (blk_text b) w Hok) as (rv & tevs & Hans & _).
    destruct (Htt (blk_text b) (World (heap w) (fs w) (trace w ++ [Submit (blk_text b)])))
      as (v & w1 & Hv).
    assert (rv = Ok v) as -> by (unfold answers in Hans; congruence).
    set (run := BlockRun b v tevs).
    destruct (IH (drawn_page p (br_ops css run))
                (drawn_world w id md p (br_ops css run) (br_trace id css run)))
      as (runs & Hm & Hruns).
    exists (run :: runs). split; [cbn [map br_block run]; rewrite Hm; reflexivity|].
    cbn [handled_in_turn]. auto.
Qed.

(** The block loop that stops at a block. *)
Lemma translate_blocks_stops E tr id md rgb b post e p w w' :
  heap w !! id = Some (Document md [p]) ->
  stops_at E tr id md (css_of rgb) p w b e w' ->
  translate_blocks E tr (id, 0%nat) rgb (b :: post) w = (Raise e, w').
Proof.
  intros Hd [(tevs & Hans & ->) | (v & tevs & failure & Hans & Href & ->)].
  - cbn [translate_blocks].
    apply bind_Raise, answers_submit, Hans.
  - apply translate_blocks_refused; assumption.
Qed.

(** ** A page that is not served from the cache *)

Lemma get_cached_translation_miss key w :
  (forall x, fs w !! key <> Some (PdfFile x)) ->
  get_cached_translation key w
  = (Ok None,
     World (heap w) (fs w) (trace w ++ absent_events key (rejected (fs w) key))).
Proof.
  intros Hmiss. rewrite get_cached_translation_eq. unfold rejected, absent_events.
  destruct (fs w !! key) as [[x|why]|]; [exfalso; exact (Hmiss x eq_refl)|reflexivity..].
Qed.

(** The loop body on such a page: the block loop on a copy of the page in
    a new document object, then the save, then the closing reports. *)
Lemma translate_page_miss_blocks E doc d total tr rgb tn tl i pn p key w :
  heap w !! doc = Some d -> 0 <= pn -> doc_pages d !! Z.to_nat pn = Some p ->
  get_cache_key (doc_metadata d) pn tn tl (pg_text p) = Ok key ->
  total <> 0 ->
  (forall x, fs w !! key <> Some (PdfFile x)) ->
  translate_page E doc total tr rgb tn tl i pn w =
  match translate_blocks E tr (length (heap w), 0%nat) rgb (pg_blocks p)
          (miss_start w p key pn) with
  | (Ok _, w2) =>
      match save_translation_cache E (length (heap w)) key w2 with
      | (Ok _, w3) =>
          (Ok (length (heap w), false),
           World (heap w3) (fs w3) (trace w3 ++ stored_events i pn total))
      | (Raise e, w3) => (Raise e, w3)
      end
  | (Raise e, w2) => (Raise e, w2)
  end.
Proof.
  intros Hd Hpn Hp Hkey Htot Hmiss.
  rewrite (translate_page_eq E doc d total tr rgb tn tl i pn p key w) by assumption.
  cbv zeta. rewrite get_cached_translation_miss by exact Hmiss.
  rewrite (translate_page_miss_eq E doc d pn p tr rgb key) by assumption.
  cbv zeta. cbn [heap fs trace]. unfold miss_start, miss_events, stored_events.
  norm_app.
  destruct (translate_blocks _ _ _ _ _ _) as [[[]|e] w2]; [|reflexivity].
  destruct (save_translation_cache _ _ _ _) as [[[]|e] w3]; reflexivity.
Qed.

(** Such a page, once its blocks have been handled in turn: the copy is
    saved under the key; the page completes when the save does. *)
Lemma translate_page_after_blocks E doc d total tr rgb tn tl i pn p key w runs :
  heap w !! doc = Some d -> 0 <= pn -> doc_pages d !! Z.to_nat pn = Some p ->
  get_cache_key (doc_metadata d) pn tn tl (pg_text p) = Ok key ->
  total <> 0 ->
  (forall x, fs w !! key <> Some (PdfFile x)) ->
  let id := length (heap w) in
  let css := css_of rgb in
  let w2 := after_runs (miss_start w p key pn) id ∅ css p runs in
  let di := Document ∅ [drawn_page p (flat_map (br_ops css) runs)] in
  handled_in_turn E tr id ∅ css p (miss_start w p key pn) runs ->
  map br_block runs = pg_blocks p ->
  translate_page E doc total tr rgb tn tl i pn w =
  match file_save E (trace w2 ++ [Mkdir]) key with
  | Saved =>
      (Ok (id, false),
       World (heap w ++ [di]) (<[key := PdfFile di]> (fs w))
         (trace w2 ++ [Mkdir; FileSave key id] ++ stored_events i pn total))
  | SaveFailed e left_behind =>
      (Raise e,
       World (heap w ++ [di]) (after_failed_save (fs w) key left_behind)
         (trace w2 ++ [Mkdir; FileSave key id]))
  end.
Proof.
  intros Hd Hpn Hp Hkey Htot Hmiss id css w2 di Hruns Hmap. subst id css.
  rewrite (translate_page_miss_blocks E doc d total tr rgb tn tl i pn p key w)
    by assumption.
  assert (Hd1 : heap (miss_start w p key pn) !! length (heap w) = Some (Document ∅ [p]))
    by apply lookup_at_end.
  rewrite <- Hmap, <- (app_nil_r (map br_block runs)).
  rewrite (translate_blocks_handled E tr _ ∅ rgb runs [] p _ Hd1 Hruns).
  cbn [translate_blocks]. unfold ret. fold w2.
  rewrite (save_translation_cache_eq E _ di key w2)
    by (apply after_runs_lookup, Hd1).
  assert (Hh : heap w2 = heap w ++ [di]).
  { unfold w2, after_runs, drawn_world, miss_start. cbn [heap]. apply insert_at_end. }
  assert (Hf : fs w2 = fs w) by reflexivity.
  destruct (file_save E (trace w2 ++ [Mkdir]) key) as [|e [partial|]];
    cbn [heap fs trace after_failed_save]; rewrite ?Hh, ?Hf; norm_app; reflexivity.
Qed.

(** Such a page, when the block loop stops at one of its blocks. *)
Lemma translate_page_stops E doc d total tr rgb tn tl i pn p key w runs b post e w' :
  heap w !! doc = Some d -> 0 <= pn -> doc_pages d !! Z.to_nat pn = Some p ->
  get_cache_key (doc_metadata d) pn tn tl (pg_text p) = Ok key ->
  total <> 0 ->
  (forall x, fs w !! key <> Some (PdfFile x)) ->
  let id := length (heap w) in
  let css := css_of rgb in
  handled_in_turn E tr id ∅ css p (miss_start w p key pn) runs ->
  pg_blocks p = map br_block runs ++ b :: post ->
  stops_at E tr id ∅ css (drawn_page p (flat_map (br_ops css) runs))
    (after_runs (miss_start w p key pn) id ∅ css p runs) b e w' ->
  translate_page E doc total tr rgb tn tl i pn w = (Raise e, w').
Proof.
  intros Hd Hpn Hp Hkey Htot Hmiss id css Hruns Hblocks Hstop. subst id css.
  rewrite (translate_page_miss_blocks E doc d total tr rgb tn tl i pn p key w)
    by assumption.
  assert (Hd1 : heap (miss_start w p key pn) !! length (heap w) = Some (Document ∅ [p]))
    by apply lookup_at_end.
  rewrite Hblocks.
  rewrite (translate_blocks_handled E tr _ ∅ rgb runs (b :: post) p _ Hd1 Hruns).
  rewrite (translate_blocks_stops E tr _ ∅ rgb b post e _ _ w'
             (after_runs_lookup _ _ _ _ _ _ Hd1) Hstop).
  reflexivity.
Qed.

(** Such a page, however its handling ends: some of its blocks are
    handled in turn, and either these are all its blocks, or the loop
    stops at the next one, which ends the handling of the page. *)
Lemma translate_page_cases E doc d total tr rgb tn tl i pn p key w :
  translator_ok tr ->
  heap w !! doc = Some d -> 0 <= pn -> doc_pages d !! Z.to_nat pn = Some p ->
  get_cache_key (doc_metadata d) pn tn tl (pg_text p) = Ok key ->
  total <> 0 ->
  (forall x, fs w !! key <> Some (PdfFile x)) ->
  let id := length (heap w) in
  let css := css_of rgb in
  exists runs,
    handled_in_turn E tr id ∅ css p (miss_start w p key pn) runs
    /\ (map br_block runs = pg_blocks p
        \/ exists b post e w',
             pg_blocks p = map br_block runs ++ b :: post
             /\ stops_at E tr id ∅ css (drawn_page p (flat_map (br_ops css) runs))
                  (after_runs (miss_start w p key pn) id ∅ css p runs) b e w'
             /\ translate_page E doc total tr rgb tn tl i pn w = (Raise e, w')).
Proof.
  intros Hok Hd Hpn Hp Hkey Htot Hmiss id css. subst id css.
  assert (Hd1 : heap (miss_start w p key pn) !! length (heap w) = Some (Document ∅ [p]))
    by apply lookup_at_end.
  destruct (translate_blocks E tr (length (heap w), 0%nat) rgb (pg_blocks p)
              (miss_start w p key pn)) as [rb w2] eqn:Hb.
  destruct (translate_blocks_cases E tr _ ∅ rgb Hok _ _ _ _ _ Hd1 Hb)
    as (runs & Hruns & Hr).
  exists runs. split; [exact Hruns|].
  destruct rb as [[]|e].
  - left. apply Hr.
  - right. destruct Hr as (b & post & Hblocks & Hstop).
    exists b, post, e, w2. split; [exact Hblocks|]. split; [exact Hstop|].
    eapply translate_page_stops; eassumption.
Qed.

(** ** The page loop, page by page *)

Lemma page_loop_app E doc total tr rgb tn tl l1 :
  forall l2 acc hits w,
    page_loop E doc total tr rgb tn tl (l1 ++ l2) acc hits w =
    match page_loop E doc total tr rgb tn tl l1 acc hits w with
    | (Ok (acc', hits'), w1) => page_loop E doc total tr rgb tn tl l2 acc' hits' w1
    | (Raise e, w1) => (Raise e, w1)
    end.
Proof.
  induction l1 as [|[i pn] l1 IH]; intros l2 acc hits w.
  - reflexivity.
  - cbn [app page_loop]. unfold bind.
    destruct (translate_page _ _ _ _ _ _ _ _ _ _) as [[r|e] w1]; [|reflexivity].
    apply IH.
Qed.

Lemma items_of_lookup d start num j p :
  0 <= start -> Z.of_nat j < num ->
  doc_pages d !! Z.to_nat (start + Z.of_nat j) = Some p ->
  items_of d start num !! j = Some (Z.of_nat j, start + Z.of_nat j).
Proof.
  intros Hs Hj Hp. pose proof (lookup_lt_Some _ _ _ Hp) as Hlt.
  unfold items_of. rewrite enumerate_lookup.
  replace (py_range _ _ !! j) with (Some (start + Z.of_nat j)); [reflexivity|].
  symmetry. apply py_range_lookup. split; [reflexivity|]. lia.
Qed.

Lemma items_of_in_range d start num :
  0 <= start -> Forall (in_range d) (items_of d start num).
Proof. apply range_in_range. Qed.

Lemma total_of_nonzero d start num j item :
  items_of d start num !! j = Some item -> total_of d start num <> 0.
Proof.
  intros Hj. apply lookup_lt_Some in Hj. unfold items_of in Hj.
  rewrite enumerate_length, py_range_length in Hj. unfold total_of. lia.
Qed.

(** A call, seen from a position that its page loop gets to: what remains
    is the loop over the remaining pages and the closing reports. *)
Lemma call_from_position E doc d db start num tr text_color tn tl w j acc hits wj :
  heap w !! doc = Some d ->
  loop_reaches E doc d start num tr text_color tn tl w j acc hits wj ->
  translate_pdf_pages E doc db start num tr text_color tn tl w =
  match page_loop E doc (total_of d start num) tr (color_of text_color) tn tl
          (drop j (items_of d start num)) acc hits wj with
  | (Ok (pages, hits'), w2) =>
      (Ok pages,
       World (heap w2) (fs w2) (trace w2 ++ end_events hits' (total_of d start num)))
  | (Raise e, w2) => (Raise e, w2)
  end.
Proof.
  intros Hd Hreach. unfold loop_reaches in Hreach.
  rewrite (translate_pdf_pages_eq E doc d) by exact Hd. cbv zeta.
  fold (total_of d start num). fold (items_of d start num).
  rewrite <- (take_drop j (items_of d start num)) at 1.
  rewrite page_loop_app, Hreach. reflexivity.
Qed.

(** The page at a position that the loop gets to: when its handling
    raises, so does the call. *)
Lemma call_raises_at_page E doc d db start num tr text_color tn tl w j acc hits wj
    pn e w' :
  heap w !! doc = Some d ->
  loop_reaches E doc d start num tr text_color tn tl w j acc hits wj ->
  items_of d start num !! j = Some (Z.of_nat j, pn) ->
  translate_page E doc (total_of d start num) tr (color_of text_color) tn tl
    (Z.of_nat j) pn wj = (Raise e, w') ->
  translate_pdf_pages E doc db start num tr text_color tn tl w = (Raise e, w').
Proof.
  intros Hd Hreach Hitem Hpage.
  rewrite (call_from_position E doc d db start num tr text_color tn tl w j acc hits wj)
    by assumption.
  rewrite (drop_S _ _ _ Hitem). cbn [page_loop].
  rewrite (bind_Raise _ _ _ _ _ Hpage). reflexivity.
Qed.

(** When its handling returns, the loop gets to the next position. *)
Lemma loop_reaches_next E doc d start num tr text_color tn tl w j acc hits wj
    pn id hit w' :
  loop_reaches E doc d start num tr text_color tn tl w j acc hits wj ->
  items_of d start num !! j = Some (Z.of_nat j, pn) ->
  translate_page E doc (total_of d start num) tr (color_of text_color) tn tl
    (Z.of_nat j) pn wj = (Ok (id, hit), w') ->
  loop_reaches E doc d start num tr text_color tn tl w (S j) (acc ++ [id])
    (if hit then hits + 1 else hits) w'.
Proof.
  unfold loop_reaches. intros Hreach Hitem Hpage.
  rewrite (take_S_r _ _ _ Hitem), page_loop_app, Hreach.
  cbn [page_loop]. rewrite (bind_Ok _ _ _ _ _ Hpage). reflexivity.
Qed.

(** The world at a position that the loop gets to: document objects have
    been added, one for each page before, which are the pages collected so
    far; the PDFs of the cache are still there. *)
Lemma loop_reaches_world E doc d start num tr text_color tn tl w j acc hits wj :
  translator_ok tr -> heap w !! doc = Some d -> 0 <= start ->
  loop_reaches E doc d start num tr text_color tn tl w j acc hits wj ->
  (j <= length (items_of d start num))%nat ->
  exists hs evs,
    heap wj = heap w ++ hs
    /\ length hs = j
    /\ acc = seq (length (heap w)) j
    /\ trace wj = trace w ++ evs
    /\ pdf_stable (fs w) (fs wj)
    /\ heap wj !! doc = Some d.
Proof.
  intros Hok Hd Hs Hreach Hj. unfold loop_reaches in Hreach.
  destruct j as [|j'].
  { cbn in Hreach. injection Hreach as <- <- <-.
    exists [], (start_events tr tn). cbn [heap fs trace]. rewrite app_nil_r.
    repeat split; try reflexivity; [apply pdf_stable_refl|exact Hd]. }
  set (j := S j') in *.
  assert (Htot : total_of d start num <> 0).
  { destruct (lookup_lt_is_Some_2 (items_of d start num) j') as [item Hitem]; [lia|].
    eapply total_of_nonzero, Hitem. }
  assert (Hin : Forall (in_range d) (take j (items_of d start num)))
    by (apply Forall_take, items_of_in_range, Hs).
  assert (Hd0 : heap (World (heap w) (fs w) (trace w ++ start_events tr tn)) !! doc
                = Some d) by exact Hd.
  destruct (page_loop_run E doc d _ tr (color_of text_color) tn tl Hok Htot
              _ _ _ _ _ _ Hd0 Hin Hreach)
    as (hs & evs & Hh & Ht & Hst & _ & Hr).
  destruct Hr as (Hacc & Hlen & _).
  rewrite length_take, Nat.min_l in Hacc, Hlen by exact Hj.
  cbn [heap fs trace] in *.
  exists hs, (start_events tr tn ++ evs).
  split; [exact Hh|]. split; [exact Hlen|]. split; [exact Hacc|].
  split; [rewrite Ht, <- app_assoc; reflexivity|]. split; [exact Hst|].
  rewrite Hh, lookup_app_l by eauto using lookup_lt_Some. exact Hd.
Qed.

(** What follows a position that the loop gets to: document objects are
    only added, the trace only grows, the PDFs of the cache stay, and the
    pages that the call returns begin with those collected so far. *)
Lemma call_after_position E doc d db start num tr text_color tn tl w j acc hits wj r w' :
  translator_ok tr -> heap w !! doc = Some d -> 0 <= start ->
  loop_reaches E doc d start num tr text_color tn tl w j acc hits wj ->
  (j <= length (items_of d start num))%nat ->
  translate_pdf_pages E doc db start num tr text_color tn tl w = (r, w') ->
  exists hs evs,
    heap w' = heap wj ++ hs
    /\ trace w' = trace wj ++ evs
    /\ pdf_stable (fs wj) (fs w')
    /\ forall pages, r = Ok pages -> exists rest, pages = acc ++ rest.
Proof.
  intros Hok Hd Hs Hreach Hj Hrun.
  destruct (loop_reaches_world E doc d start num tr text_color tn tl w j acc hits wj
              Hok Hd Hs Hreach Hj) as (_ & _ & _ & _ & _ & _ & _ & Hdj).
  rewrite (call_from_position E doc d db start num tr text_color tn tl w j acc hits wj)
    in Hrun by assumption.
  destruct (decide (j = length (items_of d start num))) as [->|Hne].
  { rewrite drop_all in Hrun. cbn [page_loop] in Hrun. unfold ret in Hrun.
    injection Hrun as <- <-. cbn [heap fs trace].
    exists [], (end_events hits (total_of d start num)). rewrite app_nil_r.
    split; [reflexivity|]. split; [reflexivity|]. split; [apply pdf_stable_refl|].
    intros pages [= <-]. exists []. rewrite app_nil_r. reflexivity. }
  assert (Htot : total_of d start num <> 0).
  { destruct (lookup_lt_is_Some_2 (items_of d start num) j) as [item Hitem]; [lia|].
    eapply total_of_nonzero, Hitem. }
  assert (Hin : Forall (in_range d) (drop j (items_of d start num)))
    by (apply Forall_drop, items_of_in_range, Hs).
  destruct (page_loop E doc (total_of d start num) tr (color_of text_color) tn tl
              (drop j (items_of d start num)) acc hits wj) as [rl w2] eqn:Hloop.
  destruct (page_loop_run E doc d _ tr (color_of text_color) tn tl Hok Htot
              _ _ _ _ _ _ Hdj Hin Hloop)
    as (hs & evs & Hh & Ht & Hst & _ & Hr).
  destruct rl as [[pages hits']|e]; injection Hrun as <- <-; cbn [heap fs trace].
  - exists hs, (evs ++ end_events hits' (total_of d start num)).
    split; [exact Hh|]. split; [rewrite Ht, <- app_assoc; reflexivity|].
    split; [exact Hst|]. intros pages' [= <-]. destruct Hr as (-> & _). eauto.
  - exists hs, evs. split; [exact Hh|]. split; [exact Ht|]. split; [exact Hst|].
    intros pages. discriminate.
Qed.

(** ** A page that is not served from the cache, in a call *)

(** The handling of such a page at a position that the page loop gets to,
    however it ends: some of its blocks are handled in turn on the copy;
    when these are all its blocks, the copy is saved, and the loop gets to
    the next position if the save returns, while the call raises if the
    save does; otherwise the loop stops at the next block, and the call
    raises. *)
Lemma miss_in_call E doc d db start num tr text_color tn tl w j acc hits wj p key :
  heap w !! doc = Some d -> 0 <= start -> translator_ok tr ->
  loop_reaches E doc d start num tr text_color tn tl w j acc hits wj ->
  Z.of_nat j < num ->
  doc_pages d !! Z.to_nat (start + Z.of_nat j) = Some p ->
  get_cache_key (doc_metadata d) (start + Z.of_nat j) tn tl (pg_text p) = Ok key ->
  (forall x, fs wj !! key <> Some (PdfFile x)) ->
  let page_num := start + Z.of_nat j in
  let id := length (heap wj) in
  let css := css_of (color_of text_color) in
  let w1 := miss_start wj p key page_num in
  let call := translate_pdf_pages E doc db start num tr text_color tn tl w in
  exists runs,
    handled_in_turn E tr id ∅ css p w1 runs
    /\ let w2 := after_runs w1 id ∅ css p runs in
       let di := Document ∅ [drawn_page p (flat_map (br_ops css) runs)] in
       heap w2 = heap wj ++ [di]
       /\ ((map br_block runs = pg_blocks p
            /\ match file_save E (trace w2 ++ [Mkdir]) key with
               | Saved =>
                   loop_reaches E doc d start num tr text_color tn tl w (S j)
                     (acc ++ [id]) hits
                     (World (heap wj ++ [di]) (<[key := PdfFile di]> (fs wj))
                        (trace w2 ++ [Mkdir; FileSave key id]
                         ++ stored_events (Z.of_nat j) page_num (total_of d start num)))
               | SaveFailed e left_behind =>
                   call = (Raise e,
                           World (heap wj ++ [di])
                             (after_failed_save (fs wj) key left_behind)
                             (trace w2 ++ [Mkdir; FileSave key id]))
               end)
           \/ (exists b post e w',
                 pg_blocks p = map br_block runs ++ b :: post
                 /\ stops_at E tr id ∅ css (drawn_page p (flat_map (br_ops css) runs))
                      w2 b e w'
                 /\ call = (Raise e, w'))).
Proof.
  intros Hd Hs Hok Hreach Hj Hp Hkey Hmiss page_num id css w1 call.
  pose proof (items_of_lookup d start num j p Hs Hj Hp) as Hitem.
  pose proof (total_of_nonzero _ _ _ _ _ Hitem) as Htot.
  destruct (loop_reaches_world E doc d start num tr text_color tn tl w j acc hits wj
              Hok Hd Hs Hreach ltac:(apply Nat.lt_le_incl; eauto using lookup_lt_Some))
    as (_ & _ & _ & _ & _ & _ & _ & Hdj).
  assert (Hpn : 0 <= page_num) by (unfold page_num; lia).
  destruct (translate_page_cases E doc d (total_of d start num) tr (color_of text_color)
              tn tl (Z.of_nat j) page_num p key wj Hok Hdj Hpn Hp Hkey Htot Hmiss)
    as (runs & Hruns & Hcases).
  exists runs. split; [exact Hruns|]. cbv zeta.
  split; [unfold after_runs, drawn_world, w1, miss_start; cbn [heap]; apply insert_at_end|].
  destruct Hcases as [Hmap | (b & post & e & w' & Hblocks & Hstop & Hpage)].
  - left. split; [exact Hmap|].
    pose proof (translate_page_after_blocks E doc d (total_of d start num) tr
                  (color_of text_color) tn tl (Z.of_nat j) page_num p key wj runs
                  Hdj Hpn Hp Hkey Htot Hmiss Hruns Hmap) as Hpage.
    cbv zeta in Hpage. fold id css w1 in Hpage.
    destruct (file_save E _ key) as [|e left_behind].
    + exact (loop_reaches_next E doc d start num tr text_color tn tl w j acc hits wj
               page_num id false _ Hreach Hitem Hpage).
    + exact (call_raises_at_page E doc d db start num tr text_color tn tl w j acc hits wj
               page_num e _ Hd Hreach Hitem Hpage).
  - right. exists b, post, e, w'. split; [exact Hblocks|]. split; [exact Hstop|].
    exact (call_raises_at_page E doc d db start num tr text_color tn tl w j acc hits wj
             page_num e w' Hd Hreach Hitem Hpage).
Qed.

(** ** The keys of different pages *)

Lemma lit_inj (s s' : string) : lit s = lit s' -> s = s'.
Proof.
  unfold lit. intros H.
  rewrite <- (string_of_list_ascii_of_string s),
    <- (string_of_list_ascii_of_string s').
  f_equal. revert H. generalize (list_ascii_of_string s), (list_ascii_of_string s').
  induction l as [|a l IH]; intros [|a' l'] H; try discriminate; [reflexivity|].
  cbn [map] in H. injection H as Ha Hl. f_equal; [|exact (IH _ Hl)].
  rewrite <- (ascii_N_embedding a), <- (ascii_N_embedding a'), Ha. reflexivity.
Qed.

Lemma to_int_nonnil (z : Z) :
  Z.to_int z <> Decimal.Pos Decimal.Nil /\ Z.to_int z <> Decimal.Neg Decimal.Nil.
Proof.
  destruct z as [|p|p]; cbn [Z.to_int]; split; intros H; try discriminate H;
    injection H as H; exact (DecimalPos.Unsigned.to_uint_nonnil p H).
Qed.

(** [str] of different integers differs. *)
Lemma str_of_int_inj (z z' : Z) : str_of_int z = str_of_int z' -> z = z'.
Proof.
  unfold str_of_int. intros H. apply lit_inj in H.
  apply DecimalZ.to_int_inj.
  destruct (to_int_nonnil z) as [H1 H2], (to_int_nonnil z') as [H1' H2'].
  pose proof (NilZero.isi _ H1 H2) as Hi. pose proof (NilZero.isi _ H1' H2') as Hi'.
  rewrite H in Hi. congruence.
Qed.

Lemma string_of_uint_no_underscore (d : Decimal.uint) :
  Forall (fun c => c <> 95%N) (lit (NilEmpty.string_of_uint d)).
Proof. induction d; constructor; first [discriminate | exact IHd]. Qed.

(** [str] of an integer has no underscore. *)
Lemma str_of_int_no_underscore (z : Z) : Forall (fun c => c <> 95%N) (str_of_int z).
Proof.
  unfold str_of_int.
  assert (Hu : forall d, Forall (fun c => c <> 95%N) (lit (NilZero.string_of_uint d))).
  { intros d. destruct d; try apply string_of_uint_no_underscore.
    repeat constructor; discriminate. }
  destruct (Z.to_int z) as [d|d]; cbn [NilZero.string_of_int]; [apply Hu|].
  constructor; [discriminate|apply Hu].
Qed.

(** Two strings that agree after a separator each, the parts before it not
    containing the separator, agree part by part. *)
Lemma app_sep_inj (sep : N) (a a' x x' : str) :
  Forall (fun c => c <> sep) a -> Forall (fun c => c <> sep) a' ->
  a ++ sep :: x = a' ++ sep :: x' -> a = a' /\ x = x'.
Proof.
  intros Ha. revert a'. induction Ha as [|c a Hc Ha IH]; intros a' Ha' H.
  - destruct Ha' as [|c' a' Hc' Ha']; cbn in H.
    + injection H as ->. auto.
    + injection H as <- _. congruence.
  - destruct Ha' as [|c' a' Hc' Ha']; cbn in H.
    + injection H as -> _. congruence.
    + injection H as <- H. destruct (IH a' Ha' H) as [-> ->]. auto.
Qed.

(** The page number is part of the key: a key of one page of a document
    is not the key of another page of it. *)
Lemma page_key_inj d tn tl pn pn' k :
  page_key d tn tl pn = Some k -> page_key d tn tl pn' = Some k -> pn = pn'.
Proof.
  intros H H'.
  apply page_key_Some in H as (p & _ & H). apply page_key_Some in H' as (p' & _ & H').
  apply get_cache_key_inv in H as (dh & th & Hdh & Hth & ->).
  apply get_cache_key_inv in H' as (dh' & th' & Hdh' & Hth' & Heq).
  unfold key_format in Heq.
  apply app_inj_1 in Heq as [_ Heq];
    [|rewrite (md5_hex8_length _ _ Hdh), (md5_hex8_length _ _ Hdh'); reflexivity].
  apply app_inv_head in Heq.
  apply app_inj_1 in Heq as [_ Heq];
    [|rewrite (md5_hex8_length _ _ Hth), (md5_hex8_length _ _ Hth'); reflexivity].
  apply app_inv_head in Heq.
  change (lit "_") with [95%N] in Heq. cbn [app] in Heq.
  apply app_sep_inj in Heq as [Hpn _]; [|apply str_of_int_no_underscore..].
  apply str_of_int_inj. exact Hpn.
Qed.

(** ** What a call leaves of the cache directory *)

(** One iteration of the page loop touches the cache directory only under
    the key of its page. *)
Lemma translate_page_frame E doc d total tr rgb tn tl item w r w' :
  translator_ok tr ->
  heap w !! doc = Some d -> in_range d item -> total <> 0 ->
  translate_page E doc total tr rgb tn tl (fst item) (snd item) w = (r, w') ->
  forall k, page_key d tn tl (snd item) <> Some k -> fs w' !! k = fs w !! k.
Proof.
  intros Hok Hd Hin Htot H k Hk. destruct item as [i pn]. cbn [fst snd] in *.
  destruct (in_range_lookup d (i, pn) Hin) as [p Hp]. cbn [snd] in Hp.
  destruct Hin as [Hpn _]. cbn [snd] in Hpn.
  destruct (get_cache_key (doc_metadata d) pn tn tl (pg_text p)) as [key|e] eqn:Hkey.
  2:{ rewrite (translate_page_key_raise E doc d total tr rgb tn tl i pn p e w) in H
        by assumption.
      injection H as <- <-. reflexivity. }
  assert (Hpk : page_key d tn tl pn = Some key) by (apply page_key_Some; eauto).
  assert (Hne : k <> key) by congruence.
  destruct (fs w !! key) as [[dc|why]|] eqn:Hfs.
  - rewrite (translate_page_hit E doc d total tr rgb tn tl i pn p key dc w) in H
      by assumption.
    injection H as <- <-. reflexivity.
  - destruct (translate_page_miss_run E doc d total tr rgb tn tl i pn p key w r w'
                Hok Hd Hpn Hp Hkey Htot ltac:(rewrite Hfs; discriminate) H)
      as (ops & evs & _ & _ & _ & Hoth & _). apply Hoth, Hne.
  - destruct (translate_page_miss_run E doc d total tr rgb tn tl i pn p key w r w'
                Hok Hd Hpn Hp Hkey Htot ltac:(rewrite Hfs; discriminate) H)
      as (ops & evs & _ & _ & _ & Hoth & _). apply Hoth, Hne.
Qed.

Lemma page_loop_frame E doc d total tr rgb tn tl :
  translator_ok tr -> total <> 0 ->
  forall items acc hits w r w',
    heap w !! doc = Some d -> Forall (in_range d) items ->
    page_loop E doc total tr rgb tn tl items acc hits w = (r, w') ->
    forall k, Forall (fun item => page_key d tn tl (snd item) <> Some k) items ->
              fs w' !! k = fs w !! k.
Proof.
  intros Hok Htot. induction items as [|[i pn] rest IH];
    intros acc hits w r w' Hd Hin H k Hk.
  - cbn in H. injection H as <- <-. reflexivity.
  - cbn [page_loop] in H. inversion Hin as [|? ? Hin1 Hin2]; subst.
    inversion Hk as [|? ? Hk1 Hk2]; subst.
    apply bind_inv in H as [([id hit] & w1 & Hp & H) | (e & Hp & ->)].
    + pose proof (translate_page_frame E doc d total tr rgb tn tl (i, pn) _ _ _
                    Hok Hd Hin1 Htot Hp k Hk1) as Hf1.
      destruct (translate_page_run E doc d total tr rgb tn tl (i, pn) _ _ _
                  Hok Hd Hin1 Htot Hp) as (hs1 & _ & Hh1 & _).
      assert (Hd1 : heap w1 !! doc = Some d).
      { rewrite Hh1. rewrite lookup_app_l by eauto using lookup_lt_Some. exact Hd. }
      rewrite (IH _ _ _ _ _ Hd1 Hin2 H k Hk2). exact Hf1.
    + exact (translate_page_frame E doc d total tr rgb tn tl (i, pn) _ _ _
               Hok Hd Hin1 Htot Hp k Hk1).
Qed.

(** At a position that the loop gets to, the cache directory is as
    before the call under the key of the page at that position. *)
Lemma loop_reaches_frame E doc d start num tr text_color tn tl w j acc hits wj key :
  translator_ok tr -> heap w !! doc = Some d -> 0 <= start ->
  loop_reaches E doc d start num tr text_color tn tl w j acc hits wj ->
  page_key d tn tl (start + Z.of_nat j) = Some key ->
  fs wj !! key = fs w !! key.
Proof.
  intros Hok Hd Hs Hreach Hkey. unfold loop_reaches in Hreach.
  destruct (decide (total_of d start num = 0)) as [Hz|Htot].
  { assert (Hnil : items_of d start num = []).
    { unfold items_of. rewrite py_range_nil; [reflexivity|]. unfold total_of in Hz. lia. }
    rewrite Hnil, take_nil in Hreach. cbn in Hreach. injection Hreach as _ _ <-.
    reflexivity. }
  assert (Hd0 : heap (World (heap w) (fs w) (trace w ++ start_events tr tn)) !! doc
                = Some d) by exact Hd.
  apply (page_loop_frame E doc d _ tr (color_of text_color) tn tl Hok Htot
           _ _ _ _ _ _ Hd0 (Forall_take _ _ _ (items_of_in_range d start num Hs))
           Hreach key).
  apply Forall_lookup. intros j' [i pn] Hj'. cbn [snd].
  apply lookup_take_Some in Hj' as [Hj' Hlt].
  unfold items_of in Hj'. rewrite enumerate_lookup in Hj'.
  destruct (py_range _ _ !! j') as [x|] eqn:Hx; [|discriminate].
  injection Hj' as <- <-. apply py_range_lookup in Hx as [-> _].
  intros Hkey'. pose proof (page_key_inj _ _ _ _ _ _ Hkey' Hkey). lia.
Qed.

(** A call that returns has got to every position of its range. *)
Lemma call_returns_reaches E doc d db start num tr text_color tn tl w pages w' j :
  heap w !! doc = Some d ->
  translate_pdf_pages E doc db start num tr text_color tn tl w = (Ok pages, w') ->
  exists acc hits wj,
    loop_reaches E doc d start num tr text_color tn tl w j acc hits wj.
Proof.
  intros Hd Hrun.
  rewrite (translate_pdf_pages_eq E doc d) in Hrun by exact Hd. cbv zeta in Hrun.
  fold (total_of d start num) in Hrun. fold (items_of d start num) in Hrun.
  rewrite <- (take_drop j (items_of d start num)), page_loop_app in Hrun.
  unfold loop_reaches.
  destruct (page_loop _ _ _ _ _ _ _ (take j _) _ _ _) as [[[acc hits]|e] wj];
    [eauto|discriminate].
Qed.

(** * The claims about the page pipeline *)

(** C10. [translate_pdf_pages] does not modify the input document,
    whatever its arguments and however the call ends: every document
    object that existed before the call, the input among them, is
    afterwards what it was (all drawing goes to the copies made by the
    call). From a non-negative start page, the entries returned are
    document objects created by the call, distinct from one another and
    from the input, and each has one page as long as the PDFs found in the
    cache have one page, as those written by [save_translation_cache] do
    (the cache then still has this property). *)
Theorem translate_pdf_pages_preserves_input
    (E : Env) (doc : nat) (d : document) (doc_bytes : option bytes)
    (start_page num_pages : Z) (tr : translator)
    (text_color translator_name target_lang : str) (w : world)
    (r : res (list nat)) (w' : world) :
  heap w !! doc = Some d ->
  translator_ok tr ->
  translate_pdf_pages E doc doc_bytes start_page num_pages tr text_color
    translator_name target_lang w = (r, w') ->
  heap w' !! doc = Some d
  /\ (forall id x, heap w !! id = Some x -> heap w' !! id = Some x)
  /\ (0 <= start_page ->
      match r with
      | Ok pages =>
          NoDup pages
          /\ Forall (fun id => (length (heap w) <= id)%nat /\ id <> doc) pages
          /\ (cache_single_page (fs w) ->
              cache_single_page (fs w')
              /\ Forall (fun id => exists di, heap w' !! id = Some di
                                              /\ length (doc_pages di) = 1%nat) pages)
      | Raise _ => True
      end).
Proof.
  intros Hd Hok Hrun.
  assert (Hold : forall id x, heap w !! id = Some x -> heap w' !! id = Some x).
  { intros id x Hx.
    destruct (keeps_translate_pdf_pages (length (heap w)) E doc doc_bytes start_page
                num_pages tr text_color translator_name target_lang Hok w r w'
                (Nat.le_refl _) Hrun) as (_ & Htake & _).
    rewrite firstn_all in Htake.
    rewrite <- Htake in Hx. apply lookup_take_Some in Hx as [Hx _]. exact Hx. }
  split; [apply Hold, Hd|]. split; [exact Hold|]. intros Hs.
  destruct (translate_pdf_pages_run E doc d doc_bytes start_page num_pages tr
              text_color translator_name target_lang w r w' Hok Hd Hs Hrun)
    as (hs & evs & Hh & _ & _ & Hc & Hr).
  destruct r as [pages|e]; [|exact I].
  destruct Hr as (-> & Hlen & _).
  split; [apply NoDup_seq|]. split.
  - apply Forall_forall. intros id Hin. apply elem_of_seq in Hin.
    pose proof (lookup_lt_Some _ _ _ Hd). lia.
  - intros Hsingle. destruct (Hc Hsingle) as [Hall Hc'].
    split; [exact (Hc' _ eq_refl)|].
    apply Forall_forall. intros id Hin. apply elem_of_seq in Hin.
    destruct (lookup_lt_is_Some_2 hs (id - length (heap w))) as [di Hdi]; [lia|].
    exists di. split.
    + rewrite Hh, lookup_app_r by lia. exact Hdi.
    + rewrite Forall_forall in Hall. apply Hall. eapply list_elem_of_lookup_2, Hdi.
Qed.

Lemma start_events_quiet tr tn :
  Forall (fun e => is_translation_work e = false) (start_events tr tn).
Proof. repeat constructor. Qed.

Lemma end_events_quiet hits total :
  Forall (fun e => is_translation_work e = false) (end_events hits total).
Proof. unfold end_events. destruct (0 <? hits); repeat constructor. Qed.

(** C1 (as amended). Once a call from a non-negative start page has
    returned, the same call again, in the world the first one left and
    whatever the collaborators would now do, takes the cache-hit branch for
    every page: it returns as many entries, each a new document object
    with the content of the corresponding entry of the first call; it
    submits nothing to the translator, calls no endpoint, draws nothing,
    saves nothing, and leaves the cache directory as it was. *)
Theorem second_run_is_served_from_cache
    (E E2 : Env) (doc : nat) (d : document) (doc_bytes : option bytes)
    (start_page num_pages : Z) (tr : translator)
    (text_color translator_name target_lang : str) (w : world)
    (pages : list nat) (w1 : world) :
  heap w !! doc = Some d ->
  0 <= start_page ->
  translator_ok tr ->
  translate_pdf_pages E doc doc_bytes start_page num_pages tr text_color
    translator_name target_lang w = (Ok pages, w1) ->
  exists pages2 hs evs,
    translate_pdf_pages E2 doc doc_bytes start_page num_pages tr text_color
      translator_name target_lang w1
    = (Ok pages2, World (heap w1 ++ hs) (fs w1) (trace w1 ++ evs))
    /\ Forall (fun e => is_translation_work e = false) evs
    /\ length pages2 = length pages
    /\ forall j id id2,
         pages !! j = Some id -> pages2 !! j = Some id2 ->
         exists di, heap w1 !! id = Some di /\ (heap w1 ++ hs) !! id2 = Some di.
Proof.
  intros Hd Hs Hok Hrun.
  destruct (translate_pdf_pages_run E doc d doc_bytes start_page num_pages tr
              text_color translator_name target_lang w _ _ Hok Hd Hs Hrun)
    as (hs1 & evs1 & Hh & _ & _ & _ & -> & Hlen & Hitems).
  set (n := Z.of_nat (length (doc_pages d))) in *.
  set (count := expected_count n start_page num_pages) in *.
  assert (Hd1 : heap w1 !! doc = Some d).
  { rewrite Hh, lookup_app_l by eauto using lookup_lt_Some. exact Hd. }
  rewrite (translate_pdf_pages_eq E2 doc d) by exact Hd1. cbv zeta. fold n.
  set (stop := Z.min (start_page + num_pages) n) in *.
  pose proof (range_length start_page num_pages n) as Hrl. fold stop count in Hrl.
  destruct (decide (stop <= start_page)) as [Hempty|Hne].
  - rewrite py_range_nil in Hrl |- * by exact Hempty.
    change (length (@enumerate Z [])) with 0%nat in Hrl. rewrite <- Hrl.
    cbn [enumerate imap page_loop]. unfold ret. cbn [heap fs trace seq length].
    exists [], [], (start_events tr translator_name ++ end_events 0 (stop - start_page)).
    rewrite app_nil_r, <- app_assoc.
    split; [reflexivity|].
    split; [apply Forall_app; split; [apply start_events_quiet|apply end_events_quiet]|].
    split; [reflexivity|]. intros j id id2 Hj. discriminate Hj.
  - assert (Htot : stop - start_page <> 0) by lia.
    set (w0 := World (heap w1) (fs w1) (trace w1 ++ start_events tr translator_name)).
    assert (Hall : Forall (fun item =>
                in_range d item
                /\ exists key dc, page_key d translator_name target_lang (snd item)
                                  = Some key
                                  /\ fs w0 !! key = Some (PdfFile dc))
              (enumerate (py_range start_page stop))).
    { apply Forall_lookup. intros j [i pn] Hj.
      pose proof (range_in_range d start_page num_pages Hs) as Hin.
      fold n stop in Hin. rewrite Forall_lookup in Hin. specialize (Hin _ _ Hj).
      split; [exact Hin|].
      pose proof (lookup_lt_Some _ _ _ Hj) as Hlt. rewrite Hrl in Hlt.
      rewrite enumerate_lookup in Hj.
      destruct (py_range _ _ !! j) as [x|] eqn:Hx; [|discriminate].
      injection Hj as <- <-. apply py_range_lookup in Hx as [-> _]. cbn [snd].
      destruct (Hitems j Hlt) as (key & di & Hk & _ & Hfs). eauto. }
    destruct (page_loop_hits E2 doc d (stop - start_page) tr (color_of text_color)
                translator_name target_lang Htot _ [] 0 w0 Hd1 Hall)
      as (hs & evs & Hloop & Hquiet & Hl2 & Hitems2).
    rewrite Hloop. cbn [heap fs trace w0 app].
    exists (seq (length (heap w1)) (length (enumerate (py_range start_page stop)))),
      hs, (start_events tr translator_name ++ evs
           ++ end_events (0 + Z.of_nat (length (enumerate (py_range start_page stop))))
                (stop - start_page)).
    split; [rewrite <- !app_assoc; reflexivity|].
    split.
    { apply Forall_app. split; [apply start_events_quiet|].
      apply Forall_app. split; [exact Hquiet|apply end_events_quiet]. }
    split; [rewrite !length_seq; exact Hrl|].
    intros j id id2 Hj Hj2.
    apply lookup_seq in Hj as [-> Hlt]. apply lookup_seq in Hj2 as [-> Hlt2].
    destruct (Hitems j Hlt) as (key & di & Hk & Hhs & Hfs).
    destruct (lookup_lt_is_Some_2 (enumerate (py_range start_page stop)) j Hlt2)
      as [[i pn] Hitem].
    destruct (Hitems2 j _ Hitem) as (key' & di' & Hk' & Hhs' & Hfs').
    assert (pn = start_page + Z.of_nat j) as ->.
    { rewrite enumerate_lookup in Hitem.
      destruct (py_range _ _ !! j) as [x|] eqn:Hx; [|discriminate].
      injection Hitem as <- <-. apply py_range_lookup in Hx as [-> _]. reflexivity. }
    cbn [snd] in Hk'. rewrite Hk in Hk'. injection Hk' as <-.
    cbn [w0 fs] in Hfs'. rewrite Hfs in Hfs'. injection Hfs' as <-.
    exists di. split.
    + rewrite Hh, lookup_app_r by lia.
      replace (length (heap w) + j - length (heap w))%nat with j by lia. exact Hhs.
    + rewrite lookup_app_r by lia.
      replace (length (heap w1) + j - length (heap w1))%nat with j by lia. exact Hhs'.
Qed.

Lemma entry_at_position {A} (l hs hs' lj : list A) (x : A) j :
  lj = l ++ hs -> length hs = j ->
  ((lj ++ [x]) ++ hs') !! (length l + j)%nat = Some x.
Proof.
  intros -> <-. rewrite <- length_app.
  rewrite lookup_app_l by (rewrite !length_app; cbn; lia).
  apply lookup_at_end.
Qed.

Lemma below_expected_count n start num j :
  (j < expected_count n start num)%nat -> Z.of_nat j < num.
Proof. unfold expected_count. lia. Qed.

(** C3. A call that returns gives exactly
    [max(0, min(count, page_count - start_page))] entries, whatever the
    start page and the count. From a non-negative start page, entry [j]
    is a document object created by this call for source page
    [start_page + j], so the entries follow the pages in ascending order:
    it holds what the cache holds under the key of that page after the
    call, which is the PDF that the cache held under that key before the
    call, if it held one, and otherwise the copy of that source page (its
    text and blocks, in a document of one page) with the two drawing
    operations of each of its blocks over it, in the order of the blocks.
    The call does return when the collaborators (translator, drawing,
    saving) succeed and the page texts encode. With [start_page] at or
    beyond the page count it returns the empty sequence, whatever the
    collaborators do. *)
Theorem translate_pdf_pages_count_and_order
    (E : Env) (doc : nat) (d : document) (doc_bytes : option bytes)
    (start_page num_pages : Z) (tr : translator)
    (text_color translator_name target_lang : str) (w : world) :
  heap w !! doc = Some d ->
  let n := Z.of_nat (length (doc_pages d)) in
  let run := translate_pdf_pages E doc doc_bytes start_page num_pages tr
               text_color translator_name target_lang w in
  (forall pages w',
     run = (Ok pages, w') -> length pages = expected_count n start_page num_pages)
  /\ (0 <= start_page -> translator_ok tr ->
      forall pages w',
        run = (Ok pages, w') ->
        forall j id,
          pages !! j = Some id ->
          id = (length (heap w) + j)%nat
          /\ exists p key di,
               doc_pages d !! Z.to_nat (start_page + Z.of_nat j) = Some p
               /\ get_cache_key (doc_metadata d) (start_page + Z.of_nat j)
                    translator_name target_lang (pg_text p) = Ok key
               /\ heap w' !! id = Some di
               /\ fs w' !! key = Some (PdfFile di)
               /\ match fs w !! key with
                  | Some (PdfFile dc) => di = dc
                  | _ =>
                      exists runs,
                        map br_block runs = pg_blocks p
                        /\ di = Document ∅
                                  [drawn_page p
                                     (flat_map (br_ops (css_of (color_of text_color)))
                                        runs)]
                  end)
  /\ (0 <= start_page -> translator_ok tr -> translator_total tr ->
      (forall h op, page_draw E h op = None) ->
      (forall h k, file_save E h k = Saved) ->
      (forall pn, start_page <= pn < Z.min (start_page + num_pages) n ->
                  is_Some (page_key d translator_name target_lang pn)) ->
      exists pages w', run = (Ok pages, w'))
  /\ (n <= start_page -> exists w', run = (Ok [], w')).
Proof.
  intros Hd n run. split; [|split; [|split]].
  - intros pages w' Hrun. unfold run in Hrun.
    rewrite (translate_pdf_pages_eq E doc d) in Hrun by exact Hd. cbv zeta in Hrun.
    fold n in Hrun.
    destruct (page_loop _ _ _ _ _ _ _ _ _ _ _) as [[[pages' hits]|e] w1] eqn:Hloop;
      [|discriminate].
    injection Hrun as <- _. apply page_loop_length in Hloop.
    rewrite Hloop. cbn [length]. apply range_length.
  - intros Hs Hok pages w' Hrun.
    destruct (translate_pdf_pages_run E doc d doc_bytes start_page num_pages tr
                text_color translator_name target_lang w _ _ Hok Hd Hs Hrun)
      as (hs & evs & Hh & _ & _ & _ & Hpages & Hl & Hitems).
    fold n in Hl, Hitems, Hpages.
    intros j id Hj. rewrite Hpages in Hj.
    apply lookup_seq in Hj as [-> Hlt]. split; [reflexivity|].
    destruct (Hitems j Hlt) as (key & di & Hk & Hhs & Hfs).
    apply page_key_Some in Hk as Hk'. destruct Hk' as (p & Hp & Hkey).
    assert (Hentry : heap w' !! (length (heap w) + j)%nat = Some di).
    { rewrite Hh, lookup_app_r by lia.
      replace (length (heap w) + j - length (heap w))%nat with j by lia. exact Hhs. }
    exists p, key, di.
    split; [exact Hp|]. split; [exact Hkey|]. split; [exact Hentry|].
    split; [exact Hfs|].
    pose proof (below_expected_count _ _ _ _ Hlt) as Hjn.
    pose proof (items_of_lookup d start_page num_pages j p Hs Hjn Hp) as Hitem.
    pose proof (total_of_nonzero _ _ _ _ _ Hitem) as Htot.
    pose proof (lookup_lt_Some _ _ _ Hitem) as Hjl.
    destruct (call_returns_reaches E doc d doc_bytes start_page num_pages tr text_color
                translator_name target_lang w pages w' j Hd Hrun)
      as (acc & hits & wj & Hreach).
    destruct (loop_reaches_world E doc d start_page num_pages tr text_color
                translator_name target_lang w j acc hits wj Hok Hd Hs Hreach
                ltac:(lia))
      as (hsj & _ & Hhj & Hlenj & _ & _ & _ & Hdj).
    pose proof (loop_reaches_frame E doc d start_page num_pages tr text_color
                  translator_name target_lang w j acc hits wj key Hok Hd Hs Hreach Hk)
      as Hframe.
    assert (Hpn : 0 <= start_page + Z.of_nat j) by lia.
    assert (Hcases : (exists dc, fs w !! key = Some (PdfFile dc))
                     \/ (forall x, fs w !! key <> Some (PdfFile x))).
    { destruct (fs w !! key) as [[dc|why]|]; [left; eauto|right; discriminate..]. }
    destruct Hcases as [[dc Hfsw]|Hmissw].
    + rewrite Hfsw. rewrite Hfsw in Hframe.
      pose proof (translate_page_hit E doc d (total_of d start_page num_pages) tr
                    (color_of text_color) translator_name target_lang (Z.of_nat j)
                    (start_page + Z.of_nat j) p key dc wj Hdj Hpn Hp Hkey Htot Hframe)
        as Hpage.
      pose proof (loop_reaches_next E doc d start_page num_pages tr text_color
                    translator_name target_lang w j acc hits wj _ _ _ _
                    Hreach Hitem Hpage) as Hnext.
      destruct (call_after_position E doc d doc_bytes start_page num_pages tr text_color
                  translator_name target_lang w (S j) _ _ _ _ _ Hok Hd Hs Hnext
                  ltac:(lia) Hrun) as (hs' & _ & Hh' & _).
      cbn [heap] in Hh'.
      rewrite Hh', (entry_at_position _ hsj hs' _ dc j Hhj Hlenj) in Hentry.
      congruence.
    + assert (Hmiss : forall x, fs wj !! key <> Some (PdfFile x))
        by (rewrite Hframe; exact Hmissw).
      assert (Hgoal : exists runs,
                 map br_block runs = pg_blocks p
                 /\ di = Document ∅
                           [drawn_page p
                              (flat_map (br_ops (css_of (color_of text_color))) runs)]).
      { destruct (miss_in_call E doc d doc_bytes start_page num_pages tr text_color
                    translator_name target_lang w j acc hits wj p key
                    Hd Hs Hok Hreach Hjn Hp Hkey Hmiss)
          as (runs & _ & _ & [[Hmap Hsave] | (b & post & e & w2 & _ & _ & Hraise)]).
        2:{ unfold run in Hrun. rewrite Hraise in Hrun. discriminate. }
        exists runs. split; [exact Hmap|].
        destruct (file_save E _ key) as [|e left_behind].
        2:{ unfold run in Hrun. rewrite Hsave in Hrun. discriminate. }
        destruct (call_after_position E doc d doc_bytes start_page num_pages tr
                    text_color translator_name target_lang w (S j) _ _ _ _ _
                    Hok Hd Hs Hsave ltac:(lia) Hrun) as (hs' & _ & Hh' & _).
        cbn [heap] in Hh'.
        rewrite Hh', (entry_at_position _ hsj hs' _ _ j Hhj Hlenj) in Hentry.
        congruence. }
      destruct (fs w !! key) as [[dc|why]|] eqn:Hfsw;
        [exfalso; exact (Hmissw dc eq_refl)|exact Hgoal..].
  - intros Hs Hok Htt Hdraw Hsave Hkeys. unfold run.
    rewrite (translate_pdf_pages_eq E doc d) by exact Hd. cbv zeta. fold n.
    set (stop := Z.min (start_page + num_pages) n) in *.
    destruct (decide (stop <= start_page)) as [Hempty|Hne].
    + rewrite py_range_nil by exact Hempty. cbn. eauto.
    + assert (Htot : stop - start_page <> 0) by lia.
      edestruct (page_loop_total E doc d (stop - start_page) tr (color_of text_color)
                   translator_name target_lang Hok Htt Hdraw Hsave Htot
                   (enumerate (py_range start_page stop)) [] 0)
        as (pages & hits & w1 & ->); [| |  |eauto].
      * cbn [heap]. exact Hd.
      * apply (range_in_range d start_page num_pages Hs).
      * apply Forall_lookup. intros j [i pn] Hj. rewrite enumerate_lookup in Hj.
        destruct (py_range _ _ !! j) as [x|] eqn:Hx; [|discriminate].
        injection Hj as <- <-. apply py_range_lookup in Hx as [-> Hlt].
        unfold has_key. cbn [snd]. apply Hkeys. lia.
  - intros Hout. unfold run.
    rewrite (translate_pdf_pages_eq E doc d) by exact Hd. cbv zeta. fold n.
    rewrite py_range_nil by lia. cbn. eauto.
Qed.

(** C8 (as amended). On every page that a call does not serve from the
    cache, whatever the range and whatever the call does afterwards, the
    blocks are taken in extraction order, one at a time
    ([handled_in_turn]): the block is submitted to the translator; after
    the translator has returned, the rectangle is erased on the copy of
    the page; then what the translator returned is rendered into it; only
    then is the next block submitted. So translation and drawing
    alternate; there is no phase in which all blocks are translated before
    the first is drawn. The handling of the page ends in one of three
    ways: every block has been handled and the copy, which carries exactly
    the drawing operations of these blocks in this order, is saved,
    whereupon the loop gets to the next page; or the save raises, and so
    does the call; or the loop stops at the first block that is not
    handled (the translator or the library raises), and so does the
    call. *)
Theorem blocks_are_translated_and_drawn_in_turn
    (E : Env) (doc : nat) (d : document) (doc_bytes : option bytes)
    (start_page num_pages : Z) (tr : translator)
    (text_color translator_name target_lang : str) (w : world)
    (j : nat) (translated_pages : list nat) (cache_hits : Z) (wj : world)
    (p : page) (key : str) :
  heap w !! doc = Some d ->
  0 <= start_page ->
  translator_ok tr ->
  loop_reaches E doc d start_page num_pages tr text_color translator_name target_lang
    w j translated_pages cache_hits wj ->
  Z.of_nat j < num_pages ->
  doc_pages d !! Z.to_nat (start_page + Z.of_nat j) = Some p ->
  get_cache_key (doc_metadata d) (start_page + Z.of_nat j) translator_name target_lang
    (pg_text p) = Ok key ->
  (forall x, fs wj !! key <> Some (PdfFile x)) ->
  let page_num := start_page + Z.of_nat j in
  let id := length (heap wj) in
  let css := css_of (color_of text_color) in
  let w1 := miss_start wj p key page_num in
  let call := translate_pdf_pages E doc doc_bytes start_page num_pages tr text_color
                translator_name target_lang w in
  exists runs,
    handled_in_turn E tr id ∅ css p w1 runs
    /\ let w2 := after_runs w1 id ∅ css p runs in
       let di := Document ∅ [drawn_page p (flat_map (br_ops css) runs)] in
       heap w2 = heap wj ++ [di]
       /\ ((map br_block runs = pg_blocks p
            /\ match file_save E (trace w2 ++ [Mkdir]) key with
               | Saved =>
                   loop_reaches E doc d start_page num_pages tr text_color
                     translator_name target_lang w (S j)
                     (translated_pages ++ [id]) cache_hits
                     (World (heap wj ++ [di]) (<[key := PdfFile di]> (fs wj))
                        (trace w2 ++ [Mkdir; FileSave key id]
                         ++ stored_events (Z.of_nat j) page_num
                              (total_of d start_page num_pages)))
               | SaveFailed e left_behind =>
                   call = (Raise e,
                           World (heap wj ++ [di])
                             (after_failed_save (fs wj) key left_behind)
                             (trace w2 ++ [Mkdir; FileSave key id]))
               end)
           \/ (exists b post e w',
                 pg_blocks p = map br_block runs ++ b :: post
                 /\ stops_at E tr id ∅ css (drawn_page p (flat_map (br_ops css) runs))
                      w2 b e w'
                 /\ call = (Raise e, w'))).
Proof.
  intros Hd Hs Hok Hreach Hj Hp Hkey Hmiss.
  exact (miss_in_call E doc d doc_bytes start_page num_pages tr text_color
           translator_name target_lang w j translated_pages cache_hits wj p key
           Hd Hs Hok Hreach Hj Hp Hkey Hmiss).
Qed.

(** C9 (as amended). On every page that a call does not serve from the
    cache, whatever the range: when the blocks [runs] have been handled in
    turn, the translator has returned [v] for the next block [b], and the
    library then refuses to erase the rectangle of [b], or erases it and
    refuses to render [str(v)] into it, raising [e], then the call raises
    [e]. Nothing catches or logs the failure: the refused call of the
    library is the last thing that happens. The copy of the page carries
    the drawings of the blocks before [b] (and the erased rectangle of [b]
    when it is the rendering that failed) and nothing of the blocks after
    [b], which are not submitted either; the cache directory is as it was
    when the page was taken up, so the page is not saved; and no page is
    returned, not even those completed before. *)
Theorem block_failure_aborts_the_call
    (E : Env) (doc : nat) (d : document) (doc_bytes : option bytes)
    (start_page num_pages : Z) (tr : translator)
    (text_color translator_name target_lang : str) (w : world)
    (j : nat) (translated_pages : list nat) (cache_hits : Z) (wj : world)
    (p : page) (key : str) (runs : list block_run) (b : block) (post : list block)
    (v : value) (tevs : list event) (failure : draw_failure) (e : exn) :
  heap w !! doc = Some d ->
  0 <= start_page ->
  translator_ok tr ->
  loop_reaches E doc d start_page num_pages tr text_color translator_name target_lang
    w j translated_pages cache_hits wj ->
  Z.of_nat j < num_pages ->
  doc_pages d !! Z.to_nat (start_page + Z.of_nat j) = Some p ->
  get_cache_key (doc_metadata d) (start_page + Z.of_nat j) translator_name target_lang
    (pg_text p) = Ok key ->
  (forall x, fs wj !! key <> Some (PdfFile x)) ->
  pg_blocks p = map br_block runs ++ b :: post ->
  let page_num := start_page + Z.of_nat j in
  let id := length (heap wj) in
  let css := css_of (color_of text_color) in
  let w1 := miss_start wj p key page_num in
  let w2 := after_runs w1 id ∅ css p runs in
  handled_in_turn E tr id ∅ css p w1 runs ->
  answers tr (blk_text b) w2 (Ok v) tevs ->
  refuses E id css (trace w2 ++ Submit (blk_text b) :: tevs) b v failure e ->
  exists w',
    translate_pdf_pages E doc doc_bytes start_page num_pages tr text_color
      translator_name target_lang w = (Raise e, w')
    /\ heap w' = heap wj
                 ++ [Document ∅ [drawn_page p (flat_map (br_ops css) runs
                                               ++ accepted_ops failure b)]]
    /\ fs w' = fs wj
    /\ trace w' = trace wj
                  ++ miss_events key page_num (rejected (fs wj) key)
                  ++ flat_map (br_trace id css) runs
                  ++ Submit (blk_text b) :: tevs
                  ++ map (Draw id) (attempted_ops css b v failure).
Proof.
  intros Hd Hs Hok Hreach Hj Hp Hkey Hmiss Hblocks page_num id css w1 w2
    Hruns Hans Href.
  pose proof (items_of_lookup d start_page num_pages j p Hs Hj Hp) as Hitem.
  pose proof (total_of_nonzero _ _ _ _ _ Hitem) as Htot.
  destruct (loop_reaches_world E doc d start_page num_pages tr text_color
              translator_name target_lang w j translated_pages cache_hits wj
              Hok Hd Hs Hreach ltac:(apply Nat.lt_le_incl; eauto using lookup_lt_Some))
    as (_ & _ & _ & _ & _ & _ & _ & Hdj).
  assert (Hpn : 0 <= page_num) by (unfold page_num; lia).
  set (w' := drawn_world w2 id ∅ (drawn_page p (flat_map (br_ops css) runs))
               (accepted_ops failure b)
               (Submit (blk_text b) :: tevs
                ++ map (Draw id) (attempted_ops css b v failure))).
  assert (Hstop : stops_at E tr id ∅ css (drawn_page p (flat_map (br_ops css) runs))
                    w2 b e w').
  { right. exists v, tevs, failure. auto. }
  pose proof (translate_page_stops E doc d (total_of d start_page num_pages) tr
                (color_of text_color) translator_name target_lang (Z.of_nat j)
                page_num p key wj runs b post e w'
                Hdj Hpn Hp Hkey Htot Hmiss Hruns Hblocks Hstop) as Hpage.
  exists w'. split.
  { exact (call_raises_at_page E doc d doc_bytes start_page num_pages tr text_color
             translator_name target_lang w j translated_pages cache_hits wj
             page_num e w' Hd Hreach Hitem Hpage). }
  unfold w', w2, after_runs, drawn_world, w1, miss_start, id.
  cbn [heap fs trace pg_text pg_blocks pg_drawn drawn_page].
  split; [|split; [reflexivity|]].
  - rewrite list_insert_insert_eq, insert_at_end, <- app_assoc. reflexivity.
  - rewrite <- !app_assoc. reflexivity.
Qed.

(** C4 (as amended). The cache write is one [doc.save] to the final path
    and its failure is neither caught nor logged. On every page that a
    call does not serve from the cache, whatever the range: when every
    block has been handled in turn and the save raises [e], the call
    raises [e], the save being the last thing that happens; no page is
    returned, although this one was translated and drawn in full. The
    write is not atomic: the path holds what the failed save left there
    (or what it held before, if the save left nothing), and a later
    [get_cached_translation] goes by what [pymupdf.open] makes of that.
    A partial file that it repairs and opens is loaded and returned, as
    any cached page is; content that it rejects is logged and reported as
    absent; and when the save left nothing, the key is absent as it was
    before. *)
Theorem save_failure_aborts_the_call
    (E : Env) (doc : nat) (d : document) (doc_bytes : option bytes)
    (start_page num_pages : Z) (tr : translator)
    (text_color translator_name target_lang : str) (w : world)
    (j : nat) (translated_pages : list nat) (cache_hits : Z) (wj : world)
    (p : page) (key : str) (runs : list block_run)
    (e : exn) (left_behind : option file) :
  heap w !! doc = Some d ->
  0 <= start_page ->
  translator_ok tr ->
  loop_reaches E doc d start_page num_pages tr text_color translator_name target_lang
    w j translated_pages cache_hits wj ->
  Z.of_nat j < num_pages ->
  doc_pages d !! Z.to_nat (start_page + Z.of_nat j) = Some p ->
  get_cache_key (doc_metadata d) (start_page + Z.of_nat j) translator_name target_lang
    (pg_text p) = Ok key ->
  (forall x, fs wj !! key <> Some (PdfFile x)) ->
  map br_block runs = pg_blocks p ->
  let page_num := start_page + Z.of_nat j in
  let id := length (heap wj) in
  let css := css_of (color_of text_color) in
  let w1 := miss_start wj p key page_num in
  let w2 := after_runs w1 id ∅ css p runs in
  handled_in_turn E tr id ∅ css p w1 runs ->
  file_save E (trace w2 ++ [Mkdir]) key = SaveFailed e left_behind ->
  exists w',
    translate_pdf_pages E doc doc_bytes start_page num_pages tr text_color
      translator_name target_lang w = (Raise e, w')
    /\ heap w' = heap wj ++ [Document ∅ [drawn_page p (flat_map (br_ops css) runs)]]
    /\ fs w' = after_failed_save (fs wj) key left_behind
    /\ trace w' = trace wj
                  ++ miss_events key page_num (rejected (fs wj) key)
                  ++ flat_map (br_trace id css) runs
                  ++ [Mkdir; FileSave key id]
    /\ get_cached_translation key w'
       = match left_behind with
         | Some (PdfFile partial) =>
             (Ok (Some (length (heap w'))),
              World (heap w' ++ [partial]) (fs w') (trace w' ++ [Mkdir; FileOpen key]))
         | Some (Damaged why) =>
             (Ok None,
              World (heap w') (fs w')
                (trace w' ++ [Mkdir; FileOpen key;
                              Log ERROR (lit "Error loading cache: " ++ why)]))
         | None =>
             (Ok None,
              World (heap w') (fs w')
                (trace w' ++ absent_events key (rejected (fs wj) key)))
         end.
Proof.
  intros Hd Hs Hok Hreach Hj Hp Hkey Hmiss Hmap page_num id css w1 w2 Hruns Hsave.
  pose proof (items_of_lookup d start_page num_pages j p Hs Hj Hp) as Hitem.
  pose proof (total_of_nonzero _ _ _ _ _ Hitem) as Htot.
  destruct (loop_reaches_world E doc d start_page num_pages tr text_color
              translator_name target_lang w j translated_pages cache_hits wj
              Hok Hd Hs Hreach ltac:(apply Nat.lt_le_incl; eauto using lookup_lt_Some))
    as (_ & _ & _ & _ & _ & _ & _ & Hdj).
  assert (Hpn : 0 <= page_num) by (unfold page_num; lia).
  pose proof (translate_page_after_blocks E doc d (total_of d start_page num_pages) tr
                (color_of text_color) translator_name target_lang (Z.of_nat j)
                page_num p key wj runs Hdj Hpn Hp Hkey Htot Hmiss Hruns Hmap) as Hpage.
  cbv zeta in Hpage. fold id css w1 w2 in Hpage. rewrite Hsave in Hpage.
  eexists. split.
  { exact (call_raises_at_page E doc d doc_bytes start_page num_pages tr text_color
             translator_name target_lang w j translated_pages cache_hits wj
             page_num e _ Hd Hreach Hitem Hpage). }
  cbn [heap fs trace].
  split; [reflexivity|]. split; [reflexivity|]. split.
  { unfold w2, after_runs, drawn_world, w1, miss_start. cbn [trace].
    rewrite <- !app_assoc. reflexivity. }
  destruct left_behind as [[partial|why]|]; cbn [after_failed_save].
  - rewrite get_cached_translation_eq. cbn [heap fs trace].
    rewrite lookup_insert_eq. reflexivity.
  - rewrite get_cached_translation_eq. cbn [heap fs trace].
    rewrite lookup_insert_eq. reflexivity.
  - rewrite get_cached_translation_miss by exact Hmiss. reflexivity.
Qed.

(** C5 (as amended). [get_cached_translation] goes by what [pymupdf.open]
    makes of the file and checks nothing else: a file that it rejects is
    logged and reported as absent, nothing being raised; a file that it
    opens is loaded and returned, whatever document that gives. So, when
    a call gets to a page under whose key the cache holds a file:

    - if [pymupdf.open] opens the file, be it truncated or corrupt, the
      page is served from it: the document it gives is the entry for the
      page, nothing is logged, submitted, drawn or saved, the file stays,
      and the loop goes on to the next page;
    - if [pymupdf.open] rejects the file, the page is handled as one that
      is not in the cache: after the error is logged, its blocks are
      handled in turn on a copy of the page, each rendering being what
      the translator returned for the block; and when the call returns,
      entry [j] of its result is that copy, with the drawings of all the
      blocks, which is also what the cache then holds under the key, in
      place of the rejected file. With a translator that answers, a
      library that draws and a save that succeeds, the page does
      complete. *)
Theorem damaged_cache_entry_is_recomputed
    (E : Env) (doc : nat) (d : document) (doc_bytes : option bytes)
    (start_page num_pages : Z) (tr : translator)
    (text_color translator_name target_lang : str) (w : world)
    (j : nat) (translated_pages : list nat) (cache_hits : Z) (wj : world)
    (p : page) (key : str) (artifact : file) :
  heap w !! doc = Some d ->
  0 <= start_page ->
  translator_ok tr ->
  loop_reaches E doc d start_page num_pages tr text_color translator_name target_lang
    w j translated_pages cache_hits wj ->
  Z.of_nat j < num_pages ->
  doc_pages d !! Z.to_nat (start_page + Z.of_nat j) = Some p ->
  get_cache_key (doc_metadata d) (start_page + Z.of_nat j) translator_name target_lang
    (pg_text p) = Ok key ->
  fs wj !! key = Some artifact ->
  let page_num := start_page + Z.of_nat j in
  let id := length (heap wj) in
  let css := css_of (color_of text_color) in
  let total := total_of d start_page num_pages in
  let call := translate_pdf_pages E doc doc_bytes start_page num_pages tr text_color
                translator_name target_lang w in
  (forall w0,
     get_cached_translation key w0
     = match fs w0 !! key with
       | Some (PdfFile dc) =>
           (Ok (Some (length (heap w0))),
            World (heap w0 ++ [dc]) (fs w0) (trace w0 ++ [Mkdir; FileOpen key]))
       | Some (Damaged why) =>
           (Ok None,
            World (heap w0) (fs w0)
              (trace w0 ++ [Mkdir; FileOpen key;
                            Log ERROR (lit "Error loading cache: " ++ why)]))
       | None => (Ok None, World (heap w0) (fs w0) (trace w0 ++ [Mkdir]))
       end)
  /\ match artifact with
     | PdfFile dc =>
         loop_reaches E doc d start_page num_pages tr text_color translator_name
           target_lang w (S j) (translated_pages ++ [id]) (cache_hits + 1)
           (World (heap wj ++ [dc]) (fs wj)
              (trace wj ++ hit_events key (Z.of_nat j) page_num total))
     | Damaged why =>
         let w1 := World (heap wj ++ [Document ∅ [p]]) (fs wj)
                     (trace wj ++ miss_events key page_num (Some why)) in
         (forall r w',
            call = (r, w') ->
            exists runs later,
              handled_in_turn E tr id ∅ css p w1 runs
              /\ trace w' = trace w1 ++ flat_map (br_trace id css) runs ++ later
              /\ forall pages,
                   r = Ok pages ->
                   let di := Document ∅ [drawn_page p (flat_map (br_ops css) runs)] in
                   map br_block runs = pg_blocks p
                   /\ pages !! j = Some id
                   /\ heap w' !! id = Some di
                   /\ fs w' !! key = Some (PdfFile di))
         /\ (translator_total tr ->
             (forall h op, page_draw E h op = None) ->
             (forall h, file_save E h key = Saved) ->
             exists runs,
               let di := Document ∅ [drawn_page p (flat_map (br_ops css) runs)] in
               map br_block runs = pg_blocks p
               /\ handled_in_turn E tr id ∅ css p w1 runs
               /\ loop_reaches E doc d start_page num_pages tr text_color
                    translator_name target_lang w (S j) (translated_pages ++ [id])
                    cache_hits
                    (World (heap wj ++ [di]) (<[key := PdfFile di]> (fs wj))
                       (trace w1 ++ flat_map (br_trace id css) runs
                        ++ [Mkdir; FileSave key id]
                        ++ stored_events (Z.of_nat j) page_num total)))
     end.
Proof.
  intros Hd Hs Hok Hreach Hj Hp Hkey Hfs page_num id css total call.
  pose proof (items_of_lookup d start_page num_pages j p Hs Hj Hp) as Hitem.
  pose proof (lookup_lt_Some _ _ _ Hitem) as Hjl.
  pose proof (total_of_nonzero _ _ _ _ _ Hitem) as Htot.
  assert (Hpn : 0 <= page_num) by (unfold page_num; lia).
  destruct (loop_reaches_world E doc d start_page num_pages tr text_color
              translator_name target_lang w j translated_pages cache_hits wj
              Hok Hd Hs Hreach ltac:(lia))
    as (hsj & _ & Hhj & Hlenj & Hacc & _ & _ & Hdj).
  split; [intros w0; apply get_cached_translation_eq|].
  destruct artifact as [dc|why].
  { pose proof (translate_page_hit E doc d total tr (color_of text_color)
                  translator_name target_lang (Z.of_nat j) page_num p key dc wj
                  Hdj Hpn Hp Hkey Htot Hfs) as Hpage.
    exact (loop_reaches_next E doc d start_page num_pages tr text_color
             translator_name target_lang w j translated_pages cache_hits wj
             page_num id true _ Hreach Hitem Hpage). }
  intros w1.
  assert (Hmiss : forall x, fs wj !! key <> Some (PdfFile x))
    by (rewrite Hfs; discriminate).
  assert (Hw1 : miss_start wj p key page_num = w1).
  { unfold miss_start, w1, rejected. rewrite Hfs. reflexivity. }
  clearbody w1.
  split.
  - intros r w' Hrun.
    destruct (miss_in_call E doc d doc_bytes start_page num_pages tr text_color
                translator_name target_lang w j translated_pages cache_hits wj p key
                Hd Hs Hok Hreach Hj Hp Hkey Hmiss)
      as (runs & Hruns & Hh2 & Hcases).
    fold page_num id css in Hruns, Hh2, Hcases. rewrite Hw1 in Hruns, Hh2, Hcases.
    exists runs.
    destruct Hcases as [[Hmap Hsave] | (b & post & e & w2 & _ & Hstop & Hraise)].
    + destruct (file_save E _ key) as [|e left_behind].
      * destruct (call_after_position E doc d doc_bytes start_page num_pages tr
                    text_color translator_name target_lang w (S j) _ _ _ _ _
                    Hok Hd Hs Hsave ltac:(lia) Hrun) as (hs' & evs' & Hh' & Ht' & Hst' & Hr').
        cbn [heap fs trace] in Hh', Ht', Hst'.
        exists ([Mkdir; FileSave key id]
                ++ stored_events (Z.of_nat j) page_num (total_of d start_page num_pages)
                ++ evs').
        split; [exact Hruns|]. split.
        { rewrite Ht'. unfold after_runs, drawn_world. cbn [trace].
          rewrite <- !app_assoc. reflexivity. }
        intros pages Hpages. cbv zeta. split; [exact Hmap|].
        destruct (Hr' pages Hpages) as [rest ->]. split; [|split].
        -- assert (Hla : length translated_pages = j)
             by (rewrite Hacc; apply length_seq).
           rewrite lookup_app_l by (rewrite length_app; cbn [length]; lia).
           rewrite <- Hla. apply lookup_at_end.
        -- rewrite Hh'. unfold id.
           rewrite lookup_app_l by (rewrite length_app; cbn [length]; lia).
           apply lookup_at_end.
        -- apply Hst'. apply lookup_insert_eq.
      * unfold call in Hrun. rewrite Hsave in Hrun. injection Hrun as <- <-.
        exists [Mkdir; FileSave key id]. split; [exact Hruns|]. split.
        { unfold after_runs, drawn_world. cbn [trace].
          rewrite <- !app_assoc. reflexivity. }
        intros pages. discriminate.
    + unfold call in Hrun. rewrite Hraise in Hrun. injection Hrun as <- <-.
      destruct Hstop as [(tevs & _ & ->) | (v & tevs & failure & _ & _ & ->)].
      * exists (Submit (blk_text b) :: tevs). split; [exact Hruns|]. split.
        { unfold after_runs, drawn_world. cbn [heap fs trace].
          rewrite <- !app_assoc. reflexivity. }
        intros pages. discriminate.
      * exists (Submit (blk_text b) :: tevs
                ++ map (Draw id) (attempted_ops css b v failure)).
        split; [exact Hruns|]. split.
        { unfold after_runs, drawn_world. cbn [heap fs trace].
          rewrite <- !app_assoc. reflexivity. }
        intros pages. discriminate.
  - intros Htt Hdraw Hsave.
    destruct (handled_in_turn_total E tr id ∅ css Hok Htt Hdraw (pg_blocks p) p w1)
      as (runs & Hmap & Hruns).
    exists runs. cbv zeta. split; [exact Hmap|]. split; [exact Hruns|].
    rewrite <- Hw1 in Hruns.
    pose proof (translate_page_after_blocks E doc d total tr
                  (color_of text_color) translator_name target_lang (Z.of_nat j)
                  page_num p key wj runs Hdj Hpn Hp Hkey Htot Hmiss Hruns Hmap) as Hpage.
    cbv zeta in Hpage. rewrite Hsave, Hw1 in Hpage. fold id css in Hpage.
    pose proof (loop_reaches_next E doc d start_page num_pages tr text_color
                  translator_name target_lang w j translated_pages cache_hits wj
                  _ _ _ _ Hreach Hitem Hpage) as Hnext.
    unfold after_runs, drawn_world in Hnext. cbn [trace] in Hnext.
    rewrite <- !app_assoc in Hnext. exact Hnext.
Qed.

(** * The theorems at work on sample documents *)

Lemma run_Ok {A} (c : M A) (w : world) (a : A) :
  fst (c w) = Ok a -> c w = (Ok a, snd (c w)).
Proof. destruct (c w) as [r w']. cbn. intros ->. reflexivity. Qed.

Lemma empty_cache_misses (key : str) :
  forall x : document, (∅ : gmap str file) !! key <> Some (PdfFile x).
Proof. intros x. rewrite lookup_empty. discriminate. Qed.

(** The keys of the sample pages are those Python computes. *)
Example sample_keys :
  page_key Samples.letter Samples.name Samples.lang 0 = Some Samples.letter_key
  /\ page_key Samples.twins Samples.name Samples.lang 0 = Some Samples.twins_key
  /\ page_key Samples.twins Samples.name Samples.lang 1
     = Some (lit "2d774b30_5c372a32_page1_OpenAI Compatible_en.pdf")
  /\ page_key Samples.creased Samples.name Samples.lang 1 = Some Samples.creased_key.
Proof. vm_compute. repeat split. Qed.
Lemma translate_pdf_pages_count_and_order_witness :
  let tr := Samples.translator_for Samples.echo in
  let w := Samples.fresh Samples.booklet in
  let zwei := Page (lit "zwei") [Samples.bye] [] in
  heap w !! 0%nat = Some Samples.booklet
  /\ 0 <= 1
  /\ translator_ok tr /\ translator_total tr
  /\ (forall h op, page_draw Samples.echo h op = None)
  /\ (forall h k, file_save Samples.echo h k = Saved)
  /\ (forall pn, 1 <= pn < 3 ->
                 is_Some (page_key Samples.booklet Samples.name Samples.lang pn))
  /\ exists pages w',
       translate_pdf_pages Samples.echo 0 None 1 5 tr Samples.red Samples.name
         Samples.lang w = (Ok pages, w')
       /\ length pages = 2%nat
       /\ pages = [1; 2]%nat
       /\ exists runs,
            map br_block runs = [Samples.bye]
            /\ heap w' !! 1%nat
               = Some (Document ∅
                         [drawn_page zwei
                            (flat_map (br_ops (css_of (color_of Samples.red))) runs)]).
Proof.
  intros tr w zwei.
  assert (H1 : heap w !! 0%nat = Some Samples.booklet) by reflexivity.
  assert (H2 : 0 <= 1) by lia.
  assert (H3 : translator_ok tr) by apply OpenAICompatibleTranslator_ok.
  assert (H4 : translator_total tr) by apply OpenAICompatibleTranslator_total.
  assert (H5 : forall h op, page_draw Samples.echo h op = None)
    by (intros h op; reflexivity).
  assert (H6 : forall h k, file_save Samples.echo h k = Saved)
    by (intros h k; reflexivity).
  assert (H7 : forall pn, 1 <= pn < 3 ->
                 is_Some (page_key Samples.booklet Samples.name Samples.lang pn)).
  { intros pn Hpn. assert (Hcases : pn = 1 \/ pn = 2) by lia.
    destruct Hcases as [-> | ->]; eexists; vm_compute; reflexivity. }
  repeat (split; [assumption|]).
  destruct (translate_pdf_pages_count_and_order Samples.echo 0 Samples.booklet None
              1 5 tr Samples.red Samples.name Samples.lang w H1)
    as (Hcount & Horder & Hreturns & _).
  destruct (Hreturns H2 H3 H4 H5 H6 H7) as (pages & w' & Hrun).
  exists pages, w'. split; [exact Hrun|].
  pose proof (Hcount pages w' Hrun) as Hlen.
  change (expected_count (Z.of_nat (length (doc_pages Samples.booklet))) 1 5)
    with 2%nat in Hlen.
  split; [exact Hlen|].
  destruct pages as [|a [|b [|c rest]]]; try discriminate Hlen.
  destruct (Horder H2 H3 _ _ Hrun 0%nat a eq_refl)
    as [-> (p & key & di & Hp & _ & Hheap & _ & Hcontent)].
  destruct (Horder H2 H3 _ _ Hrun 1%nat b eq_refl) as [-> _].
  split; [reflexivity|].
  change (doc_pages Samples.booklet !! Z.to_nat (1 + Z.of_nat 0)) with (Some zwei) in Hp.
  injection Hp as <-.
  change (fs w) with (∅ : gmap str file) in Hcontent.
  rewrite lookup_empty in Hcontent. destruct Hcontent as (runs & Hmap & ->).
  exists runs. split; [exact Hmap|exact Hheap].
Defined.

Lemma block_failure_aborts_the_call_witness :
  let E := Samples.strict_draw in
  let tr := Samples.translator_for E in
  let w := Samples.fresh Samples.creased in
  let wj := snd (page_loop E 0 (total_of Samples.creased 0 2) tr
                   (color_of Samples.red) Samples.name Samples.lang
                   (take 1 (items_of Samples.creased 0 2)) [] 0
                   (World (heap w) (fs w) (trace w ++ start_events tr Samples.name))) in
  let p := Page (lit "Hallo x Auf Wiedersehen")
             [Samples.hello; Samples.flat; Samples.bye] [] in
  let key := Samples.creased_key in
  let runs := [Samples.handled Samples.hello] in
  let v := Samples.answer (lit "x") in
  let tevs := Samples.asking (lit "x") in
  let e := Exn OverflowError (lit "cannot convert float infinity to integer") in
  let page_num := 0 + Z.of_nat 1 in
  let id := length (heap wj) in
  let css := css_of (color_of Samples.red) in
  let w1 := miss_start wj p key page_num in
  let w2 := after_runs w1 id ∅ css p runs in
  heap w !! 0%nat = Some Samples.creased
  /\ 0 <= 0
  /\ translator_ok tr
  /\ loop_reaches E 0 Samples.creased 0 2 tr Samples.red Samples.name Samples.lang
       w 1 [1%nat] 0 wj
  /\ Z.of_nat 1 < 2
  /\ doc_pages Samples.creased !! Z.to_nat (0 + Z.of_nat 1) = Some p
  /\ get_cache_key (doc_metadata Samples.creased) (0 + Z.of_nat 1) Samples.name
       Samples.lang (pg_text p) = Ok key
  /\ (forall x, fs wj !! key <> Some (PdfFile x))
  /\ pg_blocks p = map br_block runs ++ Samples.flat :: [Samples.bye]
  /\ handled_in_turn E tr id ∅ css p w1 runs
  /\ answers tr (blk_text Samples.flat) w2 (Ok v) tevs
  /\ refuses E id css (trace w2 ++ Submit (blk_text Samples.flat) :: tevs)
       Samples.flat v RenderRefused e
  /\ exists w',
       translate_pdf_pages E 0 None 0 2 tr Samples.red Samples.name Samples.lang w
       = (Raise e, w')
       /\ heap w' = heap wj
                    ++ [Document ∅ [drawn_page p (flat_map (br_ops css) runs
                                                  ++ [erase_op Samples.flat])]]
       /\ fs w' = fs wj.
Proof.
  intros E tr w wj p key runs v tevs e page_num id css w1 w2.
  assert (H1 : heap w !! 0%nat = Some Samples.creased) by reflexivity.
  assert (H2 : 0 <= 0) by lia.
  assert (H3 : translator_ok tr) by apply OpenAICompatibleTranslator_ok.
  assert (H4 : loop_reaches E 0 Samples.creased 0 2 tr Samples.red Samples.name
                 Samples.lang w 1 [1%nat] 0 wj)
    by (apply run_Ok; vm_compute; reflexivity).
  assert (H5 : Z.of_nat 1 < 2) by (cbn; lia).
  assert (H6 : doc_pages Samples.creased !! Z.to_nat (0 + Z.of_nat 1) = Some p)
    by reflexivity.
  assert (H7 : get_cache_key (doc_metadata Samples.creased) (0 + Z.of_nat 1) Samples.name
                 Samples.lang (pg_text p) = Ok key) by (vm_compute; reflexivity).
  assert (H8 : forall x, fs wj !! key <> Some (PdfFile x)).
  { assert (Hnone : fs wj !! key = None) by (vm_compute; reflexivity).
    intros x. rewrite Hnone. discriminate. }
  assert (H9 : pg_blocks p = map br_block runs ++ Samples.flat :: [Samples.bye])
    by reflexivity.
  assert (H10 : handled_in_turn E tr id ∅ css p w1 runs)
    by (vm_compute; repeat split; reflexivity).
  assert (H11 : answers tr (blk_text Samples.flat) w2 (Ok v) tevs)
    by (vm_compute; reflexivity).
  assert (H12 : refuses E id css (trace w2 ++ Submit (blk_text Samples.flat) :: tevs)
                  Samples.flat v RenderRefused e)
    by (vm_compute; split; reflexivity).
  repeat (split; [assumption|]).
  destruct (block_failure_aborts_the_call E 0 Samples.creased None 0 2 tr Samples.red
              Samples.name Samples.lang w 1 [1%nat] 0 wj p key runs Samples.flat
              [Samples.bye] v tevs RenderRefused e
              H1 H2 H3 H4 H5 H6 H7 H8 H9 H10 H11 H12)
    as (w' & Hrun & Hheap & Hfs & _).
  exists w'. split; [exact Hrun|]. split; [exact Hheap|exact Hfs].
Defined.

Lemma save_failure_aborts_the_call_witness :
  let E := Samples.full_disk in
  let tr := Samples.translator_for E in
  let w := Samples.fresh Samples.letter in
  let wj := World (heap w) (fs w) (trace w ++ start_events tr Samples.name) in
  let p := Page (lit "Hallo Welt Auf Wiedersehen") [Samples.hello; Samples.bye] [] in
  let key := Samples.letter_key in
  let runs := [Samples.handled Samples.hello; Samples.handled Samples.bye] in
  let e := Exn FzErrorSystem (lit "No space left on device") in
  let page_num := 0 + Z.of_nat 0 in
  let id := length (heap wj) in
  let css := css_of (color_of Samples.red) in
  let w1 := miss_start wj p key page_num in
  let w2 := after_runs w1 id ∅ css p runs in
  heap w !! 0%nat = Some Samples.letter
  /\ 0 <= 0
  /\ translator_ok tr
  /\ loop_reaches E 0 Samples.letter 0 1 tr Samples.red Samples.name Samples.lang
       w 0 [] 0 wj
  /\ Z.of_nat 0 < 1
  /\ doc_pages Samples.letter !! Z.to_nat (0 + Z.of_nat 0) = Some p
  /\ get_cache_key (doc_metadata Samples.letter) (0 + Z.of_nat 0) Samples.name
       Samples.lang (pg_text p) = Ok key
  /\ (forall x, fs wj !! key <> Some (PdfFile x))
  /\ map br_block runs = pg_blocks p
  /\ handled_in_turn E tr id ∅ css p w1 runs
  /\ file_save E (trace w2 ++ [Mkdir]) key = SaveFailed e (Some (PdfFile Samples.torn))
  /\ exists w',
       translate_pdf_pages E 0 None 0 1 tr Samples.red Samples.name Samples.lang w
       = (Raise e, w')
       /\ fs w' = <[key := PdfFile Samples.torn]> (fs wj)
       /\ get_cached_translation key w'
          = (Ok (Some (length (heap w'))),
             World (heap w' ++ [Samples.torn]) (fs w')
               (trace w' ++ [Mkdir; FileOpen key])).
Proof.
  intros E tr w wj p key runs e page_num id css w1 w2.
  assert (H1 : heap w !! 0%nat = Some Samples.letter) by reflexivity.
  assert (H2 : 0 <= 0) by lia.
  assert (H3 : translator_ok tr) by apply OpenAICompatibleTranslator_ok.
  assert (H4 : loop_reaches E 0 Samples.letter 0 1 tr Samples.red Samples.name
                 Samples.lang w 0 [] 0 wj) by reflexivity.
  assert (H5 : Z.of_nat 0 < 1) by (cbn; lia).
  assert (H6 : doc_pages Samples.letter !! Z.to_nat (0 + Z.of_nat 0) = Some p)
    by reflexivity.
  assert (H7 : get_cache_key (doc_metadata Samples.letter) (0 + Z.of_nat 0) Samples.name
                 Samples.lang (pg_text p) = Ok key) by (vm_compute; reflexivity).
  assert (H8 : forall x, fs wj !! key <> Some (PdfFile x))
    by apply empty_cache_misses.
  assert (H9 : map br_block runs = pg_blocks p) by reflexivity.
  assert (H10 : handled_in_turn E tr id ∅ css p w1 runs)
    by (vm_compute; repeat split; reflexivity).
  assert (H11 : file_save E (trace w2 ++ [Mkdir]) key
                = SaveFailed e (Some (PdfFile Samples.torn))) by reflexivity.
  repeat (split; [assumption|]).
  destruct (save_failure_aborts_the_call E 0 Samples.letter None 0 1 tr Samples.red
              Samples.name Samples.lang w 0 [] 0 wj p key runs e
              (Some (PdfFile Samples.torn))
              H1 H2 H3 H4 H5 H6 H7 H8 H9 H10 H11)
    as (w' & Hrun & _ & Hfs & _ & Hget).
  exists w'. split; [exact Hrun|]. split; [exact Hfs|exact Hget].
Defined.

Lemma blocks_are_translated_and_drawn_in_turn_witness :
  let E := Samples.echo in
  let tr := Samples.translator_for E in
  let w := Samples.fresh Samples.creased in
  let wj := snd (page_loop E 0 (total_of Samples.creased 0 2) tr
                   (color_of Samples.red) Samples.name Samples.lang
                   (take 1 (items_of Samples.creased 0 2)) [] 0
                   (World (heap w) (fs w) (trace w ++ start_events tr Samples.name))) in
  let p := Page (lit "Hallo x Auf Wiedersehen")
             [Samples.hello; Samples.flat; Samples.bye] [] in
  let key := Samples.creased_key in
  let page_num := 0 + Z.of_nat 1 in
  let id := length (heap wj) in
  let css := css_of (color_of Samples.red) in
  let w1 := miss_start wj p key page_num in
  heap w !! 0%nat = Some Samples.creased
  /\ 0 <= 0
  /\ translator_ok tr
  /\ loop_reaches E 0 Samples.creased 0 2 tr Samples.red Samples.name Samples.lang
       w 1 [1%nat] 0 wj
  /\ Z.of_nat 1 < 2
  /\ doc_pages Samples.creased !! Z.to_nat (0 + Z.of_nat 1) = Some p
  /\ get_cache_key (doc_metadata Samples.creased) (0 + Z.of_nat 1) Samples.name
       Samples.lang (pg_text p) = Ok key
  /\ (forall x, fs wj !! key <> Some (PdfFile x))
  /\ exists runs,
       handled_in_turn E tr id ∅ css p w1 runs
       /\ map br_block runs = [Samples.hello; Samples.flat; Samples.bye]
       /\ heap (after_runs w1 id ∅ css p runs)
          = heap wj ++ [Document ∅ [drawn_page p (flat_map (br_ops css) runs)]].
Proof.
  intros E tr w wj p key page_num id css w1.
  assert (H1 : heap w !! 0%nat = Some Samples.creased) by reflexivity.
  assert (H2 : 0 <= 0) by lia.
  assert (H3 : translator_ok tr) by apply OpenAICompatibleTranslator_ok.
  assert (H4 : loop_reaches E 0 Samples.creased 0 2 tr Samples.red Samples.name
                 Samples.lang w 1 [1%nat] 0 wj)
    by (apply run_Ok; vm_compute; reflexivity).
  assert (H5 : Z.of_nat 1 < 2) by (cbn; lia).
  assert (H6 : doc_pages Samples.creased !! Z.to_nat (0 + Z.of_nat 1) = Some p)
    by reflexivity.
  assert (H7 : get_cache_key (doc_metadata Samples.creased) (0 + Z.of_nat 1) Samples.name
                 Samples.lang (pg_text p) = Ok key) by (vm_compute; reflexivity).
  assert (H8 : forall x, fs wj !! key <> Some (PdfFile x)).
  { assert (Hnone : fs wj !! key = None) by (vm_compute; reflexivity).
    intros x. rewrite Hnone. discriminate. }
  repeat (split; [assumption|]).
  assert (Hcall : fst (translate_pdf_pages E 0 None 0 2 tr Samples.red Samples.name
                         Samples.lang w) = Ok [1; 2]%nat) by (vm_compute; reflexivity).
  destruct (blocks_are_translated_and_drawn_in_turn E 0 Samples.creased None 0 2 tr
              Samples.red Samples.name Samples.lang w 1 [1%nat] 0 wj p key
              H1 H2 H3 H4 H5 H6 H7 H8)
    as (runs & Hruns & Hheap & [[Hmap _] | (b & post & e0 & w' & _ & _ & Hraise)]).
  - exists runs. split; [exact Hruns|]. split; [exact Hmap|exact Hheap].
  - exfalso. rewrite Hraise in Hcall. discriminate Hcall.
Defined.

Lemma damaged_cache_entry_is_recomputed_witness :
  let E := Samples.echo in
  let tr := Samples.translator_for E in
  let w := Samples.damaged in
  let wj := World (heap w) (fs w) (trace w ++ start_events tr Samples.name) in
  let p := Page (lit "Hallo Welt Auf Wiedersehen") [Samples.hello; Samples.bye] [] in
  let key := Samples.letter_key in
  let why := lit "cannot open broken document" in
  let run := translate_pdf_pages E 0 None 0 1 tr Samples.red Samples.name
               Samples.lang w in
  let page_num := 0 + Z.of_nat 0 in
  let id := length (heap wj) in
  let css := css_of (color_of Samples.red) in
  let w1 := World (heap wj ++ [Document ∅ [p]]) (fs wj)
              (trace wj ++ miss_events key page_num (Some why)) in
  heap w !! 0%nat = Some Samples.letter
  /\ 0 <= 0
  /\ translator_ok tr
  /\ loop_reaches E 0 Samples.letter 0 1 tr Samples.red Samples.name Samples.lang
       w 0 [] 0 wj
  /\ Z.of_nat 0 < 1
  /\ doc_pages Samples.letter !! Z.to_nat (0 + Z.of_nat 0) = Some p
  /\ get_cache_key (doc_metadata Samples.letter) (0 + Z.of_nat 0) Samples.name
       Samples.lang (pg_text p) = Ok key
  /\ fs wj !! key = Some (Damaged why)
  /\ run = (Ok [1%nat], snd run)
  /\ exists runs,
       handled_in_turn E tr id ∅ css p w1 runs
       /\ map br_block runs = [Samples.hello; Samples.bye]
       /\ heap (snd run) !! 1%nat
          = Some (Document ∅ [drawn_page p (flat_map (br_ops css) runs)])
       /\ fs (snd run) !! key
          = Some (PdfFile (Document ∅ [drawn_page p (flat_map (br_ops css) runs)])).
Proof.
  intros E tr w wj p key why run page_num id css w1.
  assert (H1 : heap w !! 0%nat = Some Samples.letter) by reflexivity.
  assert (H2 : 0 <= 0) by lia.
  assert (H3 : translator_ok tr) by apply OpenAICompatibleTranslator_ok.
  assert (H4 : loop_reaches E 0 Samples.letter 0 1 tr Samples.red Samples.name
                 Samples.lang w 0 [] 0 wj) by reflexivity.
  assert (H5 : Z.of_nat 0 < 1) by (cbn; lia).
  assert (H6 : doc_pages Samples.letter !! Z.to_nat (0 + Z.of_nat 0) = Some p)
    by reflexivity.
  assert (H7 : get_cache_key (doc_metadata Samples.letter) (0 + Z.of_nat 0) Samples.name
                 Samples.lang (pg_text p) = Ok key) by (vm_compute; reflexivity).
  assert (H8 : fs wj !! key = Some (Damaged why)) by apply lookup_singleton_eq.
  assert (H9 : run = (Ok [1%nat], snd run)) by (apply run_Ok; vm_compute; reflexivity).
  repeat (split; [assumption|]).
  destruct (damaged_cache_entry_is_recomputed E 0 Samples.letter None 0 1 tr
              Samples.red Samples.name Samples.lang w 0 [] 0 wj p key (Damaged why)
              H1 H2 H3 H4 H5 H6 H7 H8) as (_ & Hcall & _).
  destruct (Hcall (Ok [1%nat]) (snd run) H9) as (runs & later & Hruns & _ & Hpages).
  destruct (Hpages [1%nat] eq_refl) as (Hmap & _ & Hheap & Hfs).
  exists runs. split; [exact Hruns|]. split; [exact Hmap|].
  split; [exact Hheap|exact Hfs].
Defined.

Lemma translate_pdf_pages_preserves_input_witness :
  let tr := Samples.translator_for Samples.echo in
  let w := Samples.fresh Samples.twins in
  let run := translate_pdf_pages Samples.echo 0 None 0 2 tr Samples.red Samples.name
               Samples.lang w in
  heap w !! 0%nat = Some Samples.twins
  /\ translator_ok tr
  /\ run = (fst run, snd run)
  /\ fst run = Ok [1; 2]%nat
  /\ heap (snd run) !! 0%nat = Some Samples.twins.
Proof.
  intros tr w run.
  assert (H1 : heap w !! 0%nat = Some Samples.twins) by reflexivity.
  assert (H2 : translator_ok tr) by apply OpenAICompatibleTranslator_ok.
  assert (H3 : run = (fst run, snd run)) by apply surjective_pairing.
  split; [exact H1|]. split; [exact H2|]. split; [exact H3|].
  split; [vm_compute; reflexivity|].
  exact (proj1 (translate_pdf_pages_preserves_input Samples.echo 0 Samples.twins None
                  0 2 tr Samples.red Samples.name Samples.lang w (fst run) (snd run)
                  H1 H2 H3)).
Defined.

Lemma second_run_is_served_from_cache_witness :
  let tr := Samples.translator_for Samples.echo in
  let w := Samples.fresh Samples.twins in
  let run := translate_pdf_pages Samples.echo 0 None 0 2 tr Samples.red Samples.name
               Samples.lang w in
  heap w !! 0%nat = Some Samples.twins
  /\ 0 <= 0
  /\ translator_ok tr
  /\ run = (Ok [1; 2]%nat, snd run)
  /\ exists pages2 w2,
       translate_pdf_pages Samples.api_down 0 None 0 2 tr Samples.red Samples.name
         Samples.lang (snd run) = (Ok pages2, w2)
       /\ length pages2 = 2%nat.
Proof.
  intros tr w run.
  assert (H1 : heap w !! 0%nat = Some Samples.twins) by reflexivity.
  assert (H2 : 0 <= 0) by lia.
  assert (H3 : translator_ok tr) by apply OpenAICompatibleTranslator_ok.
  assert (H4 : run = (Ok [1; 2]%nat, snd run))
    by (apply run_Ok; vm_compute; reflexivity).
  split; [exact H1|]. split; [exact H2|]. split; [exact H3|]. split; [exact H4|].
  destruct (second_run_is_served_from_cache Samples.echo Samples.api_down 0
              Samples.twins None 0 2 tr Samples.red Samples.name Samples.lang w
              [1; 2]%nat (snd run) H1 H2 H3 H4)
    as (pages2 & hs & evs & Hrun2 & _ & Hlen & _).
  exists pages2, (World (heap (snd run) ++ hs) (fs (snd run)) (trace (snd run) ++ evs)).
  split; [exact Hrun2|exact Hlen].
Defined.

(** * Where the code departs from the specification *)

(** C1, as stated, fails. The two pages of [Samples.twins] have the same
    document identity, text, translator name and target language, and one
    call translates both: the page number is part of the key, so the
    second page misses, and the endpoint is called once for each. *)
Lemma same_text_pages_are_each_translated :
  let run := translate_pdf_pages Samples.echo 0 None 0 2
               (Samples.translator_for Samples.echo) Samples.red Samples.name
               Samples.lang (Samples.fresh Samples.twins) in
  (pg_text <$> doc_pages Samples.twins !! 0%nat)
  = (pg_text <$> doc_pages Samples.twins !! 1%nat)
  /\ fst run = Ok [1; 2]%nat
  /\ ~ (length (List.filter is_api_call (trace (snd run))) <= 1)%nat.
Proof.
  split; [reflexivity|]. split; [vm_compute; reflexivity|].
  assert (H : length (List.filter is_api_call
                        (trace (snd (translate_pdf_pages Samples.echo 0 None 0 2
                           (Samples.translator_for Samples.echo) Samples.red
                           Samples.name Samples.lang (Samples.fresh Samples.twins)))))
              = 2%nat) by (vm_compute; reflexivity).
  cbv zeta. rewrite H. lia.
Qed.


(** C4, as stated, fails. With a full disk the save of the page of
    [Samples.letter] raises, and so does the call: the page is not
    returned, and nothing is logged, the attempt to save being the last
    thing that happens. The write is not atomic either: the partial file
    that the failed save left under the key is what a later
    [get_cached_translation] loads and returns. *)
Lemma failed_save_is_fatal :
  let run := translate_pdf_pages Samples.full_disk 0 None 0 1
               (Samples.translator_for Samples.full_disk) Samples.red Samples.name
               Samples.lang (Samples.fresh Samples.letter) in
  let later := get_cached_translation Samples.letter_key (snd run) in
  fst run = Raise (Exn FzErrorSystem (lit "No space left on device"))
  /\ (forall pages, fst run <> Ok pages)
  /\ last (trace (snd run)) = Some (FileSave Samples.letter_key 1)
  /\ fs (snd run) !! Samples.letter_key = Some (PdfFile Samples.torn)
  /\ fst later = Ok (Some 2%nat)
  /\ heap (snd later) !! 2%nat = Some Samples.torn.
Proof.
  assert (H : fst (translate_pdf_pages Samples.full_disk 0 None 0 1
                     (Samples.translator_for Samples.full_disk) Samples.red
                     Samples.name Samples.lang (Samples.fresh Samples.letter))
              = Raise (Exn FzErrorSystem (lit "No space left on device")))
    by (vm_compute; reflexivity).
  cbv zeta. rewrite H. split; [reflexivity|]. split; [intros pages; discriminate|].
  repeat split; vm_compute; reflexivity.
Qed.

(** C5, as stated, fails. The file that the failed save of the page of
    [Samples.letter] left under its key is truncated, and does not hold
    the translated page; but [pymupdf.open] repairs and opens it. So
    [get_cached_translation] returns it without logging anything, and a
    later call with collaborators that work serves the page from it:
    the entry returned is the repaired document, nothing is submitted to
    the translator, drawn or saved, and the file stays under the key. *)
Lemma truncated_artifact_is_served :
  let tr := Samples.translator_for Samples.echo in
  let first := translate_pdf_pages Samples.full_disk 0 None 0 1
                 (Samples.translator_for Samples.full_disk) Samples.red Samples.name
                 Samples.lang (Samples.fresh Samples.letter) in
  let found := get_cached_translation Samples.letter_key (snd first) in
  let second := translate_pdf_pages Samples.echo 0 None 0 1 tr Samples.red
                  Samples.name Samples.lang (snd first) in
  let news := drop (length (trace (snd first))) (trace (snd second)) in
  fs (snd first) !! Samples.letter_key = Some (PdfFile Samples.torn)
  /\ fst found = Ok (Some 2%nat)
  /\ drop (length (trace (snd first))) (trace (snd found))
     = [Mkdir; FileOpen Samples.letter_key]
  /\ fst second = Ok [2%nat]
  /\ heap (snd second) !! 2%nat = Some Samples.torn
  /\ List.filter is_translation_work news = []
  /\ news = start_events tr Samples.name
            ++ hit_events Samples.letter_key 0 0 1
            ++ end_events 1 1
  /\ fs (snd second) !! Samples.letter_key = Some (PdfFile Samples.torn).
Proof. vm_compute. repeat split. Qed.

(** C8, as stated, fails. On the two-block page of [Samples.letter] the
    second block is submitted to the translator after the first block has
    been erased and rendered. *)
Lemma second_block_is_submitted_after_first_is_drawn :
  let run := translate_pdf_pages Samples.echo 0 None 0 1
               (Samples.translator_for Samples.echo) Samples.red Samples.name
               Samples.lang (Samples.fresh Samples.letter) in
  let css := css_of (color_of Samples.red) in
  fst run = Ok [1%nat]
  /\ submits_precede_draws (trace (snd run)) = false
  /\ List.filter is_pipeline_event (trace (snd run))
     = [Submit (blk_text Samples.hello);
        Draw 1 (erase_op Samples.hello);
        Draw 1 (render_op css Samples.hello (Samples.answer (blk_text Samples.hello)));
        Submit (blk_text Samples.bye);
        Draw 1 (erase_op Samples.bye);
        Draw 1 (render_op css Samples.bye (Samples.answer (blk_text Samples.bye)))].
Proof. vm_compute. repeat split. Qed.

(** C9, as stated, fails. The second block of the second page of
    [Samples.creased] has a rectangle without area; the library erases
    it and then fails to render the translation into it. The exception
    leaves the call: nothing is logged, the attempt to render being the
    last thing that happens; the third block of the page is neither
    submitted nor drawn; the page is neither saved nor returned, and
    neither is the first page, which had been completed. *)
Lemma degenerate_block_is_fatal :
  let run := translate_pdf_pages Samples.strict_draw 0 None 0 2
               (Samples.translator_for Samples.strict_draw) Samples.red Samples.name
               Samples.lang (Samples.fresh Samples.creased) in
  let css := css_of (color_of Samples.red) in
  fst run = Raise (Exn OverflowError (lit "cannot convert float infinity to integer"))
  /\ (forall pages, fst run <> Ok pages)
  /\ List.filter is_pipeline_event (trace (snd run))
     = [Submit (blk_text Samples.hello);
        Draw 1 (erase_op Samples.hello);
        Draw 1 (render_op css Samples.hello (Samples.answer (blk_text Samples.hello)));
        Submit (blk_text Samples.hello);
        Draw 2 (erase_op Samples.hello);
        Draw 2 (render_op css Samples.hello (Samples.answer (blk_text Samples.hello)));
        Submit (blk_text Samples.flat);
        Draw 2 (erase_op Samples.flat);
        Draw 2 (render_op css Samples.flat (Samples.answer (blk_text Samples.flat)))]
  /\ last (trace (snd run))
     = Some (Draw 2 (render_op css Samples.flat (Samples.answer (blk_text Samples.flat))))
  /\ heap (snd run) !! 2%nat
     = Some (Document ∅
               [drawn_page (Page (lit "Hallo x Auf Wiedersehen")
                              [Samples.hello; Samples.flat; Samples.bye] [])
                  (br_ops css (Samples.handled Samples.hello)
                   ++ [erase_op Samples.flat])])
  /\ fs (snd run) !! Samples.creased_key = None.
Proof.
  assert (H : fst (translate_pdf_pages Samples.strict_draw 0 None 0 2
                     (Samples.translator_for Samples.strict_draw) Samples.red
                     Samples.name Samples.lang (Samples.fresh Samples.creased))
              = Raise (Exn OverflowError
                         (lit "cannot convert float infinity to integer")))
    by (vm_compute; reflexivity).
  cbv zeta. rewrite H. split; [reflexivity|]. split; [intros pages; discriminate|].
  repeat split; vm_compute; reflexivity.
Qed.
